(** * ModernPortfolio.Analysis: portfolios, scans and the hull of a sample cloud

    A shallow embedding of [ModernPortfolio/Analysis.py].

    - Python's [float] arithmetic is an interface ([Arith]) with two
      instances: [Float64], the IEEE binary64 numbers CPython computes
      with (Rocq's primitive floats), and [Exact], the real numbers the
      formulas of the documentation are written in.  Statements about
      control flow, state and errors are proved for every arithmetic;
      algebraic identities are proved in [Exact]; what rounding does is
      evaluated in [Float64].
    - Exceptions, [warnings.warn], the mutable portfolio, heap-allocated
      lists that several tuples may share, and the random source are
      effects of a small state-and-exception monad [Py].
    - Every number is a Python [float], as the module's own literals and
      the statistics of its data sources are; Python's [int] is not
      modelled.  [list.sort] is a stable insertion sort on the keys
      compared with [<], which is what CPython's sort returns whenever no
      key is NaN; with a NaN key the two may order a list differently.
      [math.pow(x, 2)] is the correctly rounded product [x * x], from
      which the [pow] of a C library may differ in the last bit.
    - Of [ModernPortfolio/Datasource.py] the statistics of [TimeSeries]
      are embedded; the download of quotes ([HistoricalQuotes]) and the
      printing of [Portfolio.report] are not. *)

From Stdlib Require Import Floats Reals Lra Lia ZArith List String Bool Sorted.
From stdpp Require Import gmap.
Import ListNotations.

Local Open Scope string_scope.
Local Open Scope list_scope.

(** ** Arithmetic *)

(** The operations of a Python [float] that the module uses.  [fis_zero y]
    is the test under which [x / y] raises [ZeroDivisionError]; [fpow2 x]
    is [math.pow(x, 2)], [None] standing for its [OverflowError];
    [fsqrt x] is [math.sqrt(x)], [None] standing for its [ValueError];
    [funordered x] is [x != x]. *)
Class Arith : Type := {
  number : Type;
  lit_0 : number;
  lit_1 : number;
  lit_2 : number;
  rel_tol : number;
  abs_tol : number;
  fadd : number -> number -> number;
  fsub : number -> number -> number;
  fmul : number -> number -> number;
  fdiv : number -> number -> number;
  fabs : number -> number;
  flt : number -> number -> bool;
  fis_zero : number -> bool;
  funordered : number -> bool;
  fpow2 : number -> option number;
  fsqrt : number -> option number
}.

Declare Scope arith_scope.
Delimit Scope arith_scope with ar.
Infix "[+]" := fadd (at level 50, left associativity) : arith_scope.
Infix "[-]" := fsub (at level 50, left associativity) : arith_scope.
Infix "[*]" := fmul (at level 40, left associativity) : arith_scope.
Infix "[<]" := flt (at level 65, no associativity) : arith_scope.
Local Open Scope arith_scope.

(** ** Exceptions and outcomes *)

Inductive exn : Type :=
| TypeError
| ZeroDivisionError
| ValueError
| OverflowError
| IndexError
| AttributeError.

#[global] Instance exn_eq_dec : EqDecision exn.
Proof. solve_decision. Defined.

Section Model.

Context {A : Arith}.

(** ** Data *)

(** [class Asset].  Python compares and hashes assets by object identity
    (the class defines neither [__eq__] nor [__hash__]); [ident] is that
    identity. *)
Record Asset : Type := mkAsset {
  ident : nat;
  price : number;
  name : string;
  volatility : number;
  expected_return : number
}.

(** [class Portfolio]: [assets] is the list of [[asset, number]] pairs,
    [correlations] the dict keyed by pairs of assets. *)
Record Portfolio : Type := mkPortfolio {
  assets : list (Asset * number);
  correlations : gmap (nat * nat) number
}.

(** A reference to a list object on the heap. *)
Definition ref : Type := nat.

(** What a run can observe and change: the portfolio under analysis, the
    warnings issued so far (oldest first), the list objects allocated by
    the scans, and how many numbers were drawn from the random source. *)
Record World : Type := mkWorld {
  portfolio : Portfolio;
  warned : list string;
  heap : list (list number);
  drawn : nat
}.

Inductive outcome (T : Type) : Type :=
| Ok (v : T) (w : World)
| Raise (e : exn) (w : World)
| OutOfFuel.

Arguments Ok {T} v w.
Arguments Raise {T} e w.
Arguments OutOfFuel {T}.

Definition Py (T : Type) : Type := World -> outcome T.

Definition ret {T} (v : T) : Py T := fun w => Ok v w.

Definition bind {T U} (m : Py T) (k : T -> Py U) : Py U :=
  fun w =>
    match m w with
    | Ok v w' => k v w'
    | Raise e w' => Raise e w'
    | OutOfFuel => OutOfFuel
    end.

Definition raise {T} (e : exn) : Py T := fun w => Raise e w.

Definition out_of_fuel {T} : Py T := fun _ => OutOfFuel.

(** [try: m except e: handler]. *)
Definition try_except {T} (m : Py T) (e : exn) (handler : Py T) : Py T :=
  fun w =>
    match m w with
    | Raise e' w' =>
        if decide (e' = e) then handler w' else Raise e' w'
    | r => r
    end.

Notation "'let*' x ':=' m 'in' k" := (bind m (fun x => k))
  (at level 10, x pattern, m at level 100, k at level 200).

Definition warn (msg : string) : Py unit :=
  fun w => Ok tt (mkWorld (portfolio w) (warned w ++ [msg]) (heap w) (drawn w)).

(** Loops: [for x in xs: body], with and without a variable that the body
    updates. *)
Fixpoint for_each {X} (xs : list X) (body : X -> Py unit) : Py unit :=
  match xs with
  | [] => ret tt
  | x :: xs' => let* _ := body x in for_each xs' body
  end.

Fixpoint for_acc {X S} (xs : list X) (body : S -> X -> Py S) (s : S) : Py S :=
  match xs with
  | [] => ret s
  | x :: xs' => let* s' := body s x in for_acc xs' body s'
  end.

(** [range(n)] and [range(a, b)]. *)
Definition range (n : nat) : list nat := seq 0 n.
Definition range2 (a b : nat) : list nat := seq a (b - a).

(** [x / y] on floats. *)
Definition py_div (x y : number) : Py number :=
  if fis_zero y then raise ZeroDivisionError else ret (fdiv x y).

Definition py_pow2 (x : number) : Py number :=
  match fpow2 x with Some y => ret y | None => raise OverflowError end.

Definition py_sqrt (x : number) : Py number :=
  match fsqrt x with Some y => ret y | None => raise ValueError end.

(** ** Module-level functions *)

Definition float_eq (a b : number) : bool :=
  fabs (b [-] a) [<] (abs_tol [+] rel_tol [*] (a [+] b)).

(** [reduce(lambda x, y: x + y, vec)]: no initial value, so the empty
    vector is a [TypeError]. *)
Definition vec_sum (vec : list number) : Py number :=
  match vec with
  | [] => raise TypeError
  | x :: xs => ret (fold_left fadd xs x)
  end.

Definition vec_norm (vec : list number) (n : number) : Py (list number) :=
  let* sum := vec_sum vec in
  for_acc vec (fun acc v => let* q := py_div v sum in ret (acc ++ [q [*] n])) [].

Fixpoint frange_loop (fuel : nat) (a b c : number) (res : list number)
  : option (list number) :=
  match fuel with
  | O => None
  | S fuel' =>
      let res := res ++ [a] in
      let a := a [+] c in
      if (lit_0 [<] c) && (b [<] a) then Some res
      else if (c [<] lit_0) && (a [<] b) then Some res
      else frange_loop fuel' a b c res
  end.

Definition frange (fuel : nat) (a b c : number) : Py (list number) :=
  if float_eq c lit_0 then
    let* _ := warn "Step size zero." in ret []
  else
    match frange_loop fuel a b c [] with
    | Some res => ret res
    | None => out_of_fuel
    end.

(** ** [class Portfolio] *)

Definition get_portfolio : Py Portfolio := fun w => Ok (portfolio w) w.

Definition set_portfolio (p : Portfolio) : Py unit :=
  fun w => Ok tt (mkWorld p (warned w) (heap w) (drawn w)).

Definition num_assets (p : Portfolio) : nat := length (assets p).

Definition add_asset (new_asset : Asset) (asset_number : number) (p : Portfolio)
  : Portfolio :=
  mkPortfolio (assets p ++ [(new_asset, asset_number)]) (correlations p).

Fixpoint del_first (a : Asset) (l : list (Asset * number)) : list (Asset * number) :=
  match l with
  | [] => []
  | h :: t => if Nat.eqb (ident a) (ident (fst h)) then t else h :: del_first a t
  end.

Definition del_asset (asset : Asset) (p : Portfolio) : Portfolio :=
  mkPortfolio (del_first asset (assets p)) (correlations p).

(** [get_asset(i)] and [get_asset_number(i)] fall off the end of the
    function, returning Python's [None], when [i] is not below the length. *)
Definition get_asset (p : Portfolio) (i : nat) : option Asset :=
  fst <$> assets p !! i.

Definition get_asset_number (p : Portfolio) (i : nat) : option number :=
  snd <$> assets p !! i.

Definition set_asset_number (asset_number : number) (i : nat) (p : Portfolio)
  : Portfolio :=
  match assets p !! i with
  | Some (a, _) => mkPortfolio (<[i := (a, asset_number)]> (assets p)) (correlations p)
  | None => p
  end.

(** An attribute or operand taken from [None]. *)
Definition not_none {T} (o : option T) : Py T :=
  match o with Some v => ret v | None => raise AttributeError end.

Definition get_asset_value (i : nat) : Py number :=
  let* p := get_portfolio in
  let* a := not_none (get_asset p i) in
  let* n := not_none (get_asset_number p i) in
  ret (price a [*] n).

Definition get_value (p : Portfolio) : number :=
  fold_left (fun total asset => total [+] price (fst asset) [*] snd asset)
            (assets p) lit_0.

Definition get_asset_fractional_value (i : nat) : Py number :=
  try_except
    (let* v := get_asset_value i in
     let* p := get_portfolio in
     py_div v (get_value p))
    ZeroDivisionError
    (let* _ := warn "Portfolio value problem." in ret lit_0).

Definition set_asset_number_with_value (new_value : number) (i : nat) : Py unit :=
  try_except
    (let* p := get_portfolio in
     if Nat.ltb i (num_assets p) then
       let* a := not_none (get_asset p i) in
       let* q := py_div new_value (price a) in
       set_portfolio (set_asset_number q i p)
     else ret tt)
    ZeroDivisionError
    (warn "Asset price value problem.").

Definition set_asset_correlation (asset1 asset2 : Asset) (corr : number)
  (p : Portfolio) : Portfolio :=
  if Nat.eqb (ident asset1) (ident asset2) then p
  else mkPortfolio (assets p)
         (<[(ident asset2, ident asset1) := corr]>
            (<[(ident asset1, ident asset2) := corr]> (correlations p))).

Definition get_asset_correlation (p : Portfolio) (asset1 asset2 : Asset) : number :=
  match correlations p !! (ident asset1, ident asset2) with
  | Some c => c
  | None =>
      match correlations p !! (ident asset2, ident asset1) with
      | Some c => c
      | None => lit_0
      end
  end.

Definition get_asset_distribution : Py (list number) :=
  let* p := get_portfolio in
  for_acc (range (num_assets p))
    (fun distrib i =>
       let* f := get_asset_fractional_value i in ret (distrib ++ [f]))
    [].

Definition set_asset_distribution (new_distrib : list number) : Py unit :=
  let* p := get_portfolio in
  let n := length new_distrib in
  if negb (Nat.eqb n (num_assets p)) then
    warn "Problem with number of assets in portfolio."
  else
    let* s := vec_sum new_distrib in
    if negb (float_eq s lit_1) then
      warn "Problem with input vector normalization."
    else
      let total := get_value p in
      for_each (range n)
        (fun i =>
           match new_distrib !! i with
           | Some d => set_asset_number_with_value (total [*] d) i
           | None => raise IndexError
           end).

Definition get_volatility : Py number :=
  let* p := get_portfolio in
  let n := num_assets p in
  if Nat.eqb n 0 then ret lit_0
  else
    let* total :=
      for_acc (range n)
        (fun total i =>
           let* a := not_none (get_asset p i) in
           let* f := get_asset_fractional_value i in
           let* sq := py_pow2 (volatility a [*] f) in
           ret (total [+] sq))
        lit_0 in
    let* total :=
      for_acc (range n)
        (fun total i =>
           for_acc (range2 i n)
             (fun total j =>
                let* ai := not_none (get_asset p i) in
                let* aj := not_none (get_asset p j) in
                let c := get_asset_correlation p ai aj in
                let* fi := get_asset_fractional_value i in
                let* fj := get_asset_fractional_value j in
                ret (total [+] lit_2 [*] c [*] fi [*] fj))
             total)
        total in
    py_sqrt total.

Definition get_expected_return : Py number :=
  let* p := get_portfolio in
  for_acc (range (num_assets p))
    (fun avg_ret i =>
       let* a := not_none (get_asset p i) in
       let* f := get_asset_fractional_value i in
       ret (avg_ret [+] expected_return a [*] f))
    lit_0.

(** [Portfolio.__init__(data_source)].  A data source offers [get_name()],
    [volatility()], [expected_return()] and [covariance_with(other)]; the
    last one is the parameter [covariance_with].  The assets created here
    are fresh objects: the k-th one is identified by [k]. *)
Record DataSource : Type := mkDataSource {
  ds_name : string;
  ds_volatility : number;
  ds_expected_return : number
}.

Definition Portfolio_init (covariance_with : DataSource -> DataSource -> number)
  (data_source : option (list DataSource)) : Py unit :=
  let* _ := set_portfolio (mkPortfolio [] ∅) in
  let* _ :=
    match data_source with
    | None => ret tt
    | Some sources =>
        let* _ :=
          for_each sources
            (fun investment =>
               let* p := get_portfolio in
               set_portfolio
                 (add_asset (mkAsset (num_assets p) lit_1 (ds_name investment)
                               (ds_volatility investment)
                               (ds_expected_return investment))
                    lit_1 p)) in
        let* p := get_portfolio in
        let n := num_assets p in
        if Nat.ltb 1 n then
          for_each (range n)
            (fun i =>
               for_each (range n)
                 (fun j =>
                    if negb (Nat.eqb i j) then
                      let* p := get_portfolio in
                      let* ai := not_none (get_asset p i) in
                      let* aj := not_none (get_asset p j) in
                      match sources !! i, sources !! j with
                      | Some di, Some dj =>
                          set_portfolio
                            (set_asset_correlation ai aj (covariance_with di dj) p)
                      | _, _ => raise IndexError
                      end
                    else ret tt))
        else ret tt
    end in
  let* p := get_portfolio in
  let* norm := vec_sum (map snd (assets p)) in
  for_each (range (num_assets p))
    (fun i =>
       let* q := py_div lit_1 norm in
       let* p := get_portfolio in
       set_portfolio (set_asset_number q i p)).

(** ** List objects *)

Definition alloc (l : list number) : Py ref :=
  fun w =>
    Ok (length (heap w))
       (mkWorld (portfolio w) (warned w) (heap w ++ [l]) (drawn w)).

Definition deref (r : ref) : Py (list number) :=
  fun w => Ok (default [] (heap w !! r)) w.

(** A Python subscript: [-len <= i < len] selects an element. *)
Definition py_index (len : nat) (i : Z) : option nat :=
  if ((0 <=? i) && (i <? Z.of_nat len))%Z then Some (Z.to_nat i)
  else if ((i <? 0) && (- Z.of_nat len <=? i))%Z then
    Some (Z.to_nat (Z.of_nat len + i))
  else None.

(** [l[i] = x] on the list object [r]. *)
Definition setitem (r : ref) (i : Z) (x : number) : Py unit :=
  fun w =>
    let l := default [] (heap w !! r) in
    match py_index (length l) i with
    | Some k =>
        Ok tt (mkWorld (portfolio w) (warned w)
                 (<[r := <[k := x]> l]> (heap w)) (drawn w))
    | None => Raise IndexError w
    end.

(** [Portfolio.replace_asset].
    [self.assets[i] = [new_asset, new_number]]: a subscript, so an index
    out of range is an [IndexError] and a negative one counts from the
    end. *)
Definition replace_asset (new_asset : Asset) (new_number : number) (i : Z)
  : Py unit :=
  let* p := get_portfolio in
  match py_index (num_assets p) i with
  | Some k =>
      set_portfolio
        (mkPortfolio (<[k := (new_asset, new_number)]> (assets p)) (correlations p))
  | None => raise IndexError
  end.

(** ** [class PortfolioAnalysis] *)

(** A sample point [(volatility, expected return, asset distribution)];
    the third component is the list object the tuple refers to. *)
Definition Sample : Type := (number * number * ref)%type.

Definition scan_two_assets (fuel : nat) (i j : Z) (res : number)
  : Py (list Sample) :=
  let* p := get_portfolio in
  let* cdist := alloc (repeat lit_0 (num_assets p)) in
  let* xs := frange fuel lit_0 lit_1 res in
  for_acc xs
    (fun result x =>
       let* _ := setitem cdist i x in
       let* _ := setitem cdist j (lit_1 [-] x) in
       let* d := deref cdist in
       let* _ := set_asset_distribution d in
       let* v := get_volatility in
       let* e := get_expected_return in
       ret (result ++ [(v, e, cdist)]))
    [].

Definition scan_asset_pairs (fuel : nat) (res : number) : Py (list Sample) :=
  let* p := get_portfolio in
  let n := num_assets p in
  for_acc (range (n - 1))
    (fun result i =>
       for_acc (range2 (i + 1) n)
         (fun result j =>
            let* r := scan_two_assets fuel (Z.of_nat i) (Z.of_nat j) res in
            ret (result ++ r))
         result)
    [].

(** [[rnd.random() for j in range(n)]]: the random source is the sequence
    [rnd] of numbers, read from position [drawn] on. *)
Definition random_vector (rnd : nat -> number) (n : nat) : Py (list number) :=
  fun w =>
    Ok (map rnd (seq (drawn w) n))
       (mkWorld (portfolio w) (warned w) (heap w) (drawn w + n)).

(** Progress logging ([log_flag], [threshold], [stage]) changes nothing
    that the callers see and is left out of both Monte-Carlo loops. *)
Definition scan_montecarlo (rnd : nat -> number) (num : nat) : Py (list Sample) :=
  for_acc (range num)
    (fun result _ =>
       let* p := get_portfolio in
       let* draws := random_vector rnd (num_assets p) in
       let* normed := vec_norm draws lit_1 in
       let* cdist := alloc normed in
       let* d := deref cdist in
       let* _ := set_asset_distribution d in
       let* v := get_volatility in
       let* e := get_expected_return in
       ret (result ++ [(v, e, cdist)]))
    [].

(** No list of this method outlives it or is written to after its
    creation, so the lists are values here ([cdist[:]] is [cdist]). *)
Definition minimum_variance_montecarlo (rnd : nat -> number) (num : nat)
  : Py (number * number) :=
  let* p := get_portfolio in
  let* draws := random_vector rnd (num_assets p) in
  let* min_vol_dist := vec_norm draws lit_1 in
  let* _ := set_asset_distribution min_vol_dist in
  let* min_vol := get_volatility in
  let* best :=
    for_acc (range num)
      (fun '(min_vol_dist, min_vol) _ =>
         let* p := get_portfolio in
         let* draws := random_vector rnd (num_assets p) in
         let* cdist := vec_norm draws lit_1 in
         let* _ := set_asset_distribution cdist in
         let* cvol := get_volatility in
         if cvol [<] min_vol then ret (cdist, cvol)
         else ret (min_vol_dist, min_vol))
      (min_vol_dist, min_vol) in
  let* _ := set_asset_distribution (fst best) in
  let* v := get_volatility in
  let* e := get_expected_return in
  ret (v, e).

(** *** [asset_dist_hull] *)

Section Hull.

(** The payload of a point (its asset distribution) is carried along
    unread. *)
Context {D : Type}.

Definition Point : Type := (number * number * D)%type.

Definition px (x : Point) : number := fst (fst x).
Definition py (x : Point) : number := snd (fst x).

(** [list.sort(key=...)] is stable and compares keys with [<]. *)
Fixpoint insert_by (key : Point -> number) (x : Point) (l : list Point)
  : list Point :=
  match l with
  | [] => [x]
  | y :: l' =>
      if key x [<] key y then x :: y :: l' else y :: insert_by key x l'
  end.

Definition sort_by (key : Point -> number) (l : list Point) : list Point :=
  fold_left (fun sorted x => insert_by key x sorted) l [].

Definition near (a b : Point) : bool :=
  float_eq (px a) (px b) && float_eq (py a) (py b).

(** The [while i < len(sort_p)] loop: [prev] is [sort_p[i - 1]]. *)
Fixpoint dedup_from (prev : Point) (rest : list Point) : list Point :=
  match rest with
  | [] => [prev]
  | x :: rest' =>
      if near prev x then dedup_from prev rest' else prev :: dedup_from x rest'
  end.

Definition dedup (sort_p : list Point) : list Point :=
  match sort_p with
  | [] => []
  | x :: rest => dedup_from x rest
  end.

Definition cross_z (o a b : Point) : number :=
  (px a [-] px o) [*] (py b [-] py o) [-] (py a [-] py o) [*] (px b [-] px o).

(** The inner [while] loop of a chain.  A chain under construction is kept
    with its last accepted point first: the head is [hull[-1]], the next
    one [hull[-2]], and [hull.pop()] is the tail. *)
Fixpoint pop_while (hull : list Point) (p : Point) : list Point :=
  match hull with
  | last1 :: rest =>
      match rest with
      | last2 :: _ =>
          if Nat.ltb 3 (length hull) && (cross_z last2 last1 p [<] lit_0)
          then pop_while rest p
          else hull
      | [] => hull
      end
  | [] => hull
  end.

(** [for p in points: while ...: hull.pop(); hull.append(p)], started from
    the chain [hull]. *)
Definition chain_from (hull : list Point) (points : list Point) : list Point :=
  fold_left (fun hull p => p :: pop_while hull p) points hull.

(** The finished chain as the Python list. *)
Definition chain (points : list Point) : list Point :=
  rev (chain_from [] points).

Definition asset_dist_hull (dist_set : list Point) : Py (list Point) :=
  if Nat.ltb (length dist_set) 2 then
    let* _ := warn "Too few total data points for contour." in
    ret dist_set
  else
    let sort_p := dedup (sort_by px (sort_by py dist_set)) in
    if Nat.ltb (length sort_p) 2 then
      let* _ := warn "Too few unique data points for contour." in
      ret sort_p
    else
      let lower_hull := chain sort_p in
      let upper_hull := chain (rev sort_p) in
      ret (removelast lower_hull ++ removelast upper_hull).

End Hull.

End Model.

Arguments Ok {A T} v w.
Arguments Raise {A T} e w.
Arguments OutOfFuel {A T}.
Arguments Point {A} D.

Notation "'let*' x ':=' m 'in' k" := (bind m (fun x => k))
  (at level 10, x pattern, m at level 100, k at level 200).

(** ** The two arithmetics *)

(** Binary64, as CPython has it.  [math.pow(x, 2)] is taken to be the
    correctly rounded square; it raises [OverflowError] when a finite [x]
    has an infinite square.  [math.sqrt] raises [ValueError] below zero. *)
Definition Float64 : Arith := {|
  number := float;
  lit_0 := 0%float;
  lit_1 := 1%float;
  lit_2 := 2%float;
  rel_tol := 0x1.a36e2eb1c432dp-14%float;
  abs_tol := 0x1.ad7f29abcaf48p-24%float;
  fadd := PrimFloat.add;
  fsub := PrimFloat.sub;
  fmul := PrimFloat.mul;
  fdiv := PrimFloat.div;
  fabs := PrimFloat.abs;
  flt := PrimFloat.ltb;
  fis_zero := fun y => PrimFloat.eqb y 0%float;
  funordered := PrimFloat.is_nan;
  fpow2 := fun x =>
    let y := PrimFloat.mul x x in
    if PrimFloat.is_finite x && PrimFloat.is_infinity y then None else Some y;
  fsqrt := fun x =>
    if PrimFloat.ltb x 0%float then None else Some (PrimFloat.sqrt x)
|}.

Definition Rltb (x y : R) : bool := if Rlt_dec x y then true else false.

Definition Reqb (x y : R) : bool := if Req_dec_T x y then true else false.

(** The real numbers: nothing rounds, nothing overflows, every number is
    comparable; dividing by zero and the root of a negative number are
    still errors. *)
Definition Exact : Arith := {|
  number := R;
  lit_0 := 0%R;
  lit_1 := 1%R;
  lit_2 := 2%R;
  rel_tol := (1 / 10000)%R;
  abs_tol := (1 / 10000000)%R;
  fadd := Rplus;
  fsub := Rminus;
  fmul := Rmult;
  fdiv := Rdiv;
  fabs := Rabs;
  flt := Rltb;
  fis_zero := fun y => Reqb y 0%R;
  funordered := fun _ => false;
  fpow2 := fun x => Some (x * x)%R;
  fsqrt := fun x => if Rlt_dec x 0 then None else Some (sqrt x)
|}.

(** * ModernPortfolio.Datasource: time series *)

(** What [Datasource.py] needs of its numbers beyond [Arith]: an [int]
    taken as a [float] (the length of a list as a divisor), and
    [float('nan')]. *)
Class Numeric (A : Arith) : Type := {
  of_int : nat -> number;
  fnan : number
}.

Module TimeSeries.

Section Methods.
Context {A : Arith} {N : Numeric A}.

(** [self.history] is the list of data points; [length()] is its length. *)
Definition length (history : list number) : nat := Datatypes.length history.

Definition relative_returns (history : list number) : Py (list number) :=
  if Nat.ltb (Datatypes.length history) 2 then ret []
  else
    for_acc (range (Datatypes.length history - 1))
      (fun rel_returns i =>
         match history !! (i + 1), history !! i with
         | Some next, Some cur =>
             let* q := py_div (next [-] cur) cur in
             ret (rel_returns ++ [q])
         | _, _ => raise IndexError
         end)
      [].

Definition expected_return (history : list number) : Py number :=
  let* rel_returns := relative_returns history in
  if Nat.ltb 0 (Datatypes.length rel_returns) then
    let avg_ret :=
      fold_left (fun avg_ret curr_val => avg_ret [+] curr_val) rel_returns lit_0 in
    py_div avg_ret (of_int (Datatypes.length rel_returns))
  else ret fnan.

Definition volatility (history : list number) : Py number :=
  let* rel_returns := relative_returns history in
  if Nat.ltb 1 (Datatypes.length rel_returns) then
    let* exp_return := expected_return history in
    let* avg_vol :=
      for_acc rel_returns
        (fun avg_vol curr_val =>
           let* sq := py_pow2 (curr_val [-] exp_return) in
           ret (avg_vol [+] sq))
        lit_0 in
    let* q := py_div avg_vol (of_int (Datatypes.length rel_returns)) in
    py_sqrt q
  else ret fnan.

Definition correlation_with (history other_series : list number) : Py number :=
  if negb (Nat.eqb (length history) (length other_series))
     || Nat.ltb (length history) 2
  then ret lit_0
  else
    let* my_relret := relative_returns history in
    let* other_relret := relative_returns other_series in
    let series_len := Datatypes.length my_relret in
    let* avg_corr :=
      for_acc (range series_len)
        (fun avg_corr i =>
           match my_relret !! i, other_relret !! i with
           | Some x, Some y => ret (avg_corr [+] x [*] y)
           | _, _ => raise IndexError
           end)
        lit_0 in
    let* q := py_div avg_corr (of_int series_len) in
    let* e1 := expected_return history in
    let* e2 := expected_return other_series in
    ret (q [-] e1 [*] e2).

End Methods.

End TimeSeries.

(** Binary64: a length is below 2^53 and converts exactly. *)
Definition Float64_numeric : Numeric Float64 :=
  @Build_Numeric Float64
    (fun n => PrimFloat.of_uint63 (Uint63.of_Z (Z.of_nat n)))
    PrimFloat.nan.

(** The real numbers have no NaN; [undefined] stands for it, and the
    statements proved over [Exact] hold whatever it is. *)
Definition Exact_numeric (undefined : R) : Numeric Exact :=
  @Build_Numeric Exact INR undefined.

(** * The vocabulary of the statements *)

(** ** Worlds, effects and readings *)

Section Vocabulary.

Context {A : Arith}.

(** The world after more warnings, and after the holdings were replaced. *)
Definition add_warnings (w : World) (ws : list string) : World :=
  mkWorld (portfolio w) (warned w ++ ws) (heap w) (drawn w).

Definition with_assets (w : World) (holdings : list (Asset * number))
  (ws : list string) : World :=
  mkWorld (mkPortfolio holdings (correlations (portfolio w)))
          (warned w ++ ws) (heap w) (drawn w).

(** What [set_asset_distribution] makes of one holding, given the value
    [total] of the portfolio before the call and the target share [d]: a
    holding whose price is zero stays as it is. *)
Definition reallocate_holding (total : number) (h : Asset * number) (d : number)
  : Asset * number :=
  if fis_zero (price (fst h)) then h
  else (fst h, fdiv (total [*] d) (price (fst h))).

Definition reallocate (total : number) (holdings : list (Asset * number))
  (d : list number) : list (Asset * number) :=
  zip_with (reallocate_holding total) holdings d.

(** One warning for every holding whose price is zero. *)
Definition price_warnings (holdings : list (Asset * number)) : list string :=
  flat_map (fun h => if fis_zero (price (fst h))
                     then ["Asset price value problem."] else []) holdings.

(** The pair that a scan records for the distribution [d]: the portfolio
    is set to [d] and then read. *)
Definition evaluate_at (d : list number) : Py (number * number) :=
  let* _ := set_asset_distribution d in
  let* v := get_volatility in
  let* e := get_expected_return in
  ret (v, e).

Definition empty_world : World := mkWorld (mkPortfolio [] ∅) [] [] 0.

(** [m] never runs out of fuel: it returns or raises. *)
Definition terminates {T} (m : Py T) : Prop := forall w, m w <> OutOfFuel.

(** The share of holding [i] in the value of the portfolio, 0.0 when the
    portfolio is worth nothing. *)
Definition fraction (p : Portfolio) (i : nat) : number :=
  match assets p !! i with
  | Some (a, q) =>
      if fis_zero (get_value p) then lit_0
      else fdiv (price a [*] q) (get_value p)
  | None => lit_0
  end.

(** The volatility of the asset held at [i], and the correlation the dict
    gives for the assets held at [i] and [j]. *)
Definition vol_at (p : Portfolio) (i : nat) : number :=
  match get_asset p i with Some a => volatility a | None => lit_0 end.

Definition coupling (p : Portfolio) (i j : nat) : number :=
  match get_asset p i, get_asset p j with
  | Some a, Some b => get_asset_correlation p a b
  | _, _ => lit_0
  end.

(** [m] only reads the portfolio [p]: it returns [v] and changes nothing
    but the list of warnings; when [quiet], it does not warn either. *)
Definition reads_with (quiet : bool) {T} (m : Py T) (p : Portfolio) (v : T)
  : Prop :=
  forall w, portfolio w = p ->
  exists ws, (quiet = true -> ws = []) /\ m w = Ok v (add_warnings w ws).

(** The radicand as [get_volatility] accumulates it, when no square
    overflows. *)
Definition squares_step (p : Portfolio) (sq : number -> number)
  (total : number) (i : nat) : number :=
  total [+] sq (vol_at p i [*] fraction p i).

Definition coupling_step (p : Portfolio) (i : nat) (total : number) (j : nat)
  : number :=
  total [+] lit_2 [*] coupling p i j [*] fraction p i [*] fraction p j.

Definition accumulated (p : Portfolio) (sq : number -> number) : number :=
  fold_left
    (fun total i => fold_left (coupling_step p i) (range2 i (num_assets p)) total)
    (range (num_assets p))
    (fold_left (squares_step p sq) (range (num_assets p)) lit_0).

(** Nothing but the numbers of the holdings and the warnings differs. *)
Definition same_shape (w w' : World) : Prop :=
  num_assets (portfolio w') = num_assets (portfolio w)
  /\ drawn w' = drawn w /\ heap w' = heap w.

(** Whatever way [m] ends, it leaves the shape of the world alone. *)
Definition keeps_shape {T} (m : Py T) : Prop :=
  forall w,
    match m w with
    | Ok _ w' | Raise _ w' => same_shape w w'
    | OutOfFuel => True
    end.

(** ** The search for the minimum variance, trial by trial *)





End Vocabulary.

(** The comparisons of an arithmetic order its numbers, the unordered
    ones (NaN) apart. *)
Class ArithOrder (A : Arith) : Prop := {
  flt_irrefl : forall x : number, x [<] x = false;
  flt_trans : forall x y z : number,
    x [<] y = true -> y [<] z = true -> x [<] z = true;
  flt_cotrans : forall x y z : number,
    funordered y = false -> x [<] z = true ->
    x [<] y = true \/ y [<] z = true
}.

Section Minimum_terms.

Context {A : Arith}.

Implicit Types (t b : list number * number) (l ts : list (list number * number)).



End Minimum_terms.

(** ** Chains *)

Section Hull_terms.

Context {A : Arith} {D : Type}.

Implicit Types (hull points : list (Point D)) (p : Point D).

(** The rule as the claim words it: a pop once three points are accepted. *)
Fixpoint pop_while_from_three hull p : list (Point D) :=
  match hull with
  | last1 :: rest =>
      match rest with
      | last2 :: _ =>
          if Nat.leb 3 (length hull) && (cross_z last2 last1 p [<] lit_0)
          then pop_while_from_three rest p
          else hull
      | [] => hull
      end
  | [] => hull
  end.


End Hull_terms.

(** ** Exact arithmetic *)

Section Exact_terms.

Local Open Scope R_scope.

Definition Rsum (l : list R) : R := fold_right Rplus 0 l.

(** No entry of the dict pairs an asset with itself. *)
Definition no_self_coupling {A : Arith} (p : Portfolio) : Prop :=
  forall k, correlations p !! (k, k) = None.

(** Started in a world where no asset is coupled with itself, [m] ends in
    such a world, whether it returns or raises. *)
Definition stays_uncoupled {A : Arith} {T} (m : Py T) (w : World) : Prop :=
  no_self_coupling (portfolio w) ->
  match m w with
  | Ok _ w' | Raise _ w' => no_self_coupling (portfolio w')
  | OutOfFuel => True
  end.

(** The radicand of the documentation:
    sum_i (volatility_i f_i)^2 + 2 sum_(i<j) coupling_ij f_i f_j. *)
Definition radicand (p : @Portfolio Exact) : R :=
  Rsum (map (fun i => (vol_at p i * fraction p i) ^ 2) (range (num_assets p)))
  + 2 * Rsum (map (fun i =>
                Rsum (map (fun j => coupling p i j * fraction p i * fraction p j)
                          (range2 (S i) (num_assets p))))
             (range (num_assets p))).

(** The same with the second sum over [i <= j]. *)
Definition radicand_with_diagonal (p : @Portfolio Exact) : R :=
  Rsum (map (fun i => (vol_at p i * fraction p i) ^ 2) (range (num_assets p)))
  + 2 * Rsum (map (fun i =>
                Rsum (map (fun j => coupling p i j * fraction p i * fraction p j)
                          (range2 i (num_assets p))))
             (range (num_assets p))).

Definition holding_value (h : @Asset Exact * R) : R := price (fst h) * snd h.

Definition priced (holdings : list (@Asset Exact * R)) : Prop :=
  Forall (fun h => price (A:=Exact) (fst h) <> 0) holdings.

End Exact_terms.

Section Exact_hull_terms.

Context {D : Type}.

Local Open Scope R_scope.

Implicit Types (a b m p q x y : Point (A:=Exact) D) (l s : list (Point (A:=Exact) D)).









End Exact_hull_terms.

(** ** The order of binary64, on its specification *)

(** The order of two finite numbers of the same sign, on exponent and
    mantissa. *)
Definition lex_lt (e1 : Z) (m1 : positive) (e2 : Z) (m2 : positive) : Prop :=
  (e1 < e2)%Z \/ (e1 = e2 /\ (m1 < m2)%positive).

(** [SFltb] as a proposition. *)
Definition SFlt (x y : spec_float) : Prop :=
  match x, y with
  | S754_nan, _ | _, S754_nan => False
  | S754_infinity s1, S754_infinity s2 => s1 = true /\ s2 = false
  | S754_infinity s, _ => s = true
  | _, S754_infinity s => s = false
  | S754_finite s _ _, S754_zero _ => s = true
  | S754_zero _, S754_finite s _ _ => s = false
  | S754_zero _, S754_zero _ => False
  | S754_finite s1 m1 e1, S754_finite s2 m2 e2 =>
      match s1, s2 with
      | true, false => True
      | false, true => False
      | false, false => lex_lt e1 m1 e2 m2
      | true, true => lex_lt e2 m2 e1 m1
      end
  end.

(** ** Concrete portfolios and samples in binary64 *)

(** [res=0.01], the default step of the scans. *)
Definition default_step : float := 0x1.47ae147ae147bp-7%float.

(** Two data sources with the figures that [test_timeseries] checks for
    the series 22.9, 24.8, 40.3, to the digits written there: volatility
    0.27, expected return 0.35 and covariance 0.0734493. *)
Definition scenario_source (nm : string) : @DataSource Float64 :=
  mkDataSource (A:=Float64) nm 0x1.147ae147ae148p-2%float 0x1.6666666666666p-2%float.

Definition scenario_cov (a b : @DataSource Float64) : float :=
  0x1.2cd92c56a01fcp-4%float.

(** Two unrelated assets held in equal numbers; every figure is a binary
    fraction, so that nothing below is rounded. *)
Definition asset_A : @Asset Float64 :=
  mkAsset (A:=Float64) 0 1%float "A" 0.25%float 0.5%float.

Definition asset_B : @Asset Float64 :=
  mkAsset (A:=Float64) 1 1%float "B" 0.125%float 0.75%float.

Definition mixed_world : @World Float64 :=
  mkWorld (mkPortfolio (A:=Float64) [(asset_A, 0.5%float); (asset_B, 0.5%float)] ∅) [] [] 0.

(** Sample points without a payload. *)
Definition pt (x y : float) : Point (A:=Float64) unit := (x, y, tt).

(** One holding: one unit of asset A. *)
Definition single_world : @World Float64 :=
  mkWorld (mkPortfolio (A:=Float64) [(asset_A, 1%float)] ∅) [] [] 0.

(** Six numbers for the random source: three draws of two. *)
Definition sample_draws (k : nat) : float :=
  nth k [0.5; 0.5; 0.25; 0.75; 0.75; 0.25]%float 0.5%float.


(** ** A concrete portfolio in exact arithmetic *)

Definition exact_asset (k : nat) (p v r : R) : @Asset Exact :=
  mkAsset (A:=Exact) k p "" v r.

(** Three units at price 2 and one unit at price 4, coupled by 1/100. *)
Definition exact_world : @World Exact :=
  mkWorld
    (set_asset_correlation (exact_asset 0 2 (1 / 2) (1 / 10))
       (exact_asset 1 4 (1 / 5) (1 / 20)) (1 / 100)%R
       (mkPortfolio (A:=Exact)
          [(exact_asset 0 2 (1 / 2) (1 / 10), 3%R);
           (exact_asset 1 4 (1 / 5) (1 / 20), 1%R)] ∅))
    [] [] 0.

(** ** Further vocabulary *)

Section Vocabulary_more.
Context {A : Arith}.

(** Whether [asset] is one of the assets held. *)
Definition held (asset : Asset) (p : Portfolio) : Prop :=
  exists h, In h (assets p) /\ ident (fst h) = ident asset.

(** The expected return of the asset held at [i]. *)
Definition return_at (p : Portfolio) (i : nat) : number :=
  match get_asset p i with Some a => expected_return a | None => lit_0 end.

(** The expected return as [get_expected_return] accumulates it. *)
Definition return_step (p : Portfolio) (avg_ret : number) (i : nat) : number :=
  avg_ret [+] return_at p i [*] fraction p i.

(** The asset the constructor creates for the [k]-th data source. *)
Definition asset_of (k : nat) (d : DataSource) : Asset :=
  mkAsset k lit_1 (ds_name d) (ds_volatility d) (ds_expected_return d).

(** [1.0 + 1.0 + ... + 1.0], [n] terms added from the left. *)
Definition unit_sum (n : nat) : number :=
  fold_left fadd (repeat lit_1 (n - 1)) lit_1.

(** What one pass [(i, j)] of the constructor's double loop does to the
    dict. *)
Definition couple (covariance_with : DataSource -> DataSource -> number)
  (sources : list DataSource) (i j : nat) (m : gmap (nat * nat) number)
  : gmap (nat * nat) number :=
  if Nat.eqb i j then m
  else
    match sources !! i, sources !! j with
    | Some di, Some dj =>
        <[(j, i) := covariance_with di dj]> (<[(i, j) := covariance_with di dj]> m)
    | _, _ => m
    end.

(** The dict after the rows [0 .. k-1] of the double loop. *)
Definition coupled (covariance_with : DataSource -> DataSource -> number)
  (sources : list DataSource) (k : nat) : gmap (nat * nat) number :=
  fold_left
    (fun m i =>
       fold_left (fun m j => couple covariance_with sources i j m)
                 (range (length sources)) m)
    (range k) ∅.

(** The world with other holdings, and with another dict. *)
Definition with_holdings (w : World) (hs : list (Asset * number)) : World :=
  mkWorld (mkPortfolio hs (correlations (portfolio w))) (warned w) (heap w) (drawn w).

Definition with_couplings (w : World) (m : gmap (nat * nat) number) : World :=
  mkWorld (mkPortfolio (assets (portfolio w)) m) (warned w) (heap w) (drawn w).

(** The relative returns of a series, and whether every divisor (every
    data point but the last) is non-zero. *)
Definition returns_of (history : list number) : list number :=
  zip_with (fun cur next => fdiv (next [-] cur) cur) history (tail history).

Definition divisible (history : list number) : bool :=
  forallb (fun x => negb (fis_zero x)) (removelast history).

End Vocabulary_more.

Section Exact_terms_more.
Local Open Scope R_scope.

(** Entry [i] of a distribution. *)
Definition share (d : list R) (i : nat) : R := nth i d 0.

(** Variance and expected return of the distribution [d] over the assets
    of [p], as the documentation defines them. *)
Definition markowitz_variance (p : @Portfolio Exact) (d : list R) : R :=
  Rsum (map (fun i => (vol_at p i * share d i) ^ 2) (range (num_assets p)))
  + 2 * Rsum (map (fun i =>
                Rsum (map (fun j => coupling p i j * share d i * share d j)
                          (range2 (S i) (num_assets p))))
             (range (num_assets p))).

Definition markowitz_return (p : @Portfolio Exact) (d : list R) : R :=
  Rsum (map (fun i => return_at p i * share d i) (range (num_assets p))).

(** The portfolio with its holdings set to the distribution [d]. *)
Definition reallocated (p : @Portfolio Exact) (d : list R) : @Portfolio Exact :=
  mkPortfolio (reallocate (A:=Exact) (get_value p) (assets p) d) (correlations p).

End Exact_terms_more.

(** The two series of closing prices of the repository's test, in
    binary64: 22.9, 24.8, 40.3 and 101.3, 129.9, 104.5. *)
Definition series_1 : list float :=
  [0x1.6e66666666666p+4; 0x1.8cccccccccccdp+4; 0x1.4266666666666p+5]%float.

Definition series_2 : list float :=
  [0x1.9533333333333p+6; 0x1.03ccccccccccdp+7; 0x1.a2p+6]%float.

(** ** What the readers compute *)

Section Outcome_terms.
Context {A : Arith}.

(** The first loop of [get_volatility]: the squares, added from the left;
    [None] when a [math.pow] overflows. *)
Definition add_square (p : Portfolio) (total : option number) (i : nat)
  : option number :=
  match total with
  | Some t =>
      match fpow2 (vol_at p i [*] fraction p i) with
      | Some sq => Some (t [+] sq)
      | None => None
      end
  | None => None
  end.

Definition squares_sum (p : Portfolio) : option number :=
  fold_left (add_square p) (range (num_assets p)) (Some lit_0).

(** Its second loop: the coupling terms for [i <= j], added to [total]
    row by row. *)
Definition couplings_sum (p : Portfolio) (total : number) : number :=
  fold_left
    (fun total i => fold_left (coupling_step p i) (range2 i (num_assets p)) total)
    (range (num_assets p)) total.

(** The volatility of the portfolio [p], or the exception that
    [get_volatility] leaves with. *)
Definition volatility_of (p : Portfolio) : exn + number :=
  if Nat.eqb (num_assets p) 0 then inr lit_0
  else
    match squares_sum p with
    | None => inl OverflowError
    | Some t =>
        match fsqrt (couplings_sum p t) with
        | Some v => inr v
        | None => inl ValueError
        end
    end.

Definition expected_return_of (p : Portfolio) : number :=
  fold_left (return_step p) (range (num_assets p)) lit_0.

(** The warnings of a reading: one "Portfolio value problem." for every
    share that is read while the portfolio is worth nothing, none
    otherwise. *)
Definition value_warnings (p : Portfolio) (ws : list string) : Prop :=
  Forall (fun s => s = "Portfolio value problem."
                   /\ fis_zero (get_value p) = true) ws.

(** [m] reads the portfolio [p]: it returns [v] and only adds warnings
    about the value of the portfolio. *)
Definition reads_value {T} (m : Py T) (p : Portfolio) (v : T) : Prop :=
  forall w, portfolio w = p ->
  exists ws, value_warnings p ws /\ m w = Ok v (add_warnings w ws).

(** [reduce(lambda x, y: x + y, vec)] on a vector that is not empty. *)
Definition total_of (vec : list number) : number :=
  fold_left fadd (tail vec) (hd lit_0 vec).

(** The portfolio after [set_asset_distribution(d)], for a target [d] that
    is not empty: the holdings are reallocated when [d] has the length of
    the portfolio and passes the check of its sum, and are left alone
    otherwise. *)
Definition settled (p : Portfolio) (d : list number) : Portfolio :=
  if Nat.eqb (length d) (num_assets p) && float_eq (total_of d) lit_1
  then mkPortfolio (reallocate (get_value p) (assets p) d) (correlations p)
  else p.

(** The warnings of that call. *)
Definition settle_warnings (p : Portfolio) (d : list number) : list string :=
  if negb (Nat.eqb (length d) (num_assets p))
  then ["Problem with number of assets in portfolio."]
  else if float_eq (total_of d) lit_1 then price_warnings (assets p)
  else ["Problem with input vector normalization."].

(** [vec_norm(draws)] where it returns. *)
Definition normalized (draws : list number) : list number :=
  map (fun x => fdiv x (total_of draws) [*] lit_1) draws.

(** The [k]-th vector of [n] numbers that a run started in [w] takes from
    the random source. *)
Definition draws_of (rnd : nat -> number) (w : World) (n k : nat) : list number :=
  map rnd (seq (drawn w + k * n) n).

(** The world with another portfolio and more warnings. *)
Definition moved (w : World) (p : Portfolio) (ws : list string) : World :=
  mkWorld p (warned w ++ ws) (heap w) (drawn w).

End Outcome_terms.

Section Reading_terms.
Context {A : Arith}.

(** What a scan reads: the portfolio is set to the distributions [ds] one
    after the other, each time from the holdings the one before left, and
    its volatility and expected return are read after each; the first
    volatility that raises ends it. *)
Fixpoint readings (p : Portfolio) (ds : list (list number))
  : exn + list (number * number) :=
  match ds with
  | [] => inr []
  | d :: ds' =>
      match volatility_of (settled p d) with
      | inl e => inl e
      | inr v =>
          match readings (settled p d) ds' with
          | inl e => inl e
          | inr rs => inr ((v, expected_return_of (settled p d)) :: rs)
          end
      end
  end.

(** The list [cdist] of [scan_two_assets] after its two writes for the
    value [x] of the stepper: [x] at [i], then [1.0 - x] at [j], 0.0
    elsewhere. *)
Definition scan_dist (n i j : nat) (x : number) : list number :=
  <[j := lit_1 [-] x]> (<[i := x]> (repeat lit_0 n)).

(** A sample made of a reading and the list it refers to. *)
Definition sample_of (c : ref) (r : number * number) : Sample :=
  (fst r, snd r, c).

End Reading_terms.

Section Search_terms.
Context {A : Arith}.

(** The allocations of a Monte-Carlo run of [count] trials started in
    [w]: the vectors it draws, each normalised. *)
Definition allocations (rnd : nat -> number) (w : World) (count : nat)
  : list (list number) :=
  map (fun k => normalized (draws_of rnd w (num_assets (portfolio w)) k))
      (seq 0 count).


End Search_terms.

Section Pair_terms.
Context {A : Arith}.

(** The pairs [i < j] of [range(n)] in the order of the two loops of
    [scan_asset_pairs]. *)
Definition pairs_from (n : nat) (rows : list nat) : list (nat * nat) :=
  flat_map (fun i => map (pair i) (range2 (i + 1) n)) rows.

Definition pairs (n : nat) : list (nat * nat) := pairs_from n (range (n - 1)).

(** The samples of one scan of two assets after the other, for the values
    [xs] of the stepper: the scan of each pair starts from the holdings
    that the scan before left, and its samples refer to the list it
    allocates, the next free one counted from [c]. *)
Fixpoint pair_readings (n : nat) (xs : list number) (p : Portfolio) (c : ref)
  (ps : list (nat * nat)) : exn + list Sample :=
  match ps with
  | [] => inr []
  | (i, j) :: ps' =>
      match readings p (map (scan_dist n i j) xs) with
      | inl e => inl e
      | inr rs =>
          match pair_readings n xs
                  (fold_left settled (map (scan_dist n i j) xs) p) (S c) ps' with
          | inl e => inl e
          | inr rest => inr (map (sample_of c) rs ++ rest)
          end
      end
  end.

End Pair_terms.

Section Turn_terms.
Context {A : Arith} {D : Type}.



End Turn_terms.

(** Four points on a rising curve and a fifth below it: the fifth makes a
    clockwise turn with the last two. *)
Definition spike : list (Point (A:=Float64) unit) :=
  [pt 0 0; pt 1 0; pt 2 1; pt 3 3]%float.

Section Outside_terms.
Context {D : Type}.
Local Open Scope R_scope.




End Outside_terms.

(** ** More concrete portfolios in binary64 *)

(** A binary64 number other than a negative zero, an infinity below zero
    or a number below zero: what a square is. *)
Definition SFnot_negative (x : spec_float) : Prop :=
  match x with
  | S754_zero s | S754_infinity s | S754_finite s _ _ => s = false
  | S754_nan => True
  end.

(** One holding of binary64 volatility [v]: one unit of an asset of price
    1.0. *)
Definition lone_world (v : float) : @World Float64 :=
  mkWorld (mkPortfolio (A:=Float64)
             [(mkAsset (A:=Float64) 0 1%float "A" v 0.5%float, 1%float)] ∅)
          [] [] 0.


(** A statistic of a series as the model of [TimeSeries] computes it in
    binary64. *)
Definition statistic (m : @Py Float64 float) : float :=
  match m empty_world with
  | Ok v _ => v
  | _ => nan
  end.

(** A data source with the volatility and the expected return of a
    series, and the covariance of two series as [correlation_with]
    computes it. *)
Definition series_source (nm : string) (history : list float) : @DataSource Float64 :=
  mkDataSource (A:=Float64) nm
    (statistic (TimeSeries.volatility (N:=Float64_numeric) history))
    (statistic (TimeSeries.expected_return (N:=Float64_numeric) history)).

Definition series_cov (history other : list float) : float :=
  statistic (TimeSeries.correlation_with (N:=Float64_numeric) history other).

Definition built (cov : float) (sources : list (@DataSource Float64)) : @World Float64 :=
  match Portfolio_init (A:=Float64) (fun _ _ => cov) (Some sources) empty_world with
  | Ok _ w => w
  | _ => empty_world
  end.

(** Two providers with the statistics of the series 22.9, 24.8, 40.3. *)
Definition provider_world : @World Float64 :=
  built (series_cov series_1 series_1)
    [series_source "Asset 1" series_1; series_source "Asset 2" series_1].

(** Two providers with the statistics of the two series of
    [test_analysis], 22.9, 24.8, 40.3 and 101.3, 129.9, 104.5, as the
    model of [TimeSeries] computes them. *)
Definition test_world : @World Float64 :=
  built (series_cov series_1 series_2)
    [series_source "Asset 1" series_1; series_source "Asset 2" series_2].

(** Two assets of volatility 0.27 whose covariance is given as -1.0. *)
Definition opposed_world : @World Float64 :=
  built (-1)%float [scenario_source "Asset 1"; scenario_source "Asset 2"].


(** * Lemmas *)

(** ** Reasoning about [Py] computations *)

Section Monad_facts.

Context {A : Arith}.

Lemma terminates_ret {T} (v : T) : terminates (ret v).
Proof. intros w; discriminate. Qed.

Lemma terminates_raise {T} (e : exn) : terminates (@raise A T e).
Proof. intros w; discriminate. Qed.

Lemma terminates_warn (msg : string) : terminates (warn msg).
Proof. intros w; discriminate. Qed.

Lemma terminates_bind {T U} (m : Py T) (k : T -> Py U) :
  terminates m -> (forall v, terminates (k v)) -> terminates (bind m k).
Proof.
  intros Hm Hk w. unfold bind. specialize (Hm w).
  destruct (m w) as [v w'| |]; [apply Hk | discriminate | congruence].
Qed.

Lemma terminates_try {T} (m : Py T) (e : exn) (h : Py T) :
  terminates m -> terminates h -> terminates (try_except m e h).
Proof.
  intros Hm Hh w. unfold try_except. specialize (Hm w).
  destruct (m w) as [v w'|e' w'|]; [discriminate | | congruence].
  destruct (decide (e' = e)); [apply Hh | discriminate].
Qed.

Lemma terminates_for_each {X} (xs : list X) (body : X -> Py unit) :
  (forall x, terminates (body x)) -> terminates (for_each xs body).
Proof.
  intros Hb. induction xs as [|x xs IH]; simpl.
  - apply terminates_ret.
  - apply terminates_bind; [apply Hb | intros _; exact IH].
Qed.

Lemma terminates_for_acc {X S} (xs : list X) (body : S -> X -> Py S) :
  (forall s x, terminates (body s x)) -> forall s, terminates (for_acc xs body s).
Proof.
  intros Hb. induction xs as [|x xs IH]; intros s; simpl.
  - apply terminates_ret.
  - apply terminates_bind; [apply Hb | intros s'; apply IH].
Qed.

Lemma terminates_get_portfolio : terminates get_portfolio.
Proof. intros w; discriminate. Qed.

Lemma terminates_set_portfolio (p : Portfolio) : terminates (set_portfolio p).
Proof. intros w; discriminate. Qed.

Lemma terminates_not_none {T} (o : option T) : terminates (not_none o).
Proof. destruct o; [apply terminates_ret | apply terminates_raise]. Qed.

Lemma terminates_py_div (x y : number) : terminates (py_div x y).
Proof.
  unfold py_div. destruct (fis_zero y); [apply terminates_raise | apply terminates_ret].
Qed.

Lemma terminates_py_pow2 (x : number) : terminates (py_pow2 x).
Proof.
  unfold py_pow2. destruct (fpow2 x); [apply terminates_ret | apply terminates_raise].
Qed.

Lemma terminates_py_sqrt (x : number) : terminates (py_sqrt x).
Proof.
  unfold py_sqrt. destruct (fsqrt x); [apply terminates_ret | apply terminates_raise].
Qed.

Lemma terminates_vec_sum (vec : list number) : terminates (vec_sum vec).
Proof. destruct vec; [apply terminates_raise | apply terminates_ret]. Qed.

Lemma terminates_alloc (l : list number) : terminates (alloc l).
Proof. intros w; discriminate. Qed.

Lemma terminates_deref (r : ref) : terminates (deref r).
Proof. intros w; discriminate. Qed.

Lemma terminates_setitem (r : ref) (i : Z) (x : number) : terminates (setitem r i x).
Proof. intros w. unfold setitem. destruct (py_index _ _); discriminate. Qed.

Lemma terminates_random_vector (rnd : nat -> number) (n : nat) :
  terminates (random_vector rnd n).
Proof. intros w; discriminate. Qed.

Ltac terminates_step :=
  first
    [ apply terminates_ret | apply terminates_raise | apply terminates_warn
    | apply terminates_get_portfolio | apply terminates_set_portfolio
    | apply terminates_not_none | apply terminates_py_div
    | apply terminates_py_pow2 | apply terminates_py_sqrt
    | apply terminates_vec_sum | apply terminates_alloc
    | apply terminates_deref | apply terminates_setitem
    | apply terminates_random_vector
    | apply terminates_try
    | apply terminates_for_each; intros
    | apply terminates_for_acc; intros
    | apply terminates_bind; [ | intros ]
    | match goal with
      | |- terminates (if ?b then _ else _) => destruct b
      | |- terminates (match ?o with Some _ => _ | None => _ end) => destruct o
      | |- terminates (let '(_, _) := ?x in _) => destruct x
      end ].

Ltac terminates_auto := repeat terminates_step.

Lemma terminates_get_asset_fractional_value (i : nat) :
  terminates (get_asset_fractional_value i).
Proof. unfold get_asset_fractional_value, get_asset_value. terminates_auto. Qed.

Lemma terminates_set_asset_number_with_value (v : number) (i : nat) :
  terminates (set_asset_number_with_value v i).
Proof. unfold set_asset_number_with_value. terminates_auto. Qed.

Lemma terminates_set_asset_distribution (d : list number) :
  terminates (set_asset_distribution d).
Proof.
  unfold set_asset_distribution. terminates_auto.
Qed.

Lemma terminates_get_volatility : terminates get_volatility.
Proof.
  unfold get_volatility. terminates_auto.
Qed.

Lemma terminates_get_expected_return : terminates get_expected_return.
Proof.
  unfold get_expected_return. terminates_auto.
Qed.

End Monad_facts.

(** ** Facts about the portfolio *)

Section Portfolio_facts.

Context {A : Arith}.

Lemma add_warnings_nil (w : World) : add_warnings w [] = w.
Proof. destruct w. unfold add_warnings. simpl. rewrite app_nil_r. reflexivity. Qed.

Lemma set_asset_number_with_value_spec (v : number) (i : nat) (w : World)
  (h : Asset * number) :
  assets (portfolio w) !! i = Some h ->
  set_asset_number_with_value v i w
  = Ok tt (if fis_zero (price (fst h))
           then add_warnings w ["Asset price value problem."]
           else with_assets w (<[i := (fst h, fdiv v (price (fst h)))]>
                                 (assets (portfolio w))) []).
Proof.
  intros Hi. unfold set_asset_number_with_value, try_except, bind, get_portfolio.
  assert (i < num_assets (portfolio w)) as Hlt by (eapply lookup_lt_Some; eauto).
  apply Nat.ltb_lt in Hlt. rewrite Hlt.
  unfold get_asset. rewrite Hi. simpl. unfold py_div.
  destruct (fis_zero (price (fst h))); simpl.
  - reflexivity.
  - unfold set_portfolio, set_asset_number, with_assets. rewrite Hi.
    destruct h as [a q]. simpl. rewrite app_nil_r. reflexivity.
Qed.

Lemma reallocate_loop (total : number) (rest : list (Asset * number)) :
  forall (done : list (Asset * number)) (dd dr : list number) (w : World),
  assets (portfolio w) = done ++ rest ->
  length dd = length done ->
  length dr = length rest ->
  for_each (seq (length done) (length rest))
    (fun i =>
       match (dd ++ dr) !! i with
       | Some d => set_asset_number_with_value (total [*] d) i
       | None => raise IndexError
       end) w
  = Ok tt (with_assets w (done ++ reallocate total rest dr) (price_warnings rest)).
Proof.
  induction rest as [|h rest IH]; intros done dd dr w Hw Hdd Hdr.
  - simpl. unfold ret, with_assets. destruct dr; [|discriminate].
    simpl. rewrite app_nil_r in *. rewrite <- Hw. rewrite app_nil_r.
    destruct w as [[? ?] ? ? ?]. reflexivity.
  - destruct dr as [|d dr]; [discriminate|]. simpl in Hdr.
    simpl. unfold bind.
    rewrite lookup_app_r by lia. rewrite Hdd, Nat.sub_diag. simpl.
    rewrite (set_asset_number_with_value_spec _ _ _ h)
      by (rewrite Hw; apply list_lookup_middle; reflexivity).
    set (w1 := if fis_zero (price (fst h)) then _ else _).
    specialize (IH (done ++ [reallocate_holding total h d]) (dd ++ [d]) dr w1).
    rewrite !length_app in IH. simpl in IH.
    rewrite !Nat.add_1_r in IH. rewrite <- (app_assoc dd) in IH. simpl in IH.
    rewrite IH.
    + f_equal. unfold with_assets, w1, reallocate_holding.
      destruct (fis_zero (price (fst h))); simpl;
        rewrite <- !app_assoc; simpl; reflexivity.
    + unfold w1, reallocate_holding.
      destruct (fis_zero (price (fst h))); simpl.
      * rewrite Hw, <- app_assoc. reflexivity.
      * rewrite Hw. rewrite insert_app_r_alt by lia.
        rewrite Nat.sub_diag. simpl. rewrite <- app_assoc. reflexivity.
    + lia.
    + lia.
Qed.

Lemma set_asset_distribution_accepts (d : list number) (s : number) (w : World) :
  length d = num_assets (portfolio w) ->
  vec_sum d w = Ok s w ->
  float_eq s lit_1 = true ->
  set_asset_distribution d w
  = Ok tt (with_assets w
             (reallocate (get_value (portfolio w)) (assets (portfolio w)) d)
             (price_warnings (assets (portfolio w)))).
Proof.
  intros Hlen Hs Heq. unfold set_asset_distribution. unfold bind at 1.
  unfold get_portfolio. rewrite Hlen, Nat.eqb_refl. simpl.
  unfold bind at 1. rewrite Hs, Heq. simpl.
  unfold range.
  pose proof (reallocate_loop (get_value (portfolio w)) (assets (portfolio w))
                [] [] d w eq_refl eq_refl Hlen) as H.
  simpl in H. unfold num_assets. exact H.
Qed.

Lemma set_asset_distribution_wrong_length (d : list number) (w : World) :
  length d <> num_assets (portfolio w) ->
  set_asset_distribution d w
  = Ok tt (add_warnings w ["Problem with number of assets in portfolio."]).
Proof.
  intros Hlen. unfold set_asset_distribution, bind, get_portfolio.
  apply Nat.eqb_neq in Hlen. rewrite Hlen. reflexivity.
Qed.

Lemma set_asset_distribution_not_normalized (d : list number) (s : number) (w : World) :
  length d = num_assets (portfolio w) ->
  vec_sum d w = Ok s w ->
  float_eq s lit_1 = false ->
  set_asset_distribution d w
  = Ok tt (add_warnings w ["Problem with input vector normalization."]).
Proof.
  intros Hlen Hs Heq. unfold set_asset_distribution. unfold bind at 1.
  unfold get_portfolio. rewrite Hlen, Nat.eqb_refl. simpl.
  unfold bind at 1. rewrite Hs, Heq. reflexivity.
Qed.

End Portfolio_facts.

(** ** Facts about the scans *)

Section Scan_facts.

Context {A : Arith}.

Lemma frange_loop_more_fuel (f : nat) :
  forall a b c res r, frange_loop f a b c res = Some r ->
  forall f', f <= f' -> frange_loop f' a b c res = Some r.
Proof.
  induction f as [|f IH]; intros a b c res r H f' Hle; simpl in H; [discriminate|].
  destruct f' as [|f']; [lia|]. simpl.
  destruct (_ && _); [exact H|].
  destruct (_ && _); [exact H|].
  apply IH with (f' := f') in H; [exact H | lia].
Qed.

Lemma for_acc_length {X T} (xs : list X) (body : list T -> X -> Py (list T)) :
  (forall s x w r w', body s x w = Ok r w' -> length r = S (length s)) ->
  forall s w r w', for_acc xs body s w = Ok r w' ->
  length r = length s + length xs.
Proof.
  intros Hb. induction xs as [|x xs IH]; intros s w r w' H; simpl in H.
  - injection H as <- _. simpl. lia.
  - unfold bind in H. destruct (body s x w) as [s1 w1| |] eqn:E; try discriminate.
    apply IH in H. apply Hb in E. simpl. lia.
Qed.

Lemma scan_two_assets_zero_step (fuel : nat) (i j : Z) (res : number) (w : World) :
  float_eq res lit_0 = true ->
  scan_two_assets fuel i j res w
  = Ok [] (mkWorld (portfolio w) (warned w ++ ["Step size zero."])
             (heap w ++ [repeat lit_0 (num_assets (portfolio w))]) (drawn w)).
Proof.
  intros H. unfold scan_two_assets, bind, get_portfolio, alloc, frange. simpl.
  rewrite H. reflexivity.
Qed.

Lemma scan_asset_pairs_two (fuel : nat) (res : number) (w : World) :
  num_assets (portfolio w) = 2 ->
  scan_asset_pairs fuel res w
  = match scan_two_assets fuel 0 1 res w with
    | Ok r w' => Ok r w'
    | Raise e w' => Raise e w'
    | OutOfFuel => OutOfFuel
    end.
Proof.
  intros H. unfold scan_asset_pairs. unfold bind at 1. unfold get_portfolio.
  rewrite H. simpl. unfold bind.
  change (Z.of_nat 0) with 0%Z. change (Z.of_nat 1) with 1%Z.
  destruct (scan_two_assets fuel 0 1 res w); reflexivity.
Qed.

Lemma terminates_scan_body (cdist : ref) (i j : Z)
  (result : list Sample) (x : number) :
  terminates
    (let* _ := setitem cdist i x in
     let* _ := setitem cdist j (lit_1 [-] x)%ar in
     let* d := deref cdist in
     let* _ := set_asset_distribution d in
     let* v := get_volatility in
     let* e := get_expected_return in
     ret (result ++ [(v, e, cdist)])).
Proof.
  repeat first
    [ apply terminates_ret | apply terminates_setitem | apply terminates_deref
    | apply terminates_set_asset_distribution | apply terminates_get_volatility
    | apply terminates_get_expected_return
    | apply terminates_bind; [ | intros ] ].
Qed.

Lemma scan_two_assets_fuel (fuel : nat) (i j : Z) (res : number) (w : World) :
  scan_two_assets fuel i j res w = OutOfFuel ->
  exists w1, frange fuel lit_0 lit_1 res w1 = OutOfFuel.
Proof.
  unfold scan_two_assets. unfold bind at 1. unfold get_portfolio.
  unfold bind at 1. unfold alloc at 1.
  set (w1 := mkWorld _ _ _ _). unfold bind at 1.
  destruct (frange fuel lit_0 lit_1 res w1) as [xs w2| |] eqn:E; try discriminate.
  - intros H. exfalso. revert H. apply terminates_for_acc.
    intros s x. apply terminates_scan_body.
  - intros _. exists w1. exact E.
Qed.

End Scan_facts.

(** ** Reading the portfolio *)

Section Reads.
Context {A : Arith}.

Lemma add_warnings_app (w : World) (ws ws' : list string) :
  add_warnings (add_warnings w ws) ws' = add_warnings w (ws ++ ws').
Proof. unfold add_warnings. simpl. rewrite app_assoc. reflexivity. Qed.

Lemma reads_ret (quiet : bool) {T} (v : T) (p : Portfolio) :
  reads_with quiet (ret v) p v.
Proof.
  intros w _. exists []. split; [reflexivity|].
  rewrite add_warnings_nil. reflexivity.
Qed.

Lemma reads_bind (quiet : bool) {T U} (m : Py T) (k : T -> Py U)
  (p : Portfolio) (v : T) (u : U) :
  reads_with quiet m p v -> reads_with quiet (k v) p u ->
  reads_with quiet (bind m k) p u.
Proof.
  intros Hm Hk w Hw. destruct (Hm w Hw) as (ws & Hq & E). unfold bind. rewrite E.
  destruct (Hk (add_warnings w ws) Hw) as (ws' & Hq' & E'). rewrite E'.
  exists (ws ++ ws'). split.
  - intros Q. rewrite (Hq Q), (Hq' Q). reflexivity.
  - rewrite add_warnings_app. reflexivity.
Qed.

Lemma reads_get_portfolio (quiet : bool) (p : Portfolio) :
  reads_with quiet get_portfolio p p.
Proof.
  intros w Hw. exists []. split; [reflexivity|].
  rewrite add_warnings_nil. unfold get_portfolio. rewrite Hw. reflexivity.
Qed.

Lemma reads_for_acc (quiet : bool) {X S} (xs : list X) (body : S -> X -> Py S)
  (g : S -> X -> S) (p : Portfolio) :
  (forall s x, In x xs -> reads_with quiet (body s x) p (g s x)) ->
  forall s, reads_with quiet (for_acc xs body s) p (fold_left g xs s).
Proof.
  induction xs as [|x xs IH]; intros Hb s; simpl.
  - apply reads_ret.
  - eapply reads_bind; [apply Hb; left; reflexivity|].
    apply IH. intros s' x' Hx'. apply Hb. right. exact Hx'.
Qed.

Lemma reads_fraction (quiet : bool) (p : Portfolio) (i : nat) :
  (quiet = true -> fis_zero (get_value p) = false) ->
  i < num_assets p ->
  reads_with quiet (get_asset_fractional_value i) p (fraction p i).
Proof.
  intros Hq Hi w Hw. subst p. apply lookup_lt_is_Some_2 in Hi as [[a q] Hl].
  unfold get_asset_fractional_value, try_except, get_asset_value, bind,
    get_portfolio, get_asset, get_asset_number, fraction, py_div.
  rewrite Hl. simpl.
  destruct (fis_zero (get_value (portfolio w))).
  - simpl. eexists. split; [|reflexivity].
    intros Q. specialize (Hq Q). discriminate.
  - exists []. split; [reflexivity|]. rewrite add_warnings_nil. reflexivity.
Qed.

Lemma reads_asset (quiet : bool) (p : Portfolio) (i : nat) (a : Asset) :
  get_asset p i = Some a -> reads_with quiet (not_none (get_asset p i)) p a.
Proof. intros ->. apply reads_ret. Qed.

Lemma get_asset_is_Some (p : Portfolio) (i : nat) :
  i < num_assets p -> exists a, get_asset p i = Some a.
Proof.
  intros Hi. apply lookup_lt_is_Some_2 in Hi as [[a q] Hl].
  exists a. unfold get_asset. rewrite Hl. reflexivity.
Qed.

Lemma in_range (i n : nat) : In i (range n) -> i < n.
Proof. unfold range. rewrite in_seq. lia. Qed.

Lemma in_range2 (j a b : nat) : In j (range2 a b) -> a <= j < b.
Proof. unfold range2. rewrite in_seq. lia. Qed.

End Reads.

(** ** Couplings of an asset with itself

    [set_asset_correlation] refuses [asset1 is asset2], and it is the only
    writer of the dict: no coupling of an asset with itself is ever stored. *)

Section Self_coupling.
Context {A : Arith}.

Lemma no_self_coupling_empty (holdings : list (Asset * number)) :
  no_self_coupling (mkPortfolio holdings ∅).
Proof. intros k. apply lookup_empty. Qed.

Lemma set_asset_correlation_no_self (a b : Asset) (c : number) (p : Portfolio) :
  no_self_coupling p -> no_self_coupling (set_asset_correlation a b c p).
Proof.
  intros H k. unfold set_asset_correlation.
  destruct (Nat.eqb (ident a) (ident b)) eqn:E; [apply H|]. simpl.
  apply Nat.eqb_neq in E.
  rewrite !lookup_insert_ne by (intros [= <- ?]; congruence). apply H.
Qed.

Lemma stays_uncoupled_bind {T U} (m : Py T) (k : T -> Py U) (w : World) :
  stays_uncoupled m w ->
  (forall v w', m w = Ok v w' -> stays_uncoupled (k v) w') ->
  stays_uncoupled (bind m k) w.
Proof.
  unfold stays_uncoupled, bind. intros Hm Hk Hw. specialize (Hm Hw).
  destruct (m w) as [v w'| |]; [apply (Hk v w' eq_refl Hm) | exact Hm | exact I].
Qed.

Lemma stays_uncoupled_get_portfolio {U} (k : Portfolio -> Py U) (w : World) :
  stays_uncoupled (k (portfolio w)) w -> stays_uncoupled (bind get_portfolio k) w.
Proof. intros H. exact H. Qed.

Lemma stays_uncoupled_set_portfolio (p : Portfolio) (w : World) :
  (no_self_coupling (portfolio w) -> no_self_coupling p) ->
  stays_uncoupled (set_portfolio p) w.
Proof. intros H Hw. simpl. apply H. exact Hw. Qed.

Lemma stays_uncoupled_still {T} (m : Py T) (w : World) :
  (forall u, match m u with
             | Ok _ u' | Raise _ u' => portfolio u' = portfolio u
             | OutOfFuel => True
             end) ->
  stays_uncoupled m w.
Proof.
  intros H Hw. specialize (H w). destruct (m w); try exact I; rewrite H; exact Hw.
Qed.

Lemma stays_uncoupled_for_each {X} (xs : list X) (body : X -> Py unit) :
  (forall x w, stays_uncoupled (body x) w) ->
  forall w, stays_uncoupled (for_each xs body) w.
Proof.
  intros Hb. induction xs as [|x xs IH]; intros w; simpl.
  - intros Hw. exact Hw.
  - apply stays_uncoupled_bind; [apply Hb | intros [] w' _; apply IH].
Qed.

End Self_coupling.

(** ** The volatility in exact arithmetic *)

Section Exact_volatility.
Local Open Scope R_scope.

Lemma fold_left_Rsum {X} (f : X -> R) (xs : list X) (t : R) :
  fold_left (fun t x => t + f x) xs t = t + Rsum (map f xs).
Proof.
  revert t. induction xs as [|x xs IH]; intros t; simpl.
  - lra.
  - rewrite IH. lra.
Qed.

Lemma Rsum_scal {X} (c : R) (f : X -> R) (xs : list X) :
  Rsum (map (fun x => c * f x) xs) = c * Rsum (map f xs).
Proof. induction xs as [|x xs IH]; simpl; [lra | rewrite IH; lra]. Qed.

Lemma Rsum_ext {X} (f g : X -> R) (xs : list X) :
  (forall x, In x xs -> f x = g x) -> Rsum (map f xs) = Rsum (map g xs).
Proof.
  induction xs as [|x xs IH]; intros H; simpl; [reflexivity|].
  rewrite (H x) by (left; reflexivity). rewrite IH; [reflexivity|].
  intros y Hy. apply H. right. exact Hy.
Qed.

Lemma fold_left_ext {X S} (f g : S -> X -> S) (xs : list X) (s : S) :
  (forall s x, In x xs -> f s x = g s x) -> fold_left f xs s = fold_left g xs s.
Proof.
  revert s. induction xs as [|x xs IH]; intros s H; simpl; [reflexivity|].
  rewrite (H s x) by (left; reflexivity). apply IH.
  intros s' y Hy. apply H. right. exact Hy.
Qed.

Lemma accumulated_exact (p : @Portfolio Exact) :
  accumulated p (fun x => x * x) = radicand_with_diagonal p.
Proof.
  unfold accumulated, radicand_with_diagonal, squares_step, coupling_step.
  cbn [fadd fmul lit_0 lit_2 Exact].
  rewrite (fold_left_ext _
    (fun t i => t + Rsum (map (fun j => 2 * coupling p i j * fraction p i * fraction p j)
                              (range2 i (num_assets p))))).
  2:{ intros s i _. apply fold_left_Rsum. }
  rewrite fold_left_Rsum. rewrite fold_left_Rsum.
  rewrite <- Rsum_scal. 
  f_equal.
  - rewrite Rplus_0_l. apply Rsum_ext. intros i _. lra.
  - apply Rsum_ext. intros i _. rewrite <- Rsum_scal. apply Rsum_ext.
    intros j _. lra.
Qed.

Lemma coupling_diagonal (p : @Portfolio Exact) (i : nat) :
  no_self_coupling p -> coupling p i i = 0.
Proof.
  intros H. unfold coupling. destruct (get_asset p i) as [a|]; [|reflexivity].
  unfold get_asset_correlation. rewrite !H. reflexivity.
Qed.

Lemma radicand_diagonal (p : @Portfolio Exact) :
  no_self_coupling p -> radicand_with_diagonal p = radicand p.
Proof.
  intros H. unfold radicand_with_diagonal, radicand. f_equal. f_equal.
  apply Rsum_ext. intros i Hi%in_range.
  unfold range2. replace (num_assets p - i)%nat with (S (num_assets p - S i)) by lia.
  simpl. rewrite coupling_diagonal by exact H. lra.
Qed.

Lemma get_volatility_empty {A : Arith} (w : World) :
  num_assets (portfolio w) = 0%nat -> get_volatility w = Ok lit_0 w.
Proof.
  intros H. unfold get_volatility, bind, get_portfolio. rewrite H. reflexivity.
Qed.

End Exact_volatility.

(** ** Reallocation in exact arithmetic *)

Section Exact_distribution.
Local Open Scope R_scope.

Implicit Types (p : @Portfolio Exact) (w : @World Exact) (d : list R).

Lemma fold_left_Rplus (xs : list R) (x : R) :
  fold_left Rplus xs x = x + Rsum xs.
Proof.
  revert x. induction xs as [|y xs IH]; intros x; simpl; [lra|].
  rewrite IH. lra.
Qed.

Lemma vec_sum_exact d w :
  d <> [] -> vec_sum (A:=Exact) d w = Ok (Rsum d) w.
Proof.
  destruct d as [|x xs]; [congruence|]. intros _. unfold vec_sum, ret. f_equal.
  cbn [fadd Exact]. simpl. apply fold_left_Rplus.
Qed.

Lemma Rltb_true (x y : R) : Rltb x y = true <-> x < y.
Proof. unfold Rltb. destruct (Rlt_dec x y); split; intros; try lra; congruence. Qed.

Lemma float_eq_exact (a b : R) :
  float_eq (A:=Exact) a b = true
  <-> Rabs (b - a) < 1 / 10000000 + 1 / 10000 * (a + b).
Proof. unfold float_eq. cbn [flt fabs fsub fadd fmul abs_tol rel_tol Exact]. apply Rltb_true. Qed.

Lemma get_value_exact p :
  get_value p = Rsum (map holding_value (assets p)).
Proof.
  unfold get_value. cbn [fadd fmul lit_0 Exact].
  rewrite (fold_left_Rsum holding_value). lra.
Qed.

Lemma reallocate_value (total : R) (holdings : list (@Asset Exact * R)) d :
  priced holdings -> length d = length holdings ->
  Rsum (map holding_value (reallocate (A:=Exact) total holdings d)) = total * Rsum d.
Proof.
  intros Hp. revert d. induction Hp as [|h hs Hh Hp IH]; intros d Hl.
  - destruct d; [|discriminate]. simpl. lra.
  - destruct d as [|x d]; [discriminate|]. simpl in Hl.
    unfold reallocate in *. simpl. rewrite IH by lia.
    unfold holding_value at 1.
    unfold reallocate_holding. cbn [fis_zero fdiv fmul Exact]. unfold Reqb.
    destruct (Req_dec_T _ 0) as [E|_]; [contradiction|].
    simpl. field. exact Hh.
Qed.

Lemma price_warnings_priced (holdings : list (@Asset Exact * R)) :
  priced holdings -> price_warnings (A:=Exact) holdings = [].
Proof.
  induction 1 as [|h hs Hh Hp IH]; [reflexivity|].
  unfold price_warnings in *. cbn [flat_map]. rewrite IH.
  cbn [fis_zero Exact]. unfold Reqb.
  destruct (Req_dec_T _ 0) as [E|_]; [contradiction|]. reflexivity.
Qed.

Lemma reallocate_lookup (total : R) (holdings : list (@Asset Exact * R)) d
  (i : nat) (h : @Asset Exact * R) (x : R) :
  priced holdings -> holdings !! i = Some h -> d !! i = Some x ->
  reallocate (A:=Exact) total holdings d !! i = Some (fst h, total * x / price (fst h)).
Proof.
  intros Hp Hh Hx. unfold reallocate. apply lookup_zip_with_Some.
  exists h, x. split; [|split; assumption].
  unfold reallocate_holding. cbn [fis_zero fdiv fmul Exact].
  unfold Reqb. unfold priced in Hp. rewrite Forall_forall in Hp.
  destruct (Req_dec_T _ 0) as [E|_]; [|reflexivity].
  exfalso. apply (Hp h); [|exact E].
  eapply list_elem_of_lookup_2. exact Hh.
Qed.

Lemma fold_left_snoc_map {X Y} (f : X -> Y) (xs : list X) (acc : list Y) :
  fold_left (fun acc x => acc ++ [f x]) xs acc = acc ++ map f xs.
Proof.
  revert acc. induction xs as [|x xs IH]; intros acc; simpl.
  - rewrite app_nil_r. reflexivity.
  - rewrite IH, <- app_assoc. reflexivity.
Qed.

Lemma reads_get_asset_distribution {A : Arith} (quiet : bool) (p : Portfolio) :
  (quiet = true -> fis_zero (get_value p) = false) ->
  reads_with quiet get_asset_distribution p
    (map (fraction p) (range (num_assets p))).
Proof.
  intros Hq.
  unfold get_asset_distribution. eapply reads_bind; [apply reads_get_portfolio|].
  rewrite <- (app_nil_l (map _ _)), <- fold_left_snoc_map.
  apply reads_for_acc. intros s i Hi%in_range.
  eapply reads_bind; [apply reads_fraction; [exact Hq | exact Hi] | apply reads_ret].
Qed.

Lemma Rsum_nonneg_le d (x : R) :
  Forall (fun y => 0 <= y) d -> In x d -> 0 <= x <= Rsum d.
Proof.
  induction 1 as [|y d Hy Hd IH]; intros Hin; [destruct Hin|].
  assert (0 <= Rsum d) as Hs.
  { clear -Hd. induction Hd as [|z d Hz Hd IH]; simpl; lra. }
  simpl. destruct Hin as [->|Hin]; [lra|].
  specialize (IH Hin). lra.
Qed.

Lemma float_eq_scaled (s x : R) :
  float_eq (A:=Exact) s 1 = true -> 0 <= x <= s ->
  float_eq (A:=Exact) (x / s) x = true.
Proof.
  rewrite !float_eq_exact. intros Hs Hx.
  assert (0 < s) as Hpos.
  { destruct (Rle_or_lt s 0) as [Hle|]; [|assumption].
    rewrite Rabs_right in Hs by lra. lra. }
  assert (x - x / s = x * ((s - 1) / s)) as -> by (field; lra).
  rewrite Rabs_mult, (Rabs_right x) by lra.
  assert (Rabs ((s - 1) / s) = Rabs (1 - s) / s) as ->.
  { unfold Rdiv. rewrite Rabs_mult, (Rabs_right (/ s)).
    - rewrite (Rabs_minus_sym s 1). reflexivity.
    - apply Rle_ge. left. apply Rinv_0_lt_compat. exact Hpos. }
  assert (x / s <= 1) as Hq.
  { apply (Rmult_le_reg_r s); [exact Hpos|].
    replace (x / s * s) with x by (field; lra). lra. }
  assert (0 <= x / s) as Hq0.
  { apply Rle_mult_inv_pos; lra. }
  assert (x * (Rabs (1 - s) / s) = x / s * Rabs (1 - s)) as -> by (field; lra).
  destruct (Req_dec (x / s) 0) as [E|E].
  - rewrite E. assert (x = 0) as ->.
    { replace x with (x / s * s) by (field; lra). rewrite E. lra. }
    lra.
  - assert (x / s * Rabs (1 - s)
            < x / s * (1 / 10000000 + 1 / 10000 * (s + 1))) as Hlt.
    { apply Rmult_lt_compat_l; [lra | exact Hs]. }
    replace (x / s * (1 / 10000000 + 1 / 10000 * (s + 1)))
      with (x / s * (1 / 10000000) + 1 / 10000 * (x + x / s)) in Hlt
      by (field; lra).
    assert (x / s * (1 / 10000000) <= 1 / 10000000) by nra.
    lra.
Qed.

End Exact_distribution.

(** ** The search for the minimum variance *)

Section Frame.
Context {A : Arith}.

Lemma same_shape_refl (w : World) : same_shape w w.
Proof. repeat split. Qed.

Lemma same_shape_trans (w1 w2 w3 : World) :
  same_shape w1 w2 -> same_shape w2 w3 -> same_shape w1 w3.
Proof. intros (?&?&?) (?&?&?). repeat split; congruence. Qed.

Lemma keeps_ret {T} (v : T) : keeps_shape (ret v).
Proof. intros w. apply same_shape_refl. Qed.

Lemma keeps_raise {T} (e : exn) : keeps_shape (@raise A T e).
Proof. intros w. apply same_shape_refl. Qed.

Lemma keeps_warn (msg : string) : keeps_shape (warn msg).
Proof. intros w. repeat split. Qed.

Lemma keeps_get_portfolio : keeps_shape get_portfolio.
Proof. intros w. apply same_shape_refl. Qed.

Lemma keeps_bind {T U} (m : Py T) (k : T -> Py U) :
  keeps_shape m -> (forall v, keeps_shape (k v)) -> keeps_shape (bind m k).
Proof.
  intros Hm Hk w. unfold bind. specialize (Hm w).
  destruct (m w) as [v w1|e w1|]; [|exact Hm|exact I].
  specialize (Hk v w1). destruct (k v w1); try exact I;
    eapply same_shape_trans; eauto.
Qed.

Lemma keeps_try {T} (m : Py T) (e : exn) (h : Py T) :
  keeps_shape m -> keeps_shape h -> keeps_shape (try_except m e h).
Proof.
  intros Hm Hh w. unfold try_except. specialize (Hm w).
  destruct (m w) as [v w1|e' w1|]; [exact Hm| |exact I].
  destruct (decide (e' = e)); [|exact Hm].
  specialize (Hh w1). destruct (h w1); try exact I;
    eapply same_shape_trans; eauto.
Qed.

Lemma keeps_for_each {X} (xs : list X) (body : X -> Py unit) :
  (forall x, keeps_shape (body x)) -> keeps_shape (for_each xs body).
Proof.
  intros Hb. induction xs as [|x xs IH]; simpl.
  - apply keeps_ret.
  - apply keeps_bind; [apply Hb | intros _; exact IH].
Qed.

Lemma keeps_for_acc {X S} (xs : list X) (body : S -> X -> Py S) :
  (forall s x, keeps_shape (body s x)) -> forall s, keeps_shape (for_acc xs body s).
Proof.
  intros Hb. induction xs as [|x xs IH]; intros s; simpl.
  - apply keeps_ret.
  - apply keeps_bind; [apply Hb | intros s'; apply IH].
Qed.

Lemma keeps_not_none {T} (o : option T) : keeps_shape (not_none o).
Proof. destruct o; [apply keeps_ret | apply keeps_raise]. Qed.

Lemma keeps_py_div (x y : number) : keeps_shape (py_div x y).
Proof. unfold py_div. destruct (fis_zero y); [apply keeps_raise | apply keeps_ret]. Qed.

Lemma keeps_py_pow2 (x : number) : keeps_shape (py_pow2 x).
Proof. unfold py_pow2. destruct (fpow2 x); [apply keeps_ret | apply keeps_raise]. Qed.

Lemma keeps_py_sqrt (x : number) : keeps_shape (py_sqrt x).
Proof. unfold py_sqrt. destruct (fsqrt x); [apply keeps_ret | apply keeps_raise]. Qed.

Lemma keeps_vec_sum (vec : list number) : keeps_shape (vec_sum vec).
Proof. destruct vec; [apply keeps_raise | apply keeps_ret]. Qed.

Lemma keeps_set_asset_number (q : number) (i : nat) :
  keeps_shape (let* p := get_portfolio in set_portfolio (set_asset_number q i p)).
Proof.
  intros w. unfold bind, get_portfolio, set_portfolio, set_asset_number.
  destruct (assets (portfolio w) !! i) as [[a ?]|]; repeat split; simpl.
  unfold num_assets. simpl. apply length_insert.
Qed.

Ltac keeps_step :=
  first
    [ apply keeps_ret | apply keeps_raise | apply keeps_warn
    | apply keeps_get_portfolio | apply keeps_not_none | apply keeps_py_div
    | apply keeps_py_pow2 | apply keeps_py_sqrt | apply keeps_vec_sum
    | apply keeps_try
    | apply keeps_for_each; intros
    | apply keeps_for_acc; intros
    | apply keeps_bind; [ | intros ]
    | match goal with
      | |- keeps_shape (if ?b then _ else _) => destruct b
      | |- keeps_shape (match ?o with Some _ => _ | None => _ end) => destruct o
      end ].

Lemma keeps_get_asset_fractional_value (i : nat) :
  keeps_shape (get_asset_fractional_value i).
Proof. unfold get_asset_fractional_value, get_asset_value. repeat keeps_step. Qed.

Lemma keeps_set_asset_number_with_value (v : number) (i : nat) :
  keeps_shape (set_asset_number_with_value v i).
Proof.
  intros w. unfold set_asset_number_with_value, try_except, bind, get_portfolio.
  destruct (Nat.ltb i (num_assets (portfolio w))); [|apply same_shape_refl].
  destruct (get_asset (portfolio w) i) as [a|]; simpl; [|apply same_shape_refl].
  unfold py_div. destruct (fis_zero (price a)); simpl; [repeat split|].
  apply (keeps_set_asset_number (fdiv v (price a)) i w).
Qed.

Ltac keeps_auto :=
  repeat first
    [ apply keeps_set_asset_number_with_value
    | apply keeps_get_asset_fractional_value
    | keeps_step ].

Lemma keeps_set_asset_distribution (d : list number) :
  keeps_shape (set_asset_distribution d).
Proof. unfold set_asset_distribution. keeps_auto. Qed.

Lemma keeps_get_volatility : keeps_shape get_volatility.
Proof. unfold get_volatility. keeps_auto. Qed.

Lemma keeps_get_expected_return : keeps_shape get_expected_return.
Proof. unfold get_expected_return. keeps_auto. Qed.

Lemma keeps_vec_norm (vec : list number) (n : number) : keeps_shape (vec_norm vec n).
Proof. unfold vec_norm. keeps_auto. Qed.

End Frame.

Section Minimum_variance.
Context {A : Arith}.






End Minimum_variance.

Section Minimum.
Context {A : Arith} {O : ArithOrder A}.

Implicit Types (t b : list number * number) (l ts : list (list number * number)).



End Minimum.

Section Search.
Context {A : Arith}.

Lemma terminates_vec_norm (vec : list number) (n : number) :
  terminates (vec_norm vec n).
Proof.
  unfold vec_norm.
  apply terminates_bind; [apply terminates_vec_sum|]. intros s.
  apply terminates_for_acc. intros acc v.
  apply terminates_bind; [apply terminates_py_div | intros; apply terminates_ret].
Qed.

Lemma terminates_minimum_variance_montecarlo (rnd : nat -> number) (num : nat) :
  terminates (minimum_variance_montecarlo rnd num).
Proof.
  unfold minimum_variance_montecarlo.
  repeat first
    [ apply terminates_ret | apply terminates_get_portfolio
    | apply terminates_random_vector | apply terminates_vec_norm
    | apply terminates_set_asset_distribution | apply terminates_get_volatility
    | apply terminates_get_expected_return
    | apply terminates_for_acc; intros [? ?] ?
    | apply terminates_bind; [ | intros ]
    | match goal with |- terminates (if ?b then _ else _) => destruct b end ].
Qed.


End Search.

(** *** The order of binary64 *)

Section Spec_float_order.

Lemma SFltb_SFlt (x y : spec_float) : SFltb x y = true <-> SFlt x y.
Proof.
  unfold SFltb, SFcompare, SFlt.
  destruct x as [[]|[]| |[] m1 e1], y as [[]|[]| |[] m2 e2];
    try (split; intros H; try discriminate; try reflexivity; try tauto;
         try (destruct H; discriminate); fail).
  - unfold lex_lt. change (Pos.compare_cont Eq m1 m2) with (m1 ?= m2)%positive.
    destruct (Z.compare_spec e1 e2); destruct (Pos.compare_spec m1 m2);
      simpl; split; intros ?; try discriminate; try reflexivity; try lia.
  - unfold lex_lt. change (Pos.compare_cont Eq m1 m2) with (m1 ?= m2)%positive.
    destruct (Z.compare_spec e1 e2); destruct (Pos.compare_spec m1 m2);
      simpl; split; intros ?; try discriminate; try reflexivity; try lia.
Qed.

Lemma SFlt_irrefl (x : spec_float) : ~ SFlt x x.
Proof.
  destruct x as [[]|[]| |[] m e]; simpl; unfold lex_lt; try tauto;
    try (intros [? ?]; discriminate); lia.
Qed.

Lemma SFlt_trans (x y z : spec_float) : SFlt x y -> SFlt y z -> SFlt x z.
Proof.
  destruct x as [[]|[]| |[] m1 e1], y as [[]|[]| |[] m2 e2],
           z as [[]|[]| |[] m3 e3];
    simpl; unfold lex_lt; intros; try tauto; try discriminate;
    try (intuition discriminate); try lia.
Qed.

Lemma SFlt_cotrans (x y z : spec_float) :
  y <> S754_nan -> SFlt x z -> SFlt x y \/ SFlt y z.
Proof.
  destruct x as [[]|[]| |[] m1 e1], y as [[]|[]| |[] m2 e2],
           z as [[]|[]| |[] m3 e3];
    simpl; unfold lex_lt; intros; try tauto; try discriminate;
    try (intuition discriminate); try lia.
Qed.

End Spec_float_order.

(** Binary64 is ordered in that sense: [<] is irreflexive and transitive,
    and every number that is not NaN compares with the others. *)
#[export] Instance Float64_order : ArithOrder Float64.
Proof.
  split.
  - intros x. cbn [flt Float64]. rewrite FloatAxioms.ltb_spec.
    destruct (SFltb _ _) eqn:E; [|reflexivity].
    apply SFltb_SFlt in E. exfalso. eapply SFlt_irrefl. exact E.
  - intros x y z. cbn [flt Float64]. rewrite !FloatAxioms.ltb_spec, !SFltb_SFlt.
    apply SFlt_trans.
  - intros x y z Hy. cbn [flt funordered Float64] in *. unfold is_nan in Hy.
    rewrite FloatAxioms.eqb_spec in Hy. rewrite !FloatAxioms.ltb_spec, !SFltb_SFlt.
    apply SFlt_cotrans. intros E. rewrite E in Hy. discriminate.
Qed.

#[export] Instance Exact_order : ArithOrder Exact.
Proof.
  split.
  - intros x. cbn [flt Exact]. destruct (Rltb x x) eqn:E; [|reflexivity].
    apply Rltb_true in E. lra.
  - intros x y z. cbn [flt Exact]. rewrite !Rltb_true. lra.
  - intros x y z _. cbn [flt Exact]. rewrite !Rltb_true. lra.
Qed.

(** ** Facts about the hull *)

Section Hull_facts.
Context {A : Arith} {D : Type}.
Implicit Types (hull points : list (Point D)) (p : Point D).

Lemma pop_while_rule hull p :
  exists k,
    pop_while hull p = drop k hull
    /\ (forall m, m < k ->
          3 < length hull - m
          /\ exists a b, hull !! m = Some b /\ hull !! (S m) = Some a
                         /\ cross_z a b p [<] lit_0 = true)
    /\ (length hull - k <= 3
        \/ exists a b, hull !! k = Some b /\ hull !! (S k) = Some a
                       /\ cross_z a b p [<] lit_0 = false).
Proof.
  induction hull as [|b rest IH].
  - exists 0. simpl. split; [reflexivity|]. split; [lia|]. left. lia.
  - cbn [pop_while]. destruct rest as [|a rest'].
    + exists 0. split; [reflexivity|]. split; [lia|]. left. simpl. lia.
    + destruct (Nat.ltb 3 (length (b :: a :: rest'))) eqn:Hlen.
      * destruct (cross_z a b p [<] lit_0) eqn:Hc; cbn [andb].
        -- destruct IH as (k & Hk & Hpop & Hstop). exists (S k).
           split; [exact Hk|]. apply Nat.ltb_lt in Hlen. split.
           ++ intros [|m] Hm.
              ** split; [simpl in *; lia|]. exists a, b. auto.
              ** destruct (Hpop m ltac:(lia)) as (H1 & H2). split; [simpl in *; lia|].
                 exact H2.
           ++ exact Hstop.
        -- exists 0. split; [reflexivity|]. split; [lia|]. right.
           exists a, b. auto.
      * exists 0. split; [reflexivity|]. split; [lia|]. left.
        apply Nat.ltb_ge in Hlen. simpl in *. lia.
Qed.

End Hull_facts.

Section Hull_members.
Context {A : Arith} {D : Type}.
Implicit Types (x y p : Point D) (l hull points : list (Point D)).










End Hull_members.

Section List_ends.
Context {X : Type}.
Implicit Types (l : list X) (x : X).

Lemma head_rev l : head (rev l) = last l.
Proof.
  induction l as [|x l IH]; [reflexivity|]. simpl.
  destruct l as [|y l]; [reflexivity|].
  rewrite last_cons_cons, <- IH. simpl.
  destruct (rev l ++ [y]) eqn:E; [|reflexivity].
  apply app_eq_nil in E as [_ E]. discriminate.
Qed.

Lemma last_rev l : last (rev l) = head l.
Proof. rewrite <- (rev_involutive l) at 2. symmetry. apply head_rev. Qed.



End List_ends.

Section Chain_ends.
Context {A : Arith} {D : Type}.
Implicit Types (x y p m : Point D) (l hull points s : list (Point D)).

Lemma pop_while_nonempty hull p : hull <> [] -> pop_while hull p <> [].
Proof.
  induction hull as [|b rest IH]; [congruence|]. intros _. cbn [pop_while].
  destruct rest as [|a rest']; [discriminate|].
  destruct (Nat.ltb 3 (length (b :: a :: rest')) && _); [|discriminate].
  apply IH. discriminate.
Qed.

Lemma pop_while_last hull p : last (pop_while hull p) = last hull.
Proof.
  induction hull as [|b rest IH]; [reflexivity|]. cbn [pop_while].
  destruct rest as [|a rest']; [reflexivity|].
  destruct (Nat.ltb 3 (length (b :: a :: rest')) && _); [|reflexivity].
  rewrite IH. rewrite last_cons_cons. reflexivity.
Qed.

Lemma chain_from_last points :
  forall hull, hull <> [] -> last (chain_from hull points) = last hull.
Proof.
  unfold chain_from. induction points as [|p points IH]; intros hull Hne; simpl.
  - reflexivity.
  - rewrite IH by discriminate.
    pose proof (pop_while_nonempty hull p Hne) as Hn.
    destruct (pop_while hull p) as [|h t] eqn:E; [congruence|].
    rewrite last_cons_cons, <- E. apply pop_while_last.
Qed.


Lemma chain_from_snoc points p :
  forall hull,
    chain_from hull (points ++ [p])
    = p :: pop_while (chain_from hull points) p.
Proof. intros hull. unfold chain_from. rewrite fold_left_app. reflexivity. Qed.

Lemma chain_head points : head (chain points) = head points.
Proof.
  unfold chain. rewrite head_rev.
  destruct points as [|q points]; [reflexivity|].
  change (chain_from [] (q :: points)) with (chain_from [q] points).
  rewrite chain_from_last by discriminate. reflexivity.
Qed.

Lemma chain_last points : last (chain points) = last points.
Proof.
  unfold chain. rewrite last_rev.
  destruct points as [|q points] using rev_ind; [reflexivity|].
  rewrite chain_from_snoc, last_snoc. reflexivity.
Qed.



End Chain_ends.

Section Chain_keeps.
Context {A : Arith} {D : Type}.
Variable R : Point D -> Point D -> Prop.
Variable S : list (Point D).
Implicit Types (x y p m : Point D) (l hull points : list (Point D)).





End Chain_keeps.

(** ** The hull in exact arithmetic *)

Section Exact_hull.
Context {D : Type}.
Local Open Scope R_scope.
Implicit Types (a b m p q x y : Point (A:=Exact) D) (l s : list (Point (A:=Exact) D)).














End Exact_hull.

(** ** Facts about the stepper *)

Section Frange_facts.
Context {A : Arith}.

Lemma frange_loop_extends (fuel : nat) :
  forall (a b c : number) (res r : list number),
  frange_loop fuel a b c res = Some r -> exists tl, r = res ++ a :: tl.
Proof.
  induction fuel as [|fuel IH]; intros a b c res r H; simpl in H; [discriminate|].
  destruct (_ && _).
  { injection H as <-. exists []. reflexivity. }
  destruct (_ && _).
  { injection H as <-. exists []. reflexivity. }
  apply IH in H. destruct H as (tl & ->). rewrite <- app_assoc. simpl. eauto.
Qed.

Lemma frange_loop_no_exit (c : number) :
  lit_0 [<] c = false -> c [<] lit_0 = false ->
  forall (fuel : nat) (a b : number) (res : list number),
  frange_loop fuel a b c res = None.
Proof.
  intros H1 H2. induction fuel as [|fuel IH]; intros a b res; simpl; [reflexivity|].
  rewrite H1, H2. simpl. apply IH.
Qed.

Lemma frange_loop_absorbed (a b c : number) :
  a [+] c = a ->
  (lit_0 [<] c) && (b [<] a) = false ->
  (c [<] lit_0) && (a [<] b) = false ->
  forall (fuel : nat) (res : list number), frange_loop fuel a b c res = None.
Proof.
  intros Ha H1 H2. induction fuel as [|fuel IH]; intros res; simpl; [reflexivity|].
  rewrite Ha, H1, H2. apply IH.
Qed.

End Frange_facts.

Section Frange_exact.
Local Open Scope R_scope.

Lemma frange_loop_exact (a b c : R) (n : nat) :
  0 < c ->
  (n = 0%nat \/ a + INR n * c <= b) ->
  b < a + INR (S n) * c ->
  forall (m k fuel : nat) (res : list R),
  (k + m = n)%nat -> (m < fuel)%nat ->
  frange_loop (A:=Exact) fuel (a + INR k * c) b c res
  = Some (res ++ map (fun i => a + INR i * c) (seq k (S m))).
Proof.
  intros Hc Hn Hb. induction m as [|m IH]; intros k fuel res Hk Hf.
  - destruct fuel as [|fuel]; [lia|]. simpl.
    cbn [flt fadd lit_0 Exact].
    replace (Rltb 0 c) with true by (symmetry; apply Rltb_true; exact Hc).
    replace (Rltb b (a + INR k * c + c)) with true; [reflexivity|].
    symmetry. apply Rltb_true. rewrite Nat.add_0_r in Hk. subst k.
    rewrite S_INR in Hb. lra.
  - destruct fuel as [|fuel]; [lia|]. simpl frange_loop.
    cbn [flt fadd lit_0 Exact].
    assert (INR (S k) <= INR n) as Hle by (apply le_INR; lia).
    assert (a + INR n * c <= b) as Hn' by (destruct Hn as [->|]; [lia | assumption]).
    replace (Rltb b (a + INR k * c + c)) with false.
    2:{ symmetry. destruct (Rltb b (a + INR k * c + c)) eqn:E; [|reflexivity].
        apply Rltb_true in E. rewrite S_INR in Hle. nra. }
    replace (Rltb c 0) with false.
    2:{ symmetry. destruct (Rltb c 0) eqn:E; [|reflexivity].
        apply Rltb_true in E. lra. }
    rewrite andb_false_r. simpl andb.
    replace (a + INR k * c + c) with (a + INR (S k) * c) by (rewrite S_INR; lra).
    rewrite (IH (S k) fuel) by lia.
    rewrite <- app_assoc. reflexivity.
Qed.

Lemma steps_to_reach (a b c : R) :
  0 < c -> exists n : nat,
    (n = 0%nat \/ a + INR n * c <= b) /\ b < a + INR (S n) * c.
Proof.
  intros Hc. destruct (Rlt_le_dec b (a + c)) as [Hlt|Hge].
  - exists 0%nat. split; [left; reflexivity|]. simpl. lra.
  - set (x := (b - a) / c).
    assert (1 <= x) as Hx.
    { unfold x. apply Rmult_le_reg_r with c; [exact Hc|].
      unfold Rdiv. rewrite Rmult_assoc, Rinv_l by lra. lra. }
    destruct (archimed x) as [Hup1 Hup2].
    assert (1 < IZR (up x)) as H1 by lra.
    apply lt_IZR in H1.
    exists (Z.to_nat (up x - 1)).
    rewrite S_INR, INR_IZR_INZ, Z2Nat.id by lia.
    rewrite minus_IZR.
    assert (b - a = x * c) as Hb.
    { unfold x. field. lra. }
    split.
    + right. nra.
    + nra.
Qed.

End Frange_exact.

(** ** Facts about [vec_norm], the small hull and the tolerance *)

Section Norm_facts.
Context {A : Arith}.

Lemma vec_norm_loop (s n : number) (vec : list number) :
  fis_zero s = false ->
  forall (acc : list number) (w : World),
  for_acc vec (fun acc v => let* q := py_div v s in ret (acc ++ [q [*] n])) acc w
  = Ok (acc ++ map (fun v => fdiv v s [*] n) vec) w.
Proof.
  intros Hs. induction vec as [|v vec IH]; intros acc w; simpl.
  - rewrite app_nil_r. reflexivity.
  - unfold bind at 1. unfold py_div at 1. rewrite Hs. unfold bind at 1, ret at 1 2.
    rewrite IH, <- app_assoc. reflexivity.
Qed.

Lemma vec_norm_cons (x : number) (xs : list number) (n : number) (w : World) :
  vec_norm (x :: xs) n w
  = if fis_zero (fold_left fadd xs x) then Raise ZeroDivisionError w
    else Ok (map (fun v => fdiv v (fold_left fadd xs x) [*] n) (x :: xs)) w.
Proof.
  unfold vec_norm. unfold bind at 1. unfold vec_sum, ret at 1.
  destruct (fis_zero (fold_left fadd xs x)) eqn:Hs.
  - simpl. unfold bind, py_div. rewrite Hs. reflexivity.
  - rewrite vec_norm_loop by exact Hs. reflexivity.
Qed.

End Norm_facts.

Section Hull_small.
Context {A : Arith} {D : Type}.
Implicit Types (hull points s l : list (Point D)) (p : Point D).

Lemma pop_while_short hull p : length hull <= 3 -> pop_while hull p = hull.
Proof.
  intros H. destruct hull as [|a [|b rest]]; [reflexivity..|].
  cbn [pop_while].
  replace (Nat.ltb 3 (length (a :: b :: rest))) with false
    by (symmetry; apply Nat.ltb_ge; exact H).
  reflexivity.
Qed.

Lemma chain_from_short points : forall hull,
  length hull + length points <= 4 ->
  chain_from hull points = rev points ++ hull.
Proof.
  induction points as [|p points IH]; intros hull H; [reflexivity|].
  simpl in H. unfold chain_from in *. cbn [fold_left].
  rewrite pop_while_short by lia.
  rewrite IH by (simpl; lia). simpl. rewrite <- app_assoc. reflexivity.
Qed.

Lemma chain_short points : length points <= 4 -> chain points = points.
Proof.
  intros H. unfold chain. rewrite chain_from_short by (simpl; lia).
  rewrite app_nil_r. apply rev_involutive.
Qed.

Lemma insert_by_length (key : Point D -> number) p l :
  length (insert_by key p l) = S (length l).
Proof.
  induction l as [|y l IH]; simpl; [reflexivity|].
  destruct (key p [<] key y); simpl; [reflexivity | rewrite IH; reflexivity].
Qed.

Lemma sort_by_length (key : Point D -> number) l :
  length (sort_by key l) = length l.
Proof.
  unfold sort_by.
  assert (forall acc, length (fold_left (fun sorted x => insert_by key x sorted) l acc)
                      = length acc + length l) as H.
  { induction l as [|x l IH]; intros acc; simpl; [lia|].
    rewrite IH, insert_by_length. lia. }
  apply H.
Qed.

Lemma dedup_from_length p l : length (dedup_from p l) <= S (length l).
Proof.
  revert p. induction l as [|x l IH]; intros p; simpl; [lia|].
  destruct (near p x); [specialize (IH p) | specialize (IH x); simpl]; lia.
Qed.

Lemma dedup_length l : length (dedup l) <= length l.
Proof. destruct l as [|x l]; [simpl; lia | apply dedup_from_length]. Qed.

End Hull_small.

Section Exact_tolerance.
Local Open Scope R_scope.
Context {D : Type}.

Lemma float_eq_negative_sum (a b : R) :
  a + b <= - (1 / 1000) -> float_eq (A:=Exact) a b = false.
Proof.
  intros H. destruct (float_eq (A:=Exact) a b) eqn:E; [|reflexivity].
  apply float_eq_exact in E. pose proof (Rabs_pos (b - a)). lra.
Qed.

Lemma dedup_from_negative (p : Point (A:=Exact) D) (l : list (Point (A:=Exact) D)) :
  Forall (fun q : Point (A:=Exact) D => py q <= - (1 / 2000)) (p :: l) ->
  dedup_from p l = p :: l.
Proof.
  revert p. induction l as [|x l IH]; intros p H; [reflexivity|].
  inversion H as [|? ? Hp Hl]; subst. inversion Hl as [|? ? Hx Hl']; subst.
  simpl. unfold near.
  rewrite (float_eq_negative_sum (py p) (py x)) by lra.
  rewrite andb_false_r. rewrite IH by exact Hl. reflexivity.
Qed.

End Exact_tolerance.

(** ** Facts about the accessors *)

Section Accessor_facts.
Context {A : Arith}.

Lemma py_index_of_nat (len i : nat) :
  py_index len (Z.of_nat i) = if Nat.ltb i len then Some i else None.
Proof.
  unfold py_index.
  destruct (Nat.ltb_spec i len) as [H|H].
  - replace ((0 <=? Z.of_nat i)%Z && (Z.of_nat i <? Z.of_nat len)%Z) with true.
    + rewrite Nat2Z.id. reflexivity.
    + symmetry. apply andb_true_intro. split; [apply Z.leb_le | apply Z.ltb_lt]; lia.
  - replace ((Z.of_nat i <? Z.of_nat len)%Z) with false
      by (symmetry; apply Z.ltb_ge; lia).
    rewrite andb_false_r.
    replace ((Z.of_nat i <? 0)%Z) with false by (symmetry; apply Z.ltb_ge; lia).
    reflexivity.
Qed.

Lemma del_first_absent (a : Asset) (l : list (Asset * number)) :
  (forall h, In h l -> ident (fst h) <> ident a) -> del_first a l = l.
Proof.
  induction l as [|h l IH]; intros H; simpl; [reflexivity|].
  destruct (Nat.eqb_spec (ident a) (ident (fst h))) as [E|_].
  - exfalso. apply (H h); [left; reflexivity | congruence].
  - rewrite IH; [reflexivity|]. intros h' Hh'. apply H. right. exact Hh'.
Qed.

Lemma del_first_middle (a : Asset) (l1 l2 : list (Asset * number))
  (h : Asset * number) :
  (forall h', In h' l1 -> ident (fst h') <> ident a) ->
  ident (fst h) = ident a ->
  del_first a (l1 ++ h :: l2) = l1 ++ l2.
Proof.
  intros H1 Hh. induction l1 as [|x l1 IH]; simpl.
  - rewrite Hh, Nat.eqb_refl. reflexivity.
  - destruct (Nat.eqb_spec (ident a) (ident (fst x))) as [E|_].
    + exfalso. apply (H1 x); [left; reflexivity | congruence].
    + rewrite IH; [reflexivity|]. intros h' Hh'. apply H1. right. exact Hh'.
Qed.

End Accessor_facts.

(** ** More readings *)

Section Reads_more.
Context {A : Arith}.

Lemma fraction_worthless (i : nat) (w : World) :
  i < num_assets (portfolio w) ->
  fis_zero (get_value (portfolio w)) = true ->
  get_asset_fractional_value i w
  = Ok lit_0 (add_warnings w ["Portfolio value problem."]).
Proof.
  intros Hi Hz. apply lookup_lt_is_Some_2 in Hi as [[a q] Hl].
  unfold get_asset_fractional_value, try_except, get_asset_value, bind,
    get_portfolio, get_asset, get_asset_number, py_div.
  rewrite Hl. simpl. rewrite Hz. reflexivity.
Qed.

Lemma distribution_worthless_loop (xs : list nat) :
  forall (acc : list number) (w : World),
  (forall i, In i xs -> i < num_assets (portfolio w)) ->
  fis_zero (get_value (portfolio w)) = true ->
  for_acc xs
    (fun distrib i => let* f := get_asset_fractional_value i in ret (distrib ++ [f]))
    acc w
  = Ok (acc ++ repeat lit_0 (length xs))
       (add_warnings w (repeat "Portfolio value problem." (length xs))).
Proof.
  induction xs as [|x xs IH]; intros acc w Hin Hz; simpl.
  - rewrite app_nil_r, add_warnings_nil. reflexivity.
  - unfold bind at 1. unfold bind at 1.
    rewrite fraction_worthless by (auto; apply Hin; left; reflexivity).
    unfold ret at 1. rewrite IH.
    + rewrite <- app_assoc, add_warnings_app. reflexivity.
    + intros i Hi. apply Hin. right. exact Hi.
    + exact Hz.
Qed.

Lemma reads_get_expected_return (quiet : bool) (p : Portfolio) :
  (quiet = true -> fis_zero (get_value p) = false) ->
  reads_with quiet get_expected_return p
    (fold_left (return_step p) (range (num_assets p)) lit_0).
Proof.
  intros Hq. unfold get_expected_return.
  eapply reads_bind; [apply reads_get_portfolio|].
  apply reads_for_acc. intros s i Hi%in_range.
  destruct (get_asset_is_Some p i Hi) as [a Ha].
  eapply reads_bind; [apply reads_asset; exact Ha|].
  eapply reads_bind; [apply reads_fraction; [exact Hq | exact Hi]|].
  unfold return_step, return_at. rewrite Ha. apply reads_ret.
Qed.

Lemma reads_get_volatility (quiet : bool) (sq : number -> number) (v : number)
  (p : Portfolio) :
  (quiet = true -> fis_zero (get_value p) = false) ->
  (forall x, fpow2 x = Some (sq x)) ->
  num_assets p <> 0 ->
  fsqrt (accumulated p sq) = Some v ->
  reads_with quiet get_volatility p v.
Proof.
  intros Hq Hsq Hn Hv. unfold get_volatility.
  eapply reads_bind; [apply reads_get_portfolio|].
  apply Nat.eqb_neq in Hn as Hb. rewrite Hb.
  eapply reads_bind.
  { apply reads_for_acc with (g := squares_step p sq).
    intros s i Hi%in_range.
    destruct (get_asset_is_Some p i Hi) as [a Ha].
    eapply reads_bind; [apply reads_asset; exact Ha|].
    eapply reads_bind; [apply reads_fraction; [exact Hq | exact Hi]|].
    unfold py_pow2. rewrite Hsq.
    eapply reads_bind; [apply reads_ret|].
    unfold squares_step, vol_at. rewrite Ha. apply reads_ret. }
  eapply reads_bind.
  { apply reads_for_acc
      with (g := fun total i =>
                   fold_left (coupling_step p i) (range2 i (num_assets p)) total).
    intros s i Hi%in_range.
    apply reads_for_acc with (g := coupling_step p i).
    intros s' j Hj%in_range2.
    destruct (get_asset_is_Some p i Hi) as [a Ha].
    destruct (get_asset_is_Some p j ltac:(lia)) as [b Hb'].
    eapply reads_bind; [apply reads_asset; exact Ha|].
    eapply reads_bind; [apply reads_asset; exact Hb'|].
    eapply reads_bind; [apply reads_fraction; [exact Hq | exact Hi]|].
    eapply reads_bind; [apply reads_fraction; [exact Hq | lia]|].
    unfold coupling_step, coupling. rewrite Ha, Hb'. apply reads_ret. }
  fold (accumulated p sq).
  unfold py_sqrt. rewrite Hv. apply reads_ret.
Qed.

End Reads_more.

(** ** Shares in exact arithmetic *)

Section Exact_shares.
Local Open Scope R_scope.

Implicit Types (p : @Portfolio Exact) (w : @World Exact) (d : list R).

Lemma fis_zero_exact (x : R) : @fis_zero Exact x = false <-> x <> 0.
Proof.
  cbn [fis_zero Exact]. unfold Reqb.
  destruct (Req_dec_T x 0); split; intros; congruence.
Qed.

Lemma fraction_exact p (i : nat) (h : @Asset Exact * R) :
  assets p !! i = Some h -> get_value p <> 0 ->
  fraction p i = holding_value h / get_value p.
Proof.
  intros Hh Hv. unfold fraction.
  match goal with
  | |- context [match ?x with Some _ => _ | None => _ end] =>
      assert (x = Some h) as -> by exact Hh
  end.
  destruct h as [a q]. apply fis_zero_exact in Hv.
  match goal with
  | |- context [if ?b then _ else _] => assert (b = false) as -> by exact Hv
  end.
  reflexivity.
Qed.

Lemma map_range_lookup {X Y} (g : nat -> Y) (f : X -> Y) (l : list X) :
  (forall i x, l !! i = Some x -> g i = f x) ->
  map g (range (length l)) = map f l.
Proof.
  intros H. apply list_eq. intros i. unfold range. rewrite !list_lookup_fmap.
  destruct (l !! i) as [x|] eqn:E.
  - assert (i < length l)%nat as Hi by (eapply lookup_lt_Some; eauto).
    rewrite lookup_seq_lt by exact Hi. simpl. f_equal. apply H. exact E.
  - apply lookup_ge_None_1 in E. rewrite lookup_seq_ge by exact E. reflexivity.
Qed.

Lemma Rsum_div (l : list R) (c : R) :
  Rsum (map (fun x => x / c) l) = Rsum l / c.
Proof.
  induction l as [|x l IH]; simpl; [lra|]. rewrite IH. lra.
Qed.

Lemma fractions_sum p :
  get_value p <> 0 -> Rsum (map (fraction p) (range (num_assets p))) = 1.
Proof.
  intros Hv. unfold num_assets.
  rewrite (map_range_lookup _ (fun h => holding_value h / get_value p))
    by (intros i h Hh; apply fraction_exact; assumption).
  rewrite <- (map_map holding_value (fun x => x / get_value p)).
  rewrite Rsum_div, <- get_value_exact. field. exact Hv.
Qed.

Lemma Rsum_le_compat {X} (f g : X -> R) (l : list X) :
  (forall x, In x l -> f x <= g x) -> Rsum (map f l) <= Rsum (map g l).
Proof.
  induction l as [|x l IH]; intros H; simpl; [lra|].
  pose proof (H x (or_introl eq_refl)).
  assert (Rsum (map f l) <= Rsum (map g l)) by (apply IH; intros; apply H; right; assumption).
  lra.
Qed.

End Exact_shares.

(** ** A distribution set and read, in exact arithmetic *)

Section Exact_evaluation.
Local Open Scope R_scope.

Implicit Types (p : @Portfolio Exact) (w : @World Exact) (d : list R).

Lemma reallocated_asset p d (i : nat) :
  priced (assets p) -> length d = num_assets p ->
  get_asset (reallocated p d) i = get_asset p i.
Proof.
  intros Hp Hl. unfold get_asset, reallocated. cbn [assets].
  destruct (assets p !! i) as [h|] eqn:Hh.
  - destruct (lookup_lt_is_Some_2 d i) as [x Hx].
    { rewrite Hl. eapply lookup_lt_Some. exact Hh. }
    rewrite (reallocate_lookup _ _ _ i h x Hp Hh Hx). reflexivity.
  - apply lookup_ge_None_1 in Hh.
    rewrite (lookup_ge_None_2 (reallocate _ _ _)); [reflexivity|].
    unfold reallocate. rewrite length_zip_with. lia.
Qed.

Lemma reallocated_num_assets p d :
  length d = num_assets p -> num_assets (reallocated p d) = num_assets p.
Proof.
  intros Hl. unfold num_assets, reallocated, reallocate in *. cbn [assets].
  rewrite length_zip_with. apply Nat.min_l, Nat.eq_le_incl. symmetry. exact Hl.
Qed.

Lemma reallocated_value p d :
  priced (assets p) -> length d = num_assets p -> Rsum d = 1 ->
  get_value (reallocated p d) = get_value p.
Proof.
  intros Hp Hl Hs. rewrite (get_value_exact (reallocated p d)).
  unfold reallocated. cbn [assets].
  rewrite reallocate_value by assumption. rewrite Hs. lra.
Qed.

Lemma reallocated_fraction p d (i : nat) :
  priced (assets p) -> get_value p <> 0 -> length d = num_assets p -> Rsum d = 1 ->
  fraction (reallocated p d) i = share d i.
Proof.
  intros Hp Hv Hl Hs. unfold share.
  destruct (assets p !! i) as [h|] eqn:Hh.
  - destruct (lookup_lt_is_Some_2 d i) as [x Hx].
    { rewrite Hl. eapply lookup_lt_Some. exact Hh. }
    rewrite (fraction_exact (reallocated p d) i (fst h, get_value p * x / price (fst h))).
    + rewrite reallocated_value by assumption.
      rewrite (nth_lookup_Some _ _ _ _ Hx). unfold holding_value. cbn [fst snd].
      assert (forall V pr y : R, V <> 0 -> pr <> 0 -> pr * (V * y / pr) / V = y) as Hf
        by (intros; field; split; assumption).
      apply Hf; [exact Hv|].
      unfold priced in Hp. rewrite Forall_forall in Hp.
      apply (Hp h). eapply list_elem_of_lookup_2. exact Hh.
    + unfold reallocated. cbn [assets]. apply reallocate_lookup; assumption.
    + rewrite reallocated_value by assumption. exact Hv.
  - apply lookup_ge_None_1 in Hh.
    rewrite nth_overflow by (rewrite Hl; exact Hh).
    unfold fraction.
    match goal with
    | |- context [match ?x with Some _ => _ | None => _ end] =>
        assert (x = None) as ->
    end; [|reflexivity].
    apply lookup_ge_None_2. unfold reallocated, reallocate. cbn [assets].
    rewrite length_zip_with. lia.
Qed.

Lemma reallocated_radicand p d :
  priced (assets p) -> get_value p <> 0 -> length d = num_assets p -> Rsum d = 1 ->
  radicand (reallocated p d) = markowitz_variance p d.
Proof.
  intros Hp Hv Hl Hs. unfold radicand, markowitz_variance.
  rewrite reallocated_num_assets by exact Hl.
  assert (forall i, vol_at (reallocated p d) i = vol_at p i) as Hvol.
  { intros i. unfold vol_at. rewrite reallocated_asset by assumption. reflexivity. }
  assert (forall i j, coupling (reallocated p d) i j = coupling p i j) as Hc.
  { intros i j. unfold coupling. rewrite !reallocated_asset by assumption.
    reflexivity. }
  f_equal.
  - apply Rsum_ext. intros i _.
    rewrite Hvol, reallocated_fraction by assumption. reflexivity.
  - f_equal. apply Rsum_ext. intros i _. apply Rsum_ext. intros j _.
    rewrite Hc, !reallocated_fraction by assumption. reflexivity.
Qed.

End Exact_evaluation.

(** ** The constructor, loop by loop *)

Section Constructor_facts.
Context {A : Arith}.
Variable covariance_with : DataSource -> DataSource -> number.

Implicit Types (sources srcs : list DataSource) (w : World)
  (m : gmap (nat * nat) number).

Lemma with_couplings_same w : with_couplings w (correlations (portfolio w)) = w.
Proof. destruct w as [[? ?] ? ? ?]. reflexivity. Qed.

Lemma add_loop srcs : forall w,
  for_each srcs
    (fun investment =>
       let* p := get_portfolio in
       set_portfolio
         (add_asset (mkAsset (num_assets p) lit_1 (ds_name investment)
                       (ds_volatility investment) (ds_expected_return investment))
            lit_1 p)) w
  = Ok tt (with_holdings w
             (assets (portfolio w)
              ++ imap (fun k d => (asset_of (num_assets (portfolio w) + k) d, lit_1))
                      srcs)).
Proof.
  induction srcs as [|d srcs IH]; intros w.
  - simpl. rewrite app_nil_r. destruct w as [[? ?] ? ? ?]. reflexivity.
  - cbn [for_each]. unfold bind at 1. unfold bind at 1, get_portfolio at 1.
    unfold set_portfolio at 1. rewrite IH.
    unfold with_holdings, add_asset, num_assets. cbn [portfolio assets correlations
      warned heap drawn].
    rewrite <- app_assoc, length_app. cbn [length app imap].
    rewrite Nat.add_0_r. unfold asset_of at 2.
    do 5 f_equal. apply imap_ext. intros k x _. cbn. do 2 f_equal. lia.
Qed.

Lemma couple_pass sources (i j : nat) w :
  assets (portfolio w) = imap (fun k d => (asset_of k d, lit_1)) sources ->
  i < length sources -> j < length sources ->
  (if negb (Nat.eqb i j) then
     let* p := get_portfolio in
     let* ai := not_none (get_asset p i) in
     let* aj := not_none (get_asset p j) in
     match sources !! i, sources !! j with
     | Some di, Some dj =>
         set_portfolio (set_asset_correlation ai aj (covariance_with di dj) p)
     | _, _ => raise IndexError
     end
   else ret tt) w
  = Ok tt (with_couplings w
             (couple covariance_with sources i j (correlations (portfolio w)))).
Proof.
  intros Hassets Hi Hj. unfold couple.
  destruct (Nat.eqb i j) eqn:E; cbn [negb].
  - rewrite with_couplings_same. reflexivity.
  - destruct (lookup_lt_is_Some_2 sources i Hi) as [di Hdi].
    destruct (lookup_lt_is_Some_2 sources j Hj) as [dj Hdj].
    unfold bind, get_portfolio, get_asset. rewrite Hassets.
    rewrite !list_lookup_imap, Hdi, Hdj. cbn.
    unfold set_asset_correlation. cbn [ident asset_of]. rewrite E.
    unfold with_couplings. rewrite Hassets. reflexivity.
Qed.

Lemma couple_row sources (i : nat) (js : list nat) : forall w,
  assets (portfolio w) = imap (fun k d => (asset_of k d, lit_1)) sources ->
  i < length sources -> (forall j, In j js -> j < length sources) ->
  for_each js
    (fun j =>
       if negb (Nat.eqb i j) then
         let* p := get_portfolio in
         let* ai := not_none (get_asset p i) in
         let* aj := not_none (get_asset p j) in
         match sources !! i, sources !! j with
         | Some di, Some dj =>
             set_portfolio (set_asset_correlation ai aj (covariance_with di dj) p)
         | _, _ => raise IndexError
         end
       else ret tt) w
  = Ok tt (with_couplings w
             (fold_left (fun m j => couple covariance_with sources i j m) js
                        (correlations (portfolio w)))).
Proof.
  induction js as [|j js IH]; intros w Hassets Hi Hjs.
  - simpl. rewrite with_couplings_same. reflexivity.
  - cbn [for_each fold_left]. unfold bind at 1.
    rewrite couple_pass by (auto; apply Hjs; left; reflexivity).
    rewrite IH; [reflexivity | exact Hassets | exact Hi |].
    intros j' Hj'. apply Hjs. right. exact Hj'.
Qed.

Lemma couple_rows sources (js : list nat) (rows : list nat) : forall w,
  assets (portfolio w) = imap (fun k d => (asset_of k d, lit_1)) sources ->
  (forall i, In i rows -> i < length sources) ->
  (forall j, In j js -> j < length sources) ->
  for_each rows
    (fun i =>
       for_each js
         (fun j =>
            if negb (Nat.eqb i j) then
              let* p := get_portfolio in
              let* ai := not_none (get_asset p i) in
              let* aj := not_none (get_asset p j) in
              match sources !! i, sources !! j with
              | Some di, Some dj =>
                  set_portfolio (set_asset_correlation ai aj (covariance_with di dj) p)
              | _, _ => raise IndexError
              end
            else ret tt)) w
  = Ok tt (with_couplings w
             (fold_left
                (fun m i => fold_left (fun m j => couple covariance_with sources i j m) js m)
                rows (correlations (portfolio w)))).
Proof.
  induction rows as [|i rows IH]; intros w Hassets His Hjs.
  - simpl. rewrite with_couplings_same. reflexivity.
  - cbn [for_each fold_left]. unfold bind at 1.
    rewrite couple_row by (auto; apply His; left; reflexivity).
    rewrite IH; [reflexivity | exact Hassets | | exact Hjs].
    intros i' Hi'. apply His. right. exact Hi'.
Qed.

(** The dict after one row of the double loop. *)
Lemma couple_row_lookup sources (i : nat) (js : list nat) : forall m (a b : nat),
  i < length sources -> (forall j, j ∈ js -> j < length sources) ->
  fold_left (fun m j => couple covariance_with sources i j m) js m !! (a, b)
  = match sources !! i with
    | Some di =>
        if Nat.eqb a i && negb (Nat.eqb b i) && bool_decide (b ∈ js) then
          match sources !! b with
          | Some db => Some (covariance_with di db)
          | None => m !! (a, b)
          end
        else if Nat.eqb b i && negb (Nat.eqb a i) && bool_decide (a ∈ js) then
          match sources !! a with
          | Some da => Some (covariance_with di da)
          | None => m !! (a, b)
          end
        else m !! (a, b)
    | None => m !! (a, b)
    end.
Proof.
  intros m a b Hi. destruct (lookup_lt_is_Some_2 sources i Hi) as [di Hdi].
  rewrite Hdi. revert m. induction js as [|j js IH]; intros m Hjs.
  - cbn [fold_left]. rewrite !bool_decide_eq_false_2 by apply not_elem_of_nil.
    rewrite !andb_false_r. reflexivity.
  - cbn [fold_left].
    rewrite IH by (intros j' Hj'; apply Hjs; apply list_elem_of_further; exact Hj').
    assert (j < length sources) as Hj by (apply Hjs; apply list_elem_of_here).
    destruct (lookup_lt_is_Some_2 sources j Hj) as [dj Hdj].
    unfold couple. rewrite Hdi, Hdj.
    destruct (Nat.eqb_spec a i) as [->|Hai]; destruct (Nat.eqb_spec b i) as [->|Hbi];
      cbn [negb andb].
    + destruct (Nat.eqb_spec i j) as [->|Hij]; [reflexivity|].
      rewrite !lookup_insert_ne by congruence. reflexivity.
    + destruct (decide (b ∈ js)) as [Hin|Hnin].
      * rewrite (bool_decide_eq_true_2 _ Hin).
        rewrite (bool_decide_eq_true_2 (b ∈ j :: js))
          by (apply list_elem_of_further; exact Hin).
        destruct (lookup_lt_is_Some_2 sources b) as [db ->]; [|reflexivity].
        apply Hjs. apply list_elem_of_further. exact Hin.
      * rewrite (bool_decide_eq_false_2 _ Hnin).
        destruct (Nat.eq_dec b j) as [->|Hbj].
        -- rewrite (bool_decide_eq_true_2 (j ∈ j :: js)) by apply list_elem_of_here.
           rewrite Hdj. apply Nat.eqb_neq in Hbi as E. rewrite Nat.eqb_sym in E.
           rewrite E. rewrite lookup_insert_ne by congruence.
           rewrite lookup_insert_eq. reflexivity.
        -- rewrite (bool_decide_eq_false_2 (b ∈ j :: js))
             by (intros [?|?]%elem_of_cons; congruence).
           destruct (Nat.eqb_spec i j) as [->|Hij]; [reflexivity|].
           rewrite !lookup_insert_ne by congruence. reflexivity.
    + destruct (decide (a ∈ js)) as [Hin|Hnin].
      * rewrite (bool_decide_eq_true_2 _ Hin).
        rewrite (bool_decide_eq_true_2 (a ∈ j :: js))
          by (apply list_elem_of_further; exact Hin).
        destruct (lookup_lt_is_Some_2 sources a) as [da ->]; [|reflexivity].
        apply Hjs. apply list_elem_of_further. exact Hin.
      * rewrite (bool_decide_eq_false_2 _ Hnin).
        destruct (Nat.eq_dec a j) as [->|Haj].
        -- rewrite (bool_decide_eq_true_2 (j ∈ j :: js)) by apply list_elem_of_here.
           rewrite Hdj. apply Nat.eqb_neq in Hai as E. rewrite Nat.eqb_sym in E.
           rewrite E. rewrite lookup_insert_eq. reflexivity.
        -- rewrite (bool_decide_eq_false_2 (a ∈ j :: js))
             by (intros [?|?]%elem_of_cons; congruence).
           destruct (Nat.eqb_spec i j) as [->|Hij]; [reflexivity|].
           rewrite !lookup_insert_ne by congruence. reflexivity.
    + destruct (Nat.eqb_spec i j) as [->|Hij]; [reflexivity|].
      rewrite !lookup_insert_ne by congruence. reflexivity.
Qed.

End Constructor_facts.

Section Constructor_facts_2.
Context {A : Arith}.
Variable covariance_with : DataSource -> DataSource -> number.

Implicit Types (sources srcs : list DataSource) (w : World)
  (m : gmap (nat * nat) number).

Lemma coupled_lookup sources (k : nat) :
  k <= length sources ->
  forall (a b : nat) (da db : DataSource),
  a < b -> sources !! a = Some da -> sources !! b = Some db ->
  let v := if Nat.ltb b k then Some (covariance_with db da)
           else if Nat.ltb a k then Some (covariance_with da db)
           else None in
  coupled covariance_with sources k !! (a, b) = v /\ coupled covariance_with sources k !! (b, a) = v.
Proof.
  induction k as [|k IH]; intros Hk a b da db Hab Ha Hb; cbn zeta.
  - unfold coupled. simpl. rewrite !lookup_empty. split; reflexivity.
  - specialize (IH ltac:(lia) a b da db Hab Ha Hb). cbn zeta in IH.
    destruct IH as [IH1 IH2].
    assert (b < length sources) as Hbn by (eapply lookup_lt_Some; eauto).
    assert (a < length sources) as Han by lia.
    assert (forall j, j ∈ range (length sources) -> j < length sources) as Hjs.
    { intros j Hj. unfold range in Hj. apply elem_of_seq in Hj. lia. }
    assert (forall j, j < length sources -> bool_decide (j ∈ range (length sources)) = true)
      as Hin.
    { intros j Hj. apply bool_decide_eq_true_2. unfold range. apply elem_of_seq. lia. }
    assert (coupled covariance_with sources (S k)
            = fold_left (fun m j => couple covariance_with sources k j m)
                        (range (length sources)) (coupled covariance_with sources k)) as ->.
    { unfold coupled, range. rewrite seq_S, fold_left_app. reflexivity. }
    rewrite !couple_row_lookup by (auto; lia).
    destruct (lookup_lt_is_Some_2 sources k ltac:(lia)) as [dk Hdk]. rewrite Hdk.
    rewrite !Hin by assumption. rewrite !andb_true_r, Ha, Hb, IH1, IH2.
    destruct (Nat.eqb_spec a k) as [->|Hak]; destruct (Nat.eqb_spec b k) as [->|Hbk];
      cbn [negb andb]; try lia.
    + assert (dk = da) as -> by congruence.
      replace (Nat.ltb b (S k)) with false by (symmetry; apply Nat.ltb_ge; lia).
      replace (Nat.ltb k (S k)) with true by (symmetry; apply Nat.ltb_lt; lia).
      split; reflexivity.
    + assert (dk = db) as -> by congruence.
      replace (Nat.ltb k (S k)) with true by (symmetry; apply Nat.ltb_lt; lia).
      split; reflexivity.
    + replace (Nat.ltb b (S k)) with (Nat.ltb b k).
      2:{ destruct (Nat.ltb_spec b k), (Nat.ltb_spec b (S k)); try reflexivity; lia. }
      replace (Nat.ltb a (S k)) with (Nat.ltb a k).
      2:{ destruct (Nat.ltb_spec a k), (Nat.ltb_spec a (S k)); try reflexivity; lia. }
      split; reflexivity.
Qed.

Lemma units_imap (f : nat -> DataSource -> Asset) srcs :
  map snd (imap (fun k d => (f k d, lit_1)) srcs) = repeat lit_1 (length srcs).
Proof.
  revert f. induction srcs as [|d l IH]; intros f; [reflexivity|].
  cbn [imap map snd length repeat]. f_equal. exact (IH (fun k => f (S k))).
Qed.

Lemma normalise_loop (norm : number) (rest : list (Asset * number)) :
  fis_zero norm = false ->
  forall (done : list (Asset * number)) w,
  assets (portfolio w) = done ++ rest ->
  for_each (seq (length done) (length rest))
    (fun i =>
       let* q := py_div lit_1 norm in
       let* p := get_portfolio in
       set_portfolio (set_asset_number q i p)) w
  = Ok tt (with_holdings w
             (done ++ map (fun h => (fst h, fdiv lit_1 norm)) rest)).
Proof.
  intros Hz. induction rest as [|h rest IH]; intros done w Hw.
  - simpl. unfold with_holdings. rewrite <- Hw. destruct w as [[? ?] ? ? ?]. reflexivity.
  - cbn [length seq for_each]. unfold bind at 1. unfold bind at 1. unfold py_div at 1.
    rewrite Hz. unfold ret at 1. unfold bind at 1. unfold get_portfolio at 1.
    unfold set_portfolio at 1. unfold set_asset_number.
    rewrite Hw. rewrite list_lookup_middle by reflexivity. destruct h as [a q0].
    cbn [correlations].
    specialize (IH (done ++ [(a, fdiv lit_1 norm)])).
    rewrite length_app in IH. cbn [length] in IH. rewrite Nat.add_1_r in IH.
    rewrite IH.
    + unfold with_holdings. cbn [portfolio correlations warned heap drawn map fst].
      rewrite <- app_assoc. reflexivity.
    + cbn [portfolio assets]. rewrite insert_app_r_alt by lia.
      rewrite Nat.sub_diag. cbn. rewrite <- app_assoc. reflexivity.
Qed.

End Constructor_facts_2.

(** ** Counting the samples of the pair scan *)

Section Scan_counts.
Context {A : Arith}.

Lemma pairs_count (k a : nat) :
  2 * list_sum (map (fun i => a + k - i) (seq a k)) = k * (k + 1).
Proof.
  revert a. induction k as [|k IH]; intros a; [reflexivity|].
  cbn [seq map]. change (list_sum (?x :: ?l)) with (x + list_sum l).
  rewrite (map_ext_in _ (fun i => S a + k - i)) by (intros i _; lia).
  specialize (IH (S a)). nia.
Qed.

End Scan_counts.

(** ** Time series *)

Section Series_facts.
Context {A : Arith} {N : Numeric A}.

Lemma relative_returns_loop (history : list number) (w : World) :
  forall (rest pre : list number) (cur : number) (acc : list number),
  history = pre ++ cur :: rest ->
  for_acc (seq (Datatypes.length pre) (Datatypes.length rest))
    (fun rel_returns i =>
       match history !! (i + 1), history !! i with
       | Some next, Some cur =>
           let* q := py_div (next [-] cur) cur in
           ret (rel_returns ++ [q])
       | _, _ => raise IndexError
       end)
    acc w
  = if divisible (cur :: rest)
    then Ok (acc ++ returns_of (cur :: rest)) w
    else Raise ZeroDivisionError w.
Proof.
  induction rest as [|next rest IH]; intros pre cur acc Hh.
  - simpl. rewrite app_nil_r. reflexivity.
  - cbn [Datatypes.length seq for_acc]. unfold bind at 1.
    assert (history !! Datatypes.length pre = Some cur) as Hc.
    { rewrite Hh. apply list_lookup_middle. reflexivity. }
    assert (history !! (Datatypes.length pre + 1) = Some next) as Hn.
    { rewrite Hh. rewrite lookup_app_r by lia.
      replace (Datatypes.length pre + 1 - Datatypes.length pre) with 1 by lia.
      reflexivity. }
    rewrite Hc, Hn. unfold bind at 1. unfold py_div at 1.
    unfold divisible. cbn [removelast forallb].
    destruct (fis_zero cur) eqn:Hz; cbn [negb andb]; [reflexivity|].
    unfold ret at 1. unfold ret at 1.
    specialize (IH (pre ++ [cur]) next (acc ++ [fdiv (next [-] cur) cur])).
    rewrite length_app in IH. cbn [Datatypes.length] in IH.
    rewrite Nat.add_1_r in IH. rewrite IH by (rewrite Hh, <- app_assoc; reflexivity).
    unfold divisible. destruct (forallb _ _); [|reflexivity].
    unfold returns_of. cbn [tail zip_with]. rewrite <- app_assoc. reflexivity.
Qed.

Lemma relative_returns_spec (history : list number) (w : World) :
  TimeSeries.relative_returns history w
  = if divisible history then Ok (returns_of history) w
    else Raise ZeroDivisionError w.
Proof.
  unfold TimeSeries.relative_returns.
  destruct history as [|x [|y rest]]; [reflexivity..|].
  cbn [Datatypes.length Nat.ltb Nat.leb]. unfold range.
  replace (S (S (Datatypes.length rest)) - 1) with (Datatypes.length (y :: rest))
    by (simpl; lia).
  apply (relative_returns_loop (x :: y :: rest) w (y :: rest) [] x []).
  reflexivity.
Qed.

Lemma returns_of_length (history : list number) :
  Datatypes.length (returns_of history) = Datatypes.length history - 1.
Proof.
  unfold returns_of. rewrite length_zip_with.
  destruct history as [|x l]; [reflexivity|]. cbn [tail Datatypes.length].
  rewrite Nat.min_r by lia. lia.
Qed.

End Series_facts.

Section Series_facts_2.
Context {A : Arith} {N : Numeric A}.

Lemma expected_return_spec (history : list number) (w : World) :
  TimeSeries.expected_return history w
  = if divisible history then
      if Nat.ltb 0 (length (returns_of history)) then
        py_div (fold_left fadd (returns_of history) lit_0)
               (of_int (length (returns_of history))) w
      else Ok fnan w
    else Raise ZeroDivisionError w.
Proof.
  unfold TimeSeries.expected_return, bind. rewrite relative_returns_spec.
  destruct (divisible history); [|reflexivity].
  destruct (Nat.ltb 0 _); reflexivity.
Qed.

Lemma expected_return_cases (history : list number) (w : World) :
  (exists v, TimeSeries.expected_return history w = Ok v w)
  \/ TimeSeries.expected_return history w = Raise ZeroDivisionError w.
Proof.
  rewrite expected_return_spec. destruct (divisible history); [|right; reflexivity].
  destruct (Nat.ltb 0 _); [|left; eexists; reflexivity].
  unfold py_div. destruct (fis_zero _); [right | left; eexists]; reflexivity.
Qed.

Lemma products_loop (xs ys : list number) (idx : list nat) :
  forall (acc : number) (w : World),
  (forall i, In i idx -> i < length xs /\ i < length ys) ->
  for_acc idx
    (fun avg_corr i =>
       match xs !! i, ys !! i with
       | Some x, Some y => ret (avg_corr [+] x [*] y)
       | _, _ => raise IndexError
       end)
    acc w
  = Ok (fold_left
          (fun avg_corr i =>
             avg_corr [+] nth i xs lit_0 [*] nth i ys lit_0) idx acc) w.
Proof.
  induction idx as [|i idx IH]; intros acc w H; [reflexivity|].
  cbn [for_acc fold_left]. unfold bind at 1.
  destruct (H i (or_introl eq_refl)) as [Hx Hy].
  destruct (lookup_lt_is_Some_2 xs i Hx) as [x Ex].
  destruct (lookup_lt_is_Some_2 ys i Hy) as [y Ey].
  rewrite Ex, Ey. unfold ret at 1.
  rewrite (nth_lookup_Some _ _ _ _ Ex), (nth_lookup_Some _ _ _ _ Ey).
  apply IH. intros j Hj. apply H. right. exact Hj.
Qed.

Lemma correlation_with_spec (history other : list number) (w : World) :
  length history = length other -> 2 <= length history ->
  TimeSeries.correlation_with history other w
  = (if divisible history && divisible other then
       let* q :=
         py_div (fold_left
                   (fun avg_corr i =>
                      avg_corr [+] nth i (returns_of history) lit_0
                               [*] nth i (returns_of other) lit_0)
                   (range (length history - 1)) lit_0)
                (of_int (length history - 1)) in
       let* e1 := TimeSeries.expected_return history in
       let* e2 := TimeSeries.expected_return other in
       ret (q [-] e1 [*] e2)
     else raise ZeroDivisionError) w.
Proof.
  intros Hl H2. unfold TimeSeries.correlation_with, TimeSeries.length.
  rewrite <- Hl, Nat.eqb_refl.
  replace (Nat.ltb (length history) 2) with false by (symmetry; apply Nat.ltb_ge; lia).
  cbn [negb orb]. unfold bind at 1. rewrite relative_returns_spec.
  destruct (divisible history); [|reflexivity]. cbn [andb].
  unfold bind at 1. rewrite relative_returns_spec.
  destruct (divisible other); [|reflexivity].
  rewrite returns_of_length.
  unfold bind at 1. unfold bind at 3.
  rewrite products_loop; [reflexivity|].
  intros i Hi%in_range. rewrite !returns_of_length. lia.
Qed.

End Series_facts_2.

Section Series_facts_3.
Context {A : Arith} {N : Numeric A}.

Lemma squares_loop (sq : number -> number) (m : number) (rs : list number) :
  (forall x, fpow2 x = Some (sq x)) ->
  forall (acc : number) (w : World),
  for_acc rs
    (fun avg_vol curr_val =>
       let* s := py_pow2 (curr_val [-] m) in ret (avg_vol [+] s))
    acc w
  = Ok (fold_left (fun avg_vol curr_val => avg_vol [+] sq (curr_val [-] m)) rs acc) w.
Proof.
  intros Hsq. induction rs as [|r rs IH]; intros acc w; [reflexivity|].
  cbn [for_acc fold_left]. unfold bind at 1. unfold bind at 1. unfold py_pow2 at 1.
  rewrite Hsq. unfold ret at 1. unfold ret at 1. apply IH.
Qed.

Lemma products_symmetric (xs ys : list number) (idx : list nat) (acc : number) :
  (forall x y : number, x [*] y = y [*] x) ->
  fold_left (fun avg_corr i => avg_corr [+] nth i xs lit_0 [*] nth i ys lit_0) idx acc
  = fold_left (fun avg_corr i => avg_corr [+] nth i ys lit_0 [*] nth i xs lit_0) idx acc.
Proof.
  intros Hc. apply fold_left_ext. intros s i _. rewrite Hc. reflexivity.
Qed.

Lemma correlation_with_guard (history other : list number) (w : World) :
  length history <> length other \/ length history <= 1 ->
  TimeSeries.correlation_with history other w = Ok lit_0 w.
Proof.
  intros H. unfold TimeSeries.correlation_with, TimeSeries.length.
  destruct (Nat.eqb_spec (length history) (length other)) as [E|E]; cbn [negb orb].
  - destruct H as [H|H]; [contradiction|].
    replace (Nat.ltb (length history) 2) with true; [reflexivity|].
    symmetry. apply Nat.ltb_lt. lia.
  - reflexivity.
Qed.

End Series_facts_3.

Section Exact_series.
Local Open Scope R_scope.
Variable undefined : R.

Implicit Types (history r : list R) (w : @World Exact).

Lemma py_div_exact (x y : R) w :
  y <> 0 -> py_div (A:=Exact) x y w = Ok (x / y) w.
Proof.
  intros Hy. unfold py_div.
  replace (@fis_zero Exact y) with false by (symmetry; apply fis_zero_exact; exact Hy).
  reflexivity.
Qed.

Lemma expected_return_exact history w :
  divisible (A:=Exact) history = true -> (2 <= length history)%nat ->
  TimeSeries.expected_return (A:=Exact) (N:=Exact_numeric undefined) history w
  = Ok (Rsum (returns_of (A:=Exact) history)
        / INR (length (returns_of (A:=Exact) history))) w.
Proof.
  intros Hd Hl. rewrite expected_return_spec, Hd.
  assert ((0 < length (returns_of (A:=Exact) history))%nat) as Hpos
    by (rewrite returns_of_length; change (@number Exact) with R in *; lia).
  replace (Nat.ltb 0 (length (returns_of (A:=Exact) history))) with true
    by (symmetry; apply Nat.ltb_lt; exact Hpos).
  cbn [of_int Exact_numeric].
  rewrite py_div_exact by (apply not_0_INR, Nat.neq_0_lt_0; exact Hpos).
  cbn [fadd lit_0 Exact]. rewrite fold_left_Rplus, Rplus_0_l. reflexivity.
Qed.

Lemma sum_of_deviations (m : R) r :
  Rsum (map (fun x => (x - m) * (x - m)) r)
  = Rsum (map (fun x => x * x) r) - 2 * m * Rsum r + INR (length r) * (m * m).
Proof.
  induction r as [|x r IH]; [simpl; lra|].
  cbn [map Rsum fold_right]. fold (Rsum (map (fun x => (x - m) * (x - m)) r)).
  fold (Rsum (map (fun x => x * x) r)). fold (Rsum r).
  rewrite IH. change (length (x :: r)) with (S (length r)). rewrite S_INR. lra.
Qed.

Lemma Rsum_squares_nonneg (m : R) r :
  0 <= Rsum (map (fun x => (x - m) * (x - m)) r).
Proof.
  induction r as [|x r IH]; [simpl; lra|].
  cbn [map Rsum fold_right]. fold (Rsum (map (fun x => (x - m) * (x - m)) r)).
  pose proof (Rle_0_sqr (x - m)) as H. unfold Rsqr in H. lra.
Qed.

End Exact_series.

(** ** The product of binary64 *)

Section Float_product.

Lemma SFmul_comm (prec emax : Z) (x y : spec_float) :
  SFmul prec emax x y = SFmul prec emax y x.
Proof.
  destruct x as [sx|sx| |sx mx ex], y as [sy|sy| |sy my ey]; cbn [SFmul];
    rewrite ?(xorb_comm sx sy), ?(Pos.mul_comm mx my), ?(Z.add_comm ex ey);
    reflexivity.
Qed.

Lemma float_mul_comm (x y : float) : PrimFloat.mul x y = PrimFloat.mul y x.
Proof.
  apply Prim2SF_inj. rewrite !mul_spec. apply SFmul_comm.
Qed.

End Float_product.

(** ** The outcomes of the readers *)

Section Outcomes.
Context {A : Arith}.

Lemma value_warnings_app (p : Portfolio) (ws ws' : list string) :
  value_warnings p ws -> value_warnings p ws' -> value_warnings p (ws ++ ws').
Proof. unfold value_warnings. rewrite Forall_app. auto. Qed.

Lemma value_warnings_quiet (p : Portfolio) (ws : list string) :
  value_warnings p ws -> fis_zero (get_value p) = false -> ws = [].
Proof.
  intros H Hz. destruct ws as [|s ws]; [reflexivity|].
  apply Forall_inv in H as [_ H]. congruence.
Qed.

Lemma reads_value_ret {T} (v : T) (p : Portfolio) : reads_value (ret v) p v.
Proof.
  intros w _. exists []. split; [constructor|].
  rewrite add_warnings_nil. reflexivity.
Qed.

Lemma reads_value_bind {T U} (m : Py T) (k : T -> Py U) (p : Portfolio) (v : T) (u : U) :
  reads_value m p v -> reads_value (k v) p u -> reads_value (bind m k) p u.
Proof.
  intros Hm Hk w Hw. destruct (Hm w Hw) as (ws & Hq & E). unfold bind. rewrite E.
  destruct (Hk (add_warnings w ws) Hw) as (ws' & Hq' & E'). rewrite E'.
  exists (ws ++ ws'). split; [apply value_warnings_app; assumption|].
  rewrite add_warnings_app. reflexivity.
Qed.

Lemma reads_value_for_acc {X S} (xs : list X) (body : S -> X -> Py S)
  (g : S -> X -> S) (p : Portfolio) :
  (forall s x, In x xs -> reads_value (body s x) p (g s x)) ->
  forall s, reads_value (for_acc xs body s) p (fold_left g xs s).
Proof.
  induction xs as [|x xs IH]; intros Hb s; simpl.
  - apply reads_value_ret.
  - eapply reads_value_bind; [apply Hb; left; reflexivity|].
    apply IH. intros s' x' Hx'. apply Hb. right. exact Hx'.
Qed.

Lemma reads_value_fraction (p : Portfolio) (i : nat) :
  i < num_assets p -> reads_value (get_asset_fractional_value i) p (fraction p i).
Proof.
  intros Hi w Hw. subst p. apply lookup_lt_is_Some_2 in Hi as [[a q] Hl].
  unfold get_asset_fractional_value, try_except, get_asset_value, bind,
    get_portfolio, get_asset, get_asset_number, fraction, py_div.
  rewrite Hl. simpl.
  destruct (fis_zero (get_value (portfolio w))) eqn:Hz.
  - simpl. exists ["Portfolio value problem."]. split; [|reflexivity].
    repeat constructor. exact Hz.
  - exists []. split; [constructor|]. rewrite add_warnings_nil. reflexivity.
Qed.

Lemma reads_value_asset (p : Portfolio) (i : nat) (a : Asset) :
  get_asset p i = Some a -> reads_value (not_none (get_asset p i)) p a.
Proof. intros ->. apply reads_value_ret. Qed.

Lemma add_square_none (p : Portfolio) (xs : list nat) :
  fold_left (add_square p) xs None = None.
Proof. induction xs as [|x xs IH]; [reflexivity | exact IH]. Qed.

(** The first loop of [get_volatility], overflow included. *)
Lemma squares_sum_loop (p : Portfolio) (xs : list nat) :
  (forall i, In i xs -> i < num_assets p) ->
  forall (t : number) (w : World), portfolio w = p ->
  exists ws,
    value_warnings p ws
    /\ for_acc xs
         (fun total i =>
            let* a := not_none (get_asset p i) in
            let* f := get_asset_fractional_value i in
            let* sq := py_pow2 (volatility a [*] f) in
            ret (total [+] sq))
         t w
       = match fold_left (add_square p) xs (Some t) with
         | Some t' => Ok t' (add_warnings w ws)
         | None => Raise OverflowError (add_warnings w ws)
         end.
Proof.
  induction xs as [|i xs IH]; intros Hin t w Hw.
  - exists []. split; [constructor|]. simpl. rewrite add_warnings_nil. reflexivity.
  - cbn [for_acc fold_left]. unfold bind at 1. unfold bind at 1.
    assert (i < num_assets p) as Hi by (apply Hin; left; reflexivity).
    destruct (get_asset_is_Some p i Hi) as [a Ha]. rewrite Ha. cbn [not_none].
    unfold ret at 1. unfold bind at 1.
    destruct (reads_value_fraction p i Hi w Hw) as (ws1 & Hws1 & E1). rewrite E1.
    unfold bind at 1. unfold py_pow2 at 1. unfold add_square at 2.
    unfold vol_at. rewrite Ha.
    destruct (fpow2 (volatility a [*] fraction p i)) as [sq|].
    + unfold ret at 1 2.
      destruct (IH (fun j Hj => Hin j (or_intror Hj)) (t [+] sq) (add_warnings w ws1) Hw)
        as (ws2 & Hws2 & E2).
      rewrite E2. exists (ws1 ++ ws2).
      split; [apply value_warnings_app; assumption|].
      rewrite !add_warnings_app. reflexivity.
    + rewrite add_square_none. exists ws1. split; [exact Hws1 | reflexivity].
Qed.

(** Its second loop. *)
Lemma reads_couplings (p : Portfolio) (t : number) :
  reads_value
    (for_acc (range (num_assets p))
       (fun total i =>
          for_acc (range2 i (num_assets p))
            (fun total j =>
               let* ai := not_none (get_asset p i) in
               let* aj := not_none (get_asset p j) in
               let c := get_asset_correlation p ai aj in
               let* fi := get_asset_fractional_value i in
               let* fj := get_asset_fractional_value j in
               ret (total [+] lit_2 [*] c [*] fi [*] fj))
            total)
       t)
    p (couplings_sum p t).
Proof.
  unfold couplings_sum.
  apply reads_value_for_acc
    with (g := fun total i =>
                 fold_left (coupling_step p i) (range2 i (num_assets p)) total).
  intros s i Hi%in_range.
  apply reads_value_for_acc with (g := coupling_step p i).
  intros s' j Hj%in_range2.
  destruct (get_asset_is_Some p i Hi) as [a Ha].
  destruct (get_asset_is_Some p j ltac:(lia)) as [b Hb].
  eapply reads_value_bind; [apply reads_value_asset; exact Ha|].
  eapply reads_value_bind; [apply reads_value_asset; exact Hb|].
  eapply reads_value_bind; [apply reads_value_fraction; exact Hi|].
  eapply reads_value_bind; [apply reads_value_fraction; lia|].
  unfold coupling_step, coupling. rewrite Ha, Hb. apply reads_value_ret.
Qed.

(** [get_volatility], whatever the portfolio. *)
Lemma get_volatility_outcome (w : World) :
  exists ws,
    value_warnings (portfolio w) ws
    /\ get_volatility w
       = match volatility_of (portfolio w) with
         | inr v => Ok v (add_warnings w ws)
         | inl e => Raise e (add_warnings w ws)
         end.
Proof.
  set (p := portfolio w). unfold get_volatility, volatility_of.
  unfold bind at 1. unfold get_portfolio at 1. fold p.
  destruct (Nat.eqb (num_assets p) 0) eqn:Hn.
  - exists []. split; [constructor|]. rewrite add_warnings_nil. reflexivity.
  - unfold bind at 1.
    destruct (squares_sum_loop p (range (num_assets p)) (fun i Hi => in_range _ _ Hi)
                lit_0 w eq_refl) as (ws1 & Hws1 & E1).
    rewrite E1. fold (squares_sum p).
    destruct (squares_sum p) as [t|].
    + cbv beta iota. unfold bind at 1.
      destruct (reads_couplings p t (add_warnings w ws1) eq_refl) as (ws2 & Hws2 & E2).
      cbv zeta in E2. rewrite E2. rewrite add_warnings_app.
      exists (ws1 ++ ws2). split; [apply value_warnings_app; assumption|].
      unfold py_sqrt. destruct (fsqrt (couplings_sum p t)); reflexivity.
    + exists ws1. split; [exact Hws1 | reflexivity].
Qed.

Lemma get_expected_return_outcome (w : World) :
  exists ws,
    value_warnings (portfolio w) ws
    /\ get_expected_return w
       = Ok (expected_return_of (portfolio w)) (add_warnings w ws).
Proof.
  set (p := portfolio w).
  assert (reads_value get_expected_return p (expected_return_of p)) as H.
  { unfold get_expected_return.
    eapply reads_value_bind.
    - intros u Hu. exists []. split; [constructor|].
      rewrite add_warnings_nil. unfold get_portfolio. rewrite Hu. reflexivity.
    - apply reads_value_for_acc. intros s i Hi%in_range.
      destruct (get_asset_is_Some p i Hi) as [a Ha].
      eapply reads_value_bind; [apply reads_value_asset; exact Ha|].
      eapply reads_value_bind; [apply reads_value_fraction; exact Hi|].
      unfold return_step, return_at. rewrite Ha. apply reads_value_ret. }
  apply H. reflexivity.
Qed.

(** [set_asset_distribution] on a target that is not empty. *)
Lemma set_asset_distribution_outcome (d : list number) (w : World) :
  d <> [] ->
  set_asset_distribution d w
  = Ok tt (moved w (settled (portfolio w) d) (settle_warnings (portfolio w) d)).
Proof.
  intros Hd. destruct d as [|x xs]; [congruence|].
  unfold settled, settle_warnings, total_of. cbn [hd tail].
  destruct (Nat.eqb (length (x :: xs)) (num_assets (portfolio w))) eqn:Hlen;
    cbn [negb andb].
  - apply Nat.eqb_eq in Hlen.
    destruct (float_eq (fold_left fadd xs x) lit_1) eqn:Heq.
    + rewrite (set_asset_distribution_accepts _ (fold_left fadd xs x));
        [reflexivity | exact Hlen | reflexivity | exact Heq].
    + rewrite (set_asset_distribution_not_normalized _ (fold_left fadd xs x));
        [|exact Hlen | reflexivity | exact Heq].
      unfold add_warnings, moved. destruct w as [[? ?] ? ? ?]. reflexivity.
  - apply Nat.eqb_neq in Hlen.
    rewrite set_asset_distribution_wrong_length by exact Hlen.
    unfold add_warnings, moved. destruct w as [[? ?] ? ? ?]. reflexivity.
Qed.

Lemma settled_num_assets (p : Portfolio) (d : list number) :
  num_assets (settled p d) = num_assets p.
Proof.
  unfold settled.
  destruct (Nat.eqb (length d) (num_assets p)) eqn:Hlen; [|reflexivity].
  destruct (float_eq (total_of d) lit_1); [|reflexivity].
  apply Nat.eqb_eq in Hlen. unfold num_assets, reallocate in *. cbn [assets andb].
  rewrite length_zip_with. lia.
Qed.

(** A distribution that is not empty, set and read: the outcome of
    [evaluate_at]. *)
Lemma evaluate_at_outcome (d : list number) (w : World) :
  d <> [] ->
  exists ws,
    value_warnings (settled (portfolio w) d) ws
    /\ evaluate_at d w
       = match volatility_of (settled (portfolio w) d) with
         | inr v =>
             Ok (v, expected_return_of (settled (portfolio w) d))
                (moved w (settled (portfolio w) d)
                   (settle_warnings (portfolio w) d ++ ws))
         | inl e =>
             Raise e (moved w (settled (portfolio w) d)
                        (settle_warnings (portfolio w) d ++ ws))
         end.
Proof.
  intros Hd. unfold evaluate_at. unfold bind at 1.
  rewrite set_asset_distribution_outcome by exact Hd.
  set (p' := settled (portfolio w) d).
  set (w1 := moved w p' _).
  destruct (get_volatility_outcome w1) as (ws1 & Hws1 & E1).
  change (portfolio w1) with p' in *.
  unfold bind at 1. rewrite E1.
  destruct (volatility_of p') as [e|v].
  - exists ws1. split; [exact Hws1|].
    unfold add_warnings, w1, moved. cbn. rewrite <- app_assoc. reflexivity.
  - destruct (get_expected_return_outcome (add_warnings w1 ws1)) as (ws2 & Hws2 & E2).
    change (portfolio (add_warnings w1 ws1)) with p' in *.
    unfold bind at 1. rewrite E2. unfold ret.
    exists (ws1 ++ ws2). split; [apply value_warnings_app; assumption|].
    unfold add_warnings, w1, moved. cbn. rewrite <- !app_assoc. reflexivity.
Qed.

End Outcomes.

(** ** The units of binary64

    What the shares of a single holding need: [1.0 * x] is [x],
    [x / x] is 1.0 for a finite [x] other than zero, adding 0.0 changes
    no number but the negative zero, and a square is not negative. *)

Section Float_units.
Local Open Scope Z_scope.

Lemma digits_shift_52 (m : positive) :
  Z.pos (digits2_pos (Pos.mul 4503599627370496 m)) = Z.pos (digits2_pos m) + 52.
Proof.
  let t := eval vm_compute in (fun m => Pos.mul 4503599627370496 m) in
  change (Pos.mul 4503599627370496 m) with (t m).
  cbv beta. cbn [digits2_pos]. rewrite !Pos2Z.inj_succ. lia.
Qed.

Lemma iter_shr_52 (m : positive) :
  SpecFloat.iter_pos shr_1 52%positive
    {| shr_m := Z.pos (Pos.mul 4503599627370496 m); shr_r := false; shr_s := false |}
  = {| shr_m := Z.pos m; shr_r := false; shr_s := false |}.
Proof. reflexivity. Qed.

Lemma float_mul_1_l (x : float) : PrimFloat.mul 1 x = x.
Proof.
  apply FloatAxioms.Prim2SF_inj. rewrite FloatAxioms.mul_spec.
  pose proof (FloatAxioms.Prim2SF_valid x) as Hv.
  change (Prim2SF 1) with (S754_finite false 4503599627370496 (-52)).
  destruct (Prim2SF x) as [s|s| |s m e]; try reflexivity.
  unfold SF64mul. cbn [SFmul xorb].
  unfold valid_binary, bounded, canonical_mantissa in Hv.
  apply andb_prop in Hv as [Hc Hb]. apply Z.eqb_eq in Hc.
  unfold binary_round_aux.
  unfold shr_fexp at 1. unfold Zdigits2 at 1. rewrite digits_shift_52.
  replace (Z.pos (digits2_pos m) + 52 + (-52 + e)) with (Z.pos (digits2_pos m) + e) by lia.
  rewrite Hc. replace (e - (-52 + e)) with 52 by lia.
  unfold shr_record_of_loc. unfold shr at 1. rewrite iter_shr_52.
  cbn [shr_m loc_of_shr_record round_nearest_even].
  unfold shr_fexp. cbn [Zdigits2].
  replace (-52 + e + 52) with e by lia. rewrite Hc, Z.sub_diag.
  cbn [shr_record_of_loc shr shr_m].
  rewrite Hb. reflexivity.
Qed.

Lemma float_div_same (x : float) (s : bool) (m : positive) (e : Z) :
  Prim2SF x = S754_finite s m e -> PrimFloat.div x x = 1%float.
Proof.
  intros Hx. apply FloatAxioms.Prim2SF_inj. rewrite FloatAxioms.div_spec, Hx.
  unfold SF64div. cbn [SFdiv]. unfold SFdiv_core_binary.
  rewrite !Z.sub_diag.
  change (fexp prec emax 0) with (-53).
  change (Z.min (-53) 0) with (-53). change (0 - -53) with 53.
  cbv beta iota zeta.
  rewrite Z.shiftl_mul_pow2 by lia.
  destruct (Z.div_eucl (Z.pos m * 2 ^ 53) (Z.pos m)) as [q r] eqn:E.
  assert (q = 2 ^ 53) as ->.
  { transitivity (Z.pos m * 2 ^ 53 / Z.pos m).
    - unfold Z.div. rewrite E. reflexivity.
    - rewrite Z.mul_comm. apply Z.div_mul. lia. }
  assert (r = 0) as ->.
  { transitivity ((Z.pos m * 2 ^ 53) mod Z.pos m).
    - unfold Z.modulo. rewrite E. reflexivity.
    - rewrite Z.mul_comm. apply Z.mod_mul. lia. }
  replace (new_location (Z.pos m) 0) with loc_Exact
    by (unfold new_location; destruct (Z.even (Z.pos m)); reflexivity).
  destruct s; reflexivity.
Qed.

Lemma float_add_0_l (x : float) :
  Prim2SF x <> S754_zero true -> PrimFloat.add 0 x = x.
Proof.
  intros Hx. apply FloatAxioms.Prim2SF_inj. rewrite FloatAxioms.add_spec.
  change (Prim2SF 0) with (S754_zero false).
  destruct (Prim2SF x) as [[]|[]| |s m e]; try reflexivity. congruence.
Qed.

Lemma float_add_0_r (x : float) :
  Prim2SF x <> S754_zero true -> PrimFloat.add x 0 = x.
Proof.
  intros Hx. apply FloatAxioms.Prim2SF_inj. rewrite FloatAxioms.add_spec.
  change (Prim2SF 0) with (S754_zero false).
  destruct (Prim2SF x) as [[]|[]| |s m e]; try reflexivity. congruence.
Qed.

Lemma binary_round_aux_sign (mx ex : Z) (lx : location) :
  SFnot_negative (binary_round_aux prec emax false mx ex lx).
Proof.
  unfold binary_round_aux.
  destruct (shr_fexp prec emax mx ex lx) as [mrs' e'].
  destruct (shr_fexp prec emax _ e' loc_Exact) as [mrs'' e''].
  destruct (shr_m mrs'') as [|p|p]; [reflexivity | | exact I].
  destruct (e'' <=? emax - prec); reflexivity.
Qed.

Lemma float_square_sign (x : float) : SFnot_negative (Prim2SF (PrimFloat.mul x x)).
Proof.
  rewrite FloatAxioms.mul_spec. unfold SF64mul.
  destruct (Prim2SF x) as [s|s| |s m e]; cbn [SFmul]; try exact I;
    try (destruct s; reflexivity).
  rewrite xorb_nilpotent. apply binary_round_aux_sign.
Qed.

Lemma SFnot_negative_zero (x : spec_float) :
  SFnot_negative x -> x <> S754_zero true.
Proof. intros H ->. discriminate H. Qed.

Lemma float_not_below_zero (x : float) :
  SFnot_negative (Prim2SF x) -> PrimFloat.ltb x 0 = false.
Proof.
  intros H. rewrite FloatAxioms.ltb_spec.
  change (Prim2SF 0) with (S754_zero false).
  destruct (Prim2SF x) as [s|s| |s m e]; try reflexivity;
    cbn in H; subst s; reflexivity.
Qed.

(** A number that is finite and not zero, on its specification. *)
Lemma float_finite_nonzero (x : float) :
  PrimFloat.is_finite x = true -> PrimFloat.eqb x 0 = false ->
  exists s m e, Prim2SF x = S754_finite s m e.
Proof.
  unfold is_finite, is_nan, is_infinity.
  rewrite !FloatAxioms.eqb_spec, FloatAxioms.abs_spec.
  change (Prim2SF 0) with (S754_zero false).
  change (Prim2SF infinity) with (S754_infinity false).
  destruct (Prim2SF x) as [s|s| |s m e]; cbn; try discriminate.
  - destruct s; discriminate.
  - intros _ _. eauto.
Qed.

End Float_units.

(** ** A single holding in binary64 *)

Section Single_holding.

Implicit Types (w : @World Float64) (a : @Asset Float64) (q : float).

(** The share of a single holding of finite value other than zero is
    1.0, and its volatility is the root of the rounded square of the
    asset's volatility. *)
Lemma volatility_of_single (p : @Portfolio Float64) a q :
  assets p = [(a, q)] ->
  no_self_coupling p ->
  PrimFloat.is_finite (PrimFloat.mul (price a) q) = true ->
  PrimFloat.eqb (PrimFloat.mul (price a) q) 0 = false ->
  get_value p = PrimFloat.mul (price a) q
  /\ fraction p 0 = 1%float
  /\ volatility_of p
     = match @fpow2 Float64 (volatility a) with
       | Some y => inr (PrimFloat.sqrt y)
       | None => inl OverflowError
       end.
Proof.
  intros Ha Hself Hfin Hnz.
  destruct (float_finite_nonzero _ Hfin Hnz) as (s & m & e & Hv).
  assert (get_value p = PrimFloat.mul (price a) q) as Hval.
  { unfold get_value. rewrite Ha. cbn [fold_left fst snd].
    cbn [fadd fmul lit_0 Float64]. apply float_add_0_l. rewrite Hv. discriminate. }
  assert (fraction p 0 = 1%float) as Hfr.
  { unfold fraction. rewrite Ha. cbn [lookup list_lookup].
    rewrite Hval. cbn [fis_zero fdiv fmul Float64]. rewrite Hnz.
    eapply float_div_same. exact Hv. }
  split; [exact Hval|]. split; [exact Hfr|].
  unfold volatility_of, squares_sum, couplings_sum, num_assets. rewrite Ha.
  cbn [length Nat.eqb range range2 seq Nat.sub fold_left add_square].
  unfold coupling_step, coupling, vol_at, get_asset. rewrite Ha, Hfr.
  cbn [lookup list_lookup fmap option_fmap option_map fst].
  unfold get_asset_correlation. rewrite !Hself.
  cbn [fmul fadd lit_0 lit_2 Float64].
  rewrite (float_mul_comm (volatility a) 1), float_mul_1_l.
  cbn [fpow2 Float64].
  destruct (PrimFloat.is_finite (volatility a)
            && PrimFloat.is_infinity (PrimFloat.mul (volatility a) (volatility a)));
    [reflexivity|].
  change (PrimFloat.mul (PrimFloat.mul (PrimFloat.mul 2 0) 1) 1) with 0%float.
  pose proof (float_square_sign (volatility a)) as Hsq.
  rewrite float_add_0_l by (apply SFnot_negative_zero; exact Hsq).
  rewrite float_add_0_r by (apply SFnot_negative_zero; exact Hsq).
  cbn [fsqrt Float64]. rewrite float_not_below_zero by exact Hsq. reflexivity.
Qed.

End Single_holding.

Section Exact_outcome.
Local Open Scope R_scope.

Lemma squares_sum_total {A : Arith} (sq : number -> number) (p : Portfolio) :
  (forall x, fpow2 x = Some (sq x)) ->
  squares_sum p = Some (fold_left (squares_step p sq) (range (num_assets p)) lit_0).
Proof.
  intros Hsq. unfold squares_sum. generalize (range (num_assets p)), lit_0.
  intros xs. induction xs as [|i xs IH]; intros t; [reflexivity|].
  cbn [fold_left]. unfold add_square at 2. rewrite Hsq. apply IH.
Qed.

(** The volatility in exact arithmetic: the root of the radicand of the
    documentation, an error when that is negative. *)
Lemma volatility_of_exact (p : @Portfolio Exact) :
  no_self_coupling p ->
  volatility_of p
  = if Rlt_dec (radicand p) 0 then inl ValueError else inr (sqrt (radicand p)).
Proof.
  intros Hself. unfold volatility_of.
  destruct (Nat.eqb (num_assets p) 0) eqn:Hn.
  - apply Nat.eqb_eq in Hn. unfold radicand. rewrite Hn. simpl.
    replace (0 + 2 * 0) with 0 by lra.
    destruct (Rlt_dec 0 0); [lra|]. rewrite sqrt_0. reflexivity.
  - rewrite (squares_sum_total (A:=Exact) (fun x => x * x)) by reflexivity.
    change (couplings_sum p _) with (accumulated p (fun x => x * x)).
    rewrite accumulated_exact, radicand_diagonal by exact Hself.
    cbn [fsqrt Exact]. destruct (Rlt_dec _ 0); reflexivity.
Qed.

Lemma radicand_single (p : @Portfolio Exact) (a : @Asset Exact) (q : R) :
  assets p = [(a, q)] -> get_value p <> 0 -> radicand p = volatility a ^ 2.
Proof.
  intros Ha Hv.
  unfold radicand, num_assets, vol_at, fraction, get_asset. rewrite Ha. simpl.
  cbn [fis_zero fdiv fmul Exact]. unfold Reqb.
  destruct (Req_dec_T (get_value p) 0) as [E|_]; [contradiction|].
  unfold get_value in *. rewrite Ha in *. simpl in *.
  cbn [fadd fmul lit_0 Exact] in *.
  set (v := price a * q) in *. field. lra.
Qed.

End Exact_outcome.

(** ** The value after a reallocation, in exact arithmetic *)

Section Exact_round_trip.
Local Open Scope R_scope.

Implicit Types (w : @World Exact) (d : list R).
(** In exact arithmetic, on a portfolio of non-zero value whose prices
    are all non-zero, a target [d] of the right length that passes the
    check of its sum is accepted; after the call the value is the old
    value times the sum of [d], and the distribution read back is [d]
    divided by that sum: the value is kept only by a target that sums to
    1 exactly. *)
Lemma set_asset_distribution_scales_value w d :
  assets (portfolio w) <> [] ->
  get_value (portfolio w) <> 0 ->
  priced (assets (portfolio w)) ->
  length d = num_assets (portfolio w) ->
  float_eq (A:=Exact) (Rsum d) 1 = true ->
  exists w',
    set_asset_distribution (A:=Exact) d w = Ok tt w'
    /\ get_value (portfolio w') = get_value (portfolio w) * Rsum d
    /\ get_asset_distribution (A:=Exact) w' = Ok (map (fun x => x / Rsum d) d) w'
    /\ (Forall (fun x => 0 <= x) d ->
        Forall2 (fun f x => float_eq (A:=Exact) f x = true)
                (map (fun x => x / Rsum d) d) d)
    /\ (Rsum d = 1 ->
        get_value (portfolio w') = get_value (portfolio w)
        /\ get_asset_distribution (A:=Exact) w' = Ok d w').
Proof.
  intros Hne Hv Hp Hl Hs.
  assert (d <> []) as Hd.
  { intros ->. apply Hne. unfold num_assets in Hl.
    destruct (assets (portfolio w)); [reflexivity | discriminate]. }
  pose proof (set_asset_distribution_accepts (A:=Exact) d (Rsum d) w Hl
                (vec_sum_exact d w Hd) Hs) as Hset.
  rewrite price_warnings_priced in Hset by exact Hp.
  remember (with_assets w _ []) as w' eqn:Ew'. exists w'.
  assert (assets (portfolio w')
          = reallocate (A:=Exact) (get_value (portfolio w)) (assets (portfolio w)) d)
    as Hassets by (rewrite Ew'; reflexivity).
  assert (0 < Rsum d) as Hpos.
  { apply float_eq_exact in Hs. destruct (Rle_or_lt (Rsum d) 0) as [Hle|]; [|assumption].
    rewrite Rabs_right in Hs by lra. lra. }
  assert (get_value (portfolio w') = get_value (portfolio w) * Rsum d) as Hval.
  { rewrite get_value_exact, Hassets.
    apply reallocate_value; [exact Hp | exact Hl]. }
  assert (map (fraction (portfolio w')) (range (num_assets (portfolio w')))
          = map (fun x => x / Rsum d) d) as Hfr.
  { apply list_eq. intros i. rewrite !list_lookup_fmap.
    assert (num_assets (portfolio w') = length d) as Hn'.
    { unfold num_assets. rewrite Hassets. unfold reallocate.
      rewrite length_zip_with.
      apply Nat.min_r, Nat.eq_le_incl. exact Hl. }
    rewrite Hn'. unfold range.
    destruct (d !! i) as [x|] eqn:Hx.
    - assert (i < length d)%nat as Hi by (eapply lookup_lt_Some; eauto).
      rewrite lookup_seq_lt by exact Hi. simpl.
      destruct (lookup_lt_is_Some_2 (assets (portfolio w)) i) as [h Hh];
        [unfold num_assets in Hl; lia|].
      unfold fraction. rewrite Hassets.
      rewrite (reallocate_lookup _ _ _ i h x Hp Hh Hx).
      cbn [fis_zero fdiv fmul Exact]. unfold Reqb. rewrite Hval.
      destruct (Req_dec_T (get_value (portfolio w) * Rsum d) 0) as [E|_].
      + exfalso. apply Rmult_integral in E. destruct E; lra.
      + f_equal. field. unfold priced in Hp. rewrite Forall_forall in Hp.
        repeat split; try lra.
        apply (Hp h). eapply list_elem_of_lookup_2. exact Hh.
    - apply lookup_ge_None_1 in Hx. rewrite lookup_seq_ge by exact Hx. reflexivity. }
  assert (get_value (portfolio w) * Rsum d <> 0) as Hnz.
  { intros E. apply Rmult_integral in E. destruct E; lra. }
  assert (get_asset_distribution w' = Ok (map (fun x => x / Rsum d) d) w') as Hget.
  { destruct (reads_get_asset_distribution (A:=Exact) true (portfolio w')) with (w := w')
      as (ws & Hq & E); [| reflexivity |].
    - intros _. cbn [fis_zero Exact]. unfold Reqb. rewrite Hval.
      destruct (Req_dec_T _ 0); [contradiction | reflexivity].
    - rewrite Hfr, (Hq eq_refl), add_warnings_nil in E. exact E. }
  split; [exact Hset|]. split; [exact Hval|]. split; [exact Hget|]. split.
  - intros Hnn. apply Forall2_fmap_l. apply Forall2_same_length_lookup.
    split; [reflexivity|]. intros i x y Hx Hy.
    assert (Some x = Some y) as [= <-]
      by (transitivity (d !! i); [symmetry; exact Hx | exact Hy]).
    apply float_eq_scaled; [exact Hs|].
    apply Rsum_nonneg_le; [exact Hnn|]. apply list_elem_of_In.
    eapply list_elem_of_lookup_2. exact Hx.
  - intros H1. rewrite H1 in *. split; [lra|].
    rewrite Hget. f_equal. rewrite <- (map_id d) at 2. apply map_ext. intros x. field.
Qed.

End Exact_round_trip.

(** ** What the scan of two assets reads *)

Section Scan_readings.
Context {A : Arith}.

Lemma readings_length (ds : list (list number)) :
  forall (p : Portfolio) (rs : list (number * number)),
    readings p ds = inr rs -> length rs = length ds.
Proof.
  induction ds as [|d ds IH]; intros p rs H; cbn [readings] in H.
  - injection H as <-. reflexivity.
  - destruct (volatility_of (settled p d)); [discriminate|].
    destruct (readings (settled p d) ds) as [|rs'] eqn:E; [discriminate|].
    injection H as <-. cbn [length]. f_equal. eapply IH. exact E.
Qed.

(** The only exceptions of a sequence of readings are those of
    [get_volatility]. *)
Lemma readings_exception (ds : list (list number)) :
  forall (p : Portfolio) (e : exn),
    readings p ds = inl e -> e = ValueError \/ e = OverflowError.
Proof.
  induction ds as [|d ds IH]; intros p e H; cbn [readings] in H; [discriminate|].
  destruct (volatility_of (settled p d)) as [e'|v] eqn:Ev.
  - injection H as <-. unfold volatility_of in Ev.
    destruct (Nat.eqb _ 0); [discriminate|].
    destruct (squares_sum _); [|injection Ev as <-; right; reflexivity].
    destruct (fsqrt _); [discriminate|]. injection Ev as <-. left. reflexivity.
  - destruct (readings (settled p d) ds) as [e'|rs'] eqn:E; [|discriminate].
    injection H as <-. eapply IH. exact E.
Qed.

Lemma setitem_spec (c : ref) (i : Z) (x : number) (w : World)
  (l : list number) (a : nat) :
  heap w !! c = Some l -> py_index (length l) i = Some a ->
  setitem c i x w
  = Ok tt (mkWorld (portfolio w) (warned w) (<[c := <[a := x]> l]> (heap w)) (drawn w)).
Proof.
  intros Hl Hi. unfold setitem.
  match goal with
  | |- context [default [] ?o] => assert (o = Some l) as -> by exact Hl
  end.
  cbn [default from_option Datatypes.id]. rewrite Hi. reflexivity.
Qed.

Lemma py_index_lt (n : nat) (i : Z) (a : nat) : py_index n i = Some a -> a < n.
Proof.
  unfold py_index.
  destruct ((0 <=? i)%Z && (i <? Z.of_nat n)%Z) eqn:E1.
  - intros [= <-]. apply andb_prop in E1 as [H1 H2].
    apply Z.leb_le in H1. apply Z.ltb_lt in H2. lia.
  - destruct ((i <? 0)%Z && (- Z.of_nat n <=? i)%Z) eqn:E2; [|discriminate].
    intros [= <-]. apply andb_prop in E2 as [H1 H2].
    apply Z.ltb_lt in H1. apply Z.leb_le in H2. lia.
Qed.

(** Two writes at [a] and [b] make the list forget what it held there. *)
Lemma insert_two_agree (a b : nat) (x y : number) (l z : list number) :
  length l = length z ->
  (forall k, k <> a -> k <> b -> l !! k = z !! k) ->
  <[b := y]> (<[a := x]> l) = <[b := y]> (<[a := x]> z).
Proof.
  intros Hlen Hk. apply list_eq. intros k.
  destruct (decide (k = b)) as [->|Hb].
  - destruct (decide (b < length l)) as [Hlt|Hge].
    + rewrite !list_lookup_insert_eq by (rewrite !length_insert; lia). reflexivity.
    + rewrite !(lookup_ge_None_2 _ b) by (rewrite !length_insert; lia). reflexivity.
  - rewrite !(list_lookup_insert_ne _ b k) by (intros E; apply Hb; symmetry; exact E).
    destruct (decide (k = a)) as [->|Ha].
    + destruct (decide (a < length l)) as [Hlt|Hge].
      * rewrite !list_lookup_insert_eq by lia. reflexivity.
      * rewrite !(lookup_ge_None_2 _ a) by (rewrite !length_insert; lia). reflexivity.
    + rewrite !(list_lookup_insert_ne _ a k) by (intros E; apply Ha; symmetry; exact E).
      apply Hk; assumption.
Qed.

Lemma last_nonempty {X} (x : X) (l : list X) (d d' : X) :
  List.last (d :: x :: l) d' = List.last (x :: l) d.
Proof.
  change (List.last (d :: x :: l) d') with (List.last (x :: l) d').
  revert x. induction l as [|y l IH]; intros x; [reflexivity|].
  change (List.last (x :: y :: l) d') with (List.last (y :: l) d').
  change (List.last (x :: y :: l) d) with (List.last (y :: l) d). apply IH.
Qed.

Lemma scan_tail (d : list number) (c : ref) (result : list Sample) (w : World) :
  (let* _ := set_asset_distribution d in
   let* v := get_volatility in
   let* e := get_expected_return in
   ret (result ++ [(v, e, c)])) w
  = match evaluate_at d w with
    | Ok r w' => Ok (result ++ [sample_of c r]) w'
    | Raise e w' => Raise e w'
    | OutOfFuel => OutOfFuel
    end.
Proof.
  unfold evaluate_at, bind.
  destruct (set_asset_distribution d w) as [[] w1| |]; try reflexivity.
  destruct (get_volatility w1) as [v w2| |]; try reflexivity.
  destruct (get_expected_return w2) as [e w3| |]; reflexivity.
Qed.

(** The loop of [scan_two_assets], on a list [cdist] of the length of the
    portfolio, with two subscripts that exist. *)
Lemma scan_loop (c : ref) (i j : Z) (a b n : nat) :
  py_index n i = Some a -> py_index n j = Some b ->
  forall (xs : list number) (result : list Sample) (w : World) (l : list number),
  num_assets (portfolio w) = n ->
  heap w !! c = Some l -> length l = n ->
  (forall k, k <> a -> k <> b -> l !! k = repeat lit_0 n !! k) ->
  exists w',
    for_acc xs
      (fun result x =>
         let* _ := setitem c i x in
         let* _ := setitem c j (lit_1 [-] x) in
         let* d := deref c in
         let* _ := set_asset_distribution d in
         let* v := get_volatility in
         let* e := get_expected_return in
         ret (result ++ [(v, e, c)]))
      result w
    = match readings (portfolio w) (map (scan_dist n a b) xs) with
      | inr rs => Ok (result ++ map (sample_of c) rs) w'
      | inl e => Raise e w'
      end
    /\ num_assets (portfolio w') = n
    /\ drawn w' = drawn w
    /\ length (heap w') = length (heap w)
    /\ (forall rs, readings (portfolio w) (map (scan_dist n a b) xs) = inr rs ->
        portfolio w' = fold_left settled (map (scan_dist n a b) xs) (portfolio w)
        /\ heap w' = <[c := List.last (map (scan_dist n a b) xs) l]> (heap w)).
Proof.
  intros Hi Hj. pose proof (py_index_lt _ _ _ Hi) as Ha.
  induction xs as [|x xs IH]; intros result w l Hn Hl Hlen Hz.
  - exists w. cbn [for_acc map readings]. unfold ret. rewrite app_nil_r.
    split; [reflexivity|]. repeat split; try assumption.
    cbn. symmetry. apply list_insert_id. exact Hl.
  - cbn [for_acc map readings]. unfold bind at 1. unfold bind at 1.
    rewrite (setitem_spec c i x w l a Hl) by (rewrite Hlen; exact Hi).
    set (w1 := mkWorld _ _ _ _).
    assert (c < length (heap w)) as Hc by (eapply lookup_lt_Some; exact Hl).
    assert (heap w1 !! c = Some (<[a := x]> l)) as Hl1.
    { unfold w1. cbn [heap]. apply list_lookup_insert_eq. exact Hc. }
    unfold bind at 1.
    rewrite (setitem_spec c j (lit_1 [-] x) w1 _ b Hl1)
      by (rewrite length_insert, Hlen; exact Hj).
    set (d := <[b := lit_1 [-] x]> (<[a := x]> l)).
    set (w2 := mkWorld _ _ _ _).
    assert (heap w2 = <[c := d]> (heap w)) as Hh2.
    { unfold w2, w1. cbn [heap]. apply list_insert_insert_eq. }
    assert (heap w2 !! c = Some d) as Hl2.
    { rewrite Hh2. apply list_lookup_insert_eq. exact Hc. }
    unfold bind at 1. unfold deref at 1.
    match goal with
    | |- context [default [] ?o] => assert (o = Some d) as -> by exact Hl2
    end.
    cbn [default from_option Datatypes.id].
    assert (d = scan_dist n a b x) as Hd.
    { unfold d, scan_dist. apply insert_two_agree; [|exact Hz].
      rewrite repeat_length. exact Hlen. }
    assert (length d = n) as Hdl by (unfold d; rewrite !length_insert; exact Hlen).
    assert (d <> []) as Hne by (intros E; rewrite E in Hdl; simpl in Hdl; lia).
    rewrite scan_tail.
    destruct (evaluate_at_outcome d w2 Hne) as (ws & Hws & E).
    change (portfolio w2) with (portfolio w) in E. rewrite E. rewrite <- Hd.
    set (p' := settled (portfolio w) d) in *.
    destruct (volatility_of p') as [e|v].
    + eexists. split; [reflexivity|].
      cbn [portfolio drawn heap moved]. unfold p'.
      rewrite settled_num_assets, Hh2, length_insert.
      split; [exact Hn|]. split; [reflexivity|]. split; [reflexivity|].
      intros ? Hr. discriminate Hr.
    + set (w3 := moved w2 p' _).
      destruct (IH (result ++ [sample_of c (v, expected_return_of p')]) w3 d)
        as (w' & Ew & Hn' & Hd' & Hh' & Hfin).
      * unfold w3, p'. cbn. rewrite settled_num_assets. exact Hn.
      * exact Hl2.
      * exact Hdl.
      * intros k Hka Hkb. unfold d.
        rewrite !list_lookup_insert_ne by congruence. apply Hz; assumption.
      * change (portfolio w3) with p' in *. exists w'. rewrite Ew.
        destruct (readings p' (map (scan_dist n a b) xs)) as [e|rs] eqn:Er.
        -- split; [reflexivity|]. split; [exact Hn'|]. split; [exact Hd'|].
           split; [rewrite Hh'; unfold w3; cbn [heap moved]; rewrite Hh2, length_insert; reflexivity|].
           intros rs H. discriminate H.
        -- split; [rewrite <- app_assoc; reflexivity|]. split; [exact Hn'|].
           split; [exact Hd'|].
           split; [rewrite Hh'; unfold w3; cbn [heap moved]; rewrite Hh2, length_insert; reflexivity|].
           intros rs' _. destruct (Hfin rs eq_refl) as (Hp & Hh). split.
           ++ rewrite Hp. reflexivity.
           ++ rewrite Hh. unfold w3. cbn [heap moved]. rewrite Hh2.
              rewrite list_insert_insert_eq. f_equal.
              destruct xs as [|x' xs']; [reflexivity|].
              cbn [map]. symmetry. apply last_nonempty.
Qed.

End Scan_readings.

Section Scan_outcome.
Context {A : Arith}.

(** [scan_two_assets] with two subscripts that exist and a step that
    passes the check: the samples are the readings at the distributions
    [scan_dist], each referring to the one list the scan allocated, which
    holds the last distribution in the end. *)
Lemma scan_two_assets_outcome (fuel : nat) (i j : Z) (res : number) (w : World)
  (a b : nat) (xs : list number) :
  py_index (num_assets (portfolio w)) i = Some a ->
  py_index (num_assets (portfolio w)) j = Some b ->
  float_eq res lit_0 = false ->
  frange_loop fuel lit_0 lit_1 res [] = Some xs ->
  exists w',
    scan_two_assets fuel i j res w
    = match readings (portfolio w)
              (map (scan_dist (num_assets (portfolio w)) a b) xs) with
      | inr rs => Ok (map (sample_of (length (heap w))) rs) w'
      | inl e => Raise e w'
      end
    /\ num_assets (portfolio w') = num_assets (portfolio w)
    /\ drawn w' = drawn w
    /\ length (heap w') = S (length (heap w))
    /\ (forall rs,
          readings (portfolio w)
            (map (scan_dist (num_assets (portfolio w)) a b) xs) = inr rs ->
          portfolio w'
          = fold_left settled (map (scan_dist (num_assets (portfolio w)) a b) xs)
              (portfolio w)
          /\ heap w'
             = heap w
               ++ [List.last (map (scan_dist (num_assets (portfolio w)) a b) xs)
                     (repeat lit_0 (num_assets (portfolio w)))]).
Proof.
  intros Hi Hj Hres Hxs. set (n := num_assets (portfolio w)) in *.
  set (w1 := mkWorld (portfolio w) (warned w) (heap w ++ [repeat lit_0 n]) (drawn w)).
  destruct (scan_loop (length (heap w)) i j a b n Hi Hj xs [] w1 (repeat lit_0 n))
    as (w' & E & Hn & Hd & Hh & Hfin).
  - reflexivity.
  - unfold w1. cbn [heap]. rewrite lookup_app_r by lia.
    rewrite Nat.sub_diag. reflexivity.
  - apply repeat_length.
  - reflexivity.
  - exists w'. change (portfolio w1) with (portfolio w) in *.
    split.
    { etransitivity; [|exact E].
      unfold scan_two_assets. unfold bind at 1. unfold get_portfolio at 1.
      unfold bind at 1. unfold alloc at 1. fold n. fold w1.
      unfold bind at 1. unfold frange. rewrite Hres, Hxs. reflexivity. }
    split; [exact Hn|]. split; [exact Hd|].
    split; [rewrite Hh; unfold w1; cbn [heap]; rewrite length_app; simpl; lia|].
    intros rs Hr. destruct (Hfin rs Hr) as (Hp & Hheap). split; [exact Hp|].
    rewrite Hheap. unfold w1. cbn [heap].
    rewrite insert_app_r_alt by lia. rewrite Nat.sub_diag. reflexivity.
Qed.

End Scan_outcome.

(** ** The scans of the pairs, one after the other *)

Section Pair_scans.
Context {A : Arith}.

(** [scan_two_assets] with two subscripts that exist, whatever the step:
    a step of zero gives no value, and no sample. *)
Lemma scan_two_assets_readings (fuel : nat) (i j : Z) (res : number) (w : World)
  (a b : nat) (xs : list number) (u u' : World) :
  py_index (num_assets (portfolio w)) i = Some a ->
  py_index (num_assets (portfolio w)) j = Some b ->
  frange fuel lit_0 lit_1 res u = Ok xs u' ->
  exists w',
    scan_two_assets fuel i j res w
    = match readings (portfolio w)
              (map (scan_dist (num_assets (portfolio w)) a b) xs) with
      | inr rs => Ok (map (sample_of (length (heap w))) rs) w'
      | inl e => Raise e w'
      end
    /\ num_assets (portfolio w') = num_assets (portfolio w)
    /\ length (heap w') = S (length (heap w))
    /\ (forall rs,
          readings (portfolio w)
            (map (scan_dist (num_assets (portfolio w)) a b) xs) = inr rs ->
          portfolio w'
          = fold_left settled (map (scan_dist (num_assets (portfolio w)) a b) xs)
              (portfolio w)).
Proof.
  intros Hi Hj Hxs. unfold frange in Hxs.
  destruct (float_eq res lit_0) eqn:Hres.
  - unfold bind, warn, ret in Hxs. injection Hxs as <- _.
    rewrite scan_two_assets_zero_step by exact Hres.
    eexists. cbn [map readings portfolio heap fold_left].
    split; [reflexivity|]. split; [reflexivity|].
    split; [cbn [heap]; rewrite length_app; simpl; lia|]. intros _ _. reflexivity.
  - destruct (frange_loop fuel lit_0 lit_1 res []) as [ys|] eqn:El; [|discriminate].
    unfold ret in Hxs. injection Hxs as <- _.
    destruct (scan_two_assets_outcome fuel i j res w a b ys Hi Hj Hres El)
      as (w' & E & Hn & _ & Hh & Hfin).
    exists w'. split; [exact E|]. split; [exact Hn|]. split; [exact Hh|].
    intros rs Hr. exact (proj1 (Hfin rs Hr)).
Qed.

Lemma pair_readings_app (n : nat) (xs : list number) (ps1 ps2 : list (nat * nat)) :
  forall (p : Portfolio) (c : ref),
  pair_readings n xs p c (ps1 ++ ps2)
  = match pair_readings n xs p c ps1 with
    | inl e => inl e
    | inr r1 =>
        match pair_readings n xs
                (fold_left
                   (fun q ij => fold_left settled
                                  (map (scan_dist n (fst ij) (snd ij)) xs) q)
                   ps1 p)
                (length ps1 + c) ps2 with
        | inl e => inl e
        | inr r2 => inr (r1 ++ r2)
        end
    end.
Proof.
  induction ps1 as [|[i j] ps1 IH]; intros p c.
  - cbn [app pair_readings fold_left length Nat.add].
    destruct (pair_readings n xs p c ps2); reflexivity.
  - cbn [app pair_readings fold_left length fst snd].
    destruct (readings p (map (scan_dist n i j) xs)) as [e|rs]; [reflexivity|].
    rewrite IH.
    destruct (pair_readings n xs _ (S c) ps1) as [e|r1]; [reflexivity|].
    replace (length ps1 + S c) with (S (length ps1) + c) by lia.
    destruct (pair_readings n xs _ (S (length ps1) + c) ps2) as [e|r2]; [reflexivity|].
    rewrite <- app_assoc. reflexivity.
Qed.

Lemma pair_readings_length (n : nat) (xs : list number) (ps : list (nat * nat)) :
  forall (p : Portfolio) (c : ref) (r : list Sample),
  pair_readings n xs p c ps = inr r -> length r = length ps * length xs.
Proof.
  induction ps as [|[i j] ps IH]; intros p c r H; cbn [pair_readings] in H.
  - injection H as <-. reflexivity.
  - destruct (readings p (map (scan_dist n i j) xs)) as [e|rs] eqn:Er; [discriminate|].
    destruct (pair_readings n xs _ (S c) ps) as [e|rest] eqn:E; [discriminate|].
    injection H as <-. apply IH in E. apply readings_length in Er.
    rewrite length_app, !length_map, E, Er, length_map. cbn [length]. lia.
Qed.

(** The inner loop of [scan_asset_pairs], for the row [i]. *)
Lemma scan_row (fuel : nat) (res : number) (xs : list number) (u u' : World)
  (n i : nat) :
  frange fuel lit_0 lit_1 res u = Ok xs u' ->
  i < n ->
  forall (js : list nat) (result : list Sample) (w : World),
  num_assets (portfolio w) = n ->
  (forall j, In j js -> j < n) ->
  exists w',
    for_acc js
      (fun result j =>
         let* r := scan_two_assets fuel (Z.of_nat i) (Z.of_nat j) res in
         ret (result ++ r))
      result w
    = match pair_readings n xs (portfolio w) (length (heap w)) (map (pair i) js) with
      | inr r => Ok (result ++ r) w'
      | inl e => Raise e w'
      end
    /\ num_assets (portfolio w') = n
    /\ (forall r,
          pair_readings n xs (portfolio w) (length (heap w)) (map (pair i) js) = inr r ->
          length (heap w') = length js + length (heap w)
          /\ portfolio w'
             = fold_left
                 (fun q ij => fold_left settled
                                (map (scan_dist n (fst ij) (snd ij)) xs) q)
                 (map (pair i) js) (portfolio w)).
Proof.
  intros Hxs Hi. induction js as [|j js IH]; intros result w Hn Hjs.
  - exists w. cbn [for_acc map pair_readings]. unfold ret. rewrite app_nil_r.
    split; [reflexivity|]. split; [exact Hn|]. intros _ _. split; reflexivity.
  - cbn [for_acc map pair_readings]. unfold bind at 1. unfold bind at 1.
    assert (j < n) as Hj by (apply Hjs; left; reflexivity).
    destruct (scan_two_assets_readings fuel (Z.of_nat i) (Z.of_nat j) res w i j xs u u')
      as (w1 & E & Hn1 & Hh1 & Hp1).
    { rewrite Hn, py_index_of_nat. apply Nat.ltb_lt in Hi. rewrite Hi. reflexivity. }
    { rewrite Hn, py_index_of_nat. apply Nat.ltb_lt in Hj. rewrite Hj. reflexivity. }
    { exact Hxs. }
    rewrite E, Hn.
    rewrite Hn in Hp1.
    destruct (readings (portfolio w) (map (scan_dist n i j) xs)) as [e|rs] eqn:Er.
    + exists w1. split; [reflexivity|]. split; [rewrite Hn1; exact Hn|].
      intros r Hr. discriminate Hr.
    + unfold ret at 1.
      destruct (IH (result ++ map (sample_of (length (heap w))) rs) w1)
        as (w' & E' & Hn' & Hfin).
      { rewrite Hn1. exact Hn. }
      { intros j' Hj'. apply Hjs. right. exact Hj'. }
      rewrite E', Hh1, (Hp1 rs eq_refl). exists w'.
      destruct (pair_readings n xs _ (S (length (heap w))) (map (pair i) js))
        as [e|rest] eqn:Ep.
      * split; [reflexivity|]. split; [exact Hn'|]. intros r Hr. discriminate Hr.
      * split; [rewrite <- app_assoc; reflexivity|]. split; [exact Hn'|].
        intros r _. rewrite Hh1, (Hp1 rs eq_refl) in Hfin.
        destruct (Hfin rest Ep) as (Hh' & Hp'). split.
        -- rewrite Hh'. cbn [length]. lia.
        -- rewrite Hp'. reflexivity.
Qed.

(** Its outer loop. *)
Lemma scan_rows (fuel : nat) (res : number) (xs : list number) (u u' : World)
  (n : nat) :
  frange fuel lit_0 lit_1 res u = Ok xs u' ->
  forall (rows : list nat) (result : list Sample) (w : World),
  num_assets (portfolio w) = n ->
  (forall i, In i rows -> i < n) ->
  exists w',
    for_acc rows
      (fun result i =>
         for_acc (range2 (i + 1) n)
           (fun result j =>
              let* r := scan_two_assets fuel (Z.of_nat i) (Z.of_nat j) res in
              ret (result ++ r))
           result)
      result w
    = match pair_readings n xs (portfolio w) (length (heap w)) (pairs_from n rows) with
      | inr r => Ok (result ++ r) w'
      | inl e => Raise e w'
      end.
Proof.
  intros Hxs. induction rows as [|i rows IH]; intros result w Hn Hrows.
  - exists w. cbn. unfold ret. rewrite app_nil_r. reflexivity.
  - cbn [for_acc]. unfold bind at 1.
    destruct (scan_row fuel res xs u u' n i Hxs
                (Hrows i (or_introl eq_refl)) (range2 (i + 1) n) result w Hn)
      as (w1 & E & Hn1 & Hfin).
    { intros j Hj%in_range2. lia. }
    rewrite E. unfold pairs_from. cbn [flat_map]. rewrite pair_readings_app.
    destruct (pair_readings n xs (portfolio w) (length (heap w))
                (map (pair i) (range2 (i + 1) n))) as [e|r1] eqn:E1.
    + exists w1. reflexivity.
    + destruct (Hfin r1 eq_refl) as (Hh & Hp).
      destruct (IH (result ++ r1) w1 Hn1) as (w' & E').
      { intros i' Hi'. apply Hrows. right. exact Hi'. }
      exists w'. rewrite E'. rewrite Hh, Hp, length_map. unfold pairs_from.
      match goal with
      | |- match ?t with _ => _ end = _ => destruct t as [e|r2]
      end; [reflexivity|].
      rewrite <- app_assoc. reflexivity.
Qed.

Lemma pairs_from_length (n : nat) (rows : list nat) :
  length (pairs_from n rows) = list_sum (map (fun i => n - (i + 1)) rows).
Proof.
  unfold pairs_from. induction rows as [|i rows IH]; [reflexivity|].
  cbn [flat_map map]. rewrite length_app, length_map, IH.
  unfold range2. rewrite length_seq. reflexivity.
Qed.

Lemma pairs_length (n : nat) : 2 * length (pairs n) = n * (n - 1).
Proof.
  unfold pairs. rewrite pairs_from_length. unfold range.
  rewrite (map_ext_in _ (fun i => 0 + (n - 1) - i)) by (intros i Hi%in_seq; lia).
  pose proof (pairs_count (n - 1) 0) as Hc.
  destruct n as [|n']; [reflexivity|].
  replace (S n' - 1) with n' in * by lia. nia.
Qed.

Lemma pairs_spec (n i j : nat) : In (i, j) (pairs n) <-> i < j < n.
Proof.
  unfold pairs, pairs_from. rewrite in_flat_map. split.
  - intros (i' & Hi'%in_range & Hin). apply in_map_iff in Hin as (j' & [= <- <-] & Hj).
    apply in_range2 in Hj. lia.
  - intros H. exists i. split.
    + unfold range. apply in_seq. lia.
    + apply in_map. unfold range2. apply in_seq. lia.
Qed.

End Pair_scans.

(** ** The trials of the Monte-Carlo methods *)

Section Trials.
Context {A : Arith}.


Lemma vec_norm_outcome_1 (vec : list number) (w : World) :
  vec_norm vec lit_1 w
  = match vec with
    | [] => Raise TypeError w
    | _ :: _ =>
        if fis_zero (total_of vec) then Raise ZeroDivisionError w
        else Ok (normalized vec) w
    end.
Proof. destruct vec as [|x xs]; [reflexivity | apply vec_norm_cons]. Qed.


Lemma draws_of_next (rnd : nat -> number) (w w' : World) (n k : nat) :
  drawn w' = drawn w + n -> draws_of rnd w' n k = draws_of rnd w n (S k).
Proof. intros H. unfold draws_of. rewrite H. f_equal. f_equal. simpl. lia. Qed.




End Trials.

(** ** The samples of the Monte-Carlo scan *)

Section Montecarlo_samples.
Context {A : Arith}.

Lemma allocations_next (rnd : nat -> number) (w w' : World) (count : nat) :
  drawn w' = drawn w + num_assets (portfolio w) ->
  num_assets (portfolio w') = num_assets (portfolio w) ->
  allocations rnd w (S count)
  = normalized (draws_of rnd w (num_assets (portfolio w)) 0)
    :: allocations rnd w' count.
Proof.
  intros Hd Hn. unfold allocations. cbn [seq map]. f_equal.
  rewrite <- seq_shift, map_map. apply map_ext. intros k. rewrite Hn.
  rewrite (draws_of_next rnd w w' _ k Hd). reflexivity.
Qed.

(** One pass of the scan. *)
Lemma montecarlo_pass (rnd : nat -> number) (result : list Sample) (w : World)
  (r : list Sample) (w' : World) :
  (let* p := get_portfolio in
   let* draws := random_vector rnd (num_assets p) in
   let* normed := vec_norm draws lit_1 in
   let* cdist := alloc normed in
   let* d := deref cdist in
   let* _ := set_asset_distribution d in
   let* v := get_volatility in
   let* e := get_expected_return in
   ret (result ++ [(v, e, cdist)])) w = Ok r w' ->
  let d := normalized (draws_of rnd w (num_assets (portfolio w)) 0) in
  exists v,
    0 < num_assets (portfolio w)
    /\ r = result ++ [(v, expected_return_of (settled (portfolio w) d),
                       length (heap w))]
    /\ volatility_of (settled (portfolio w) d) = inr v
    /\ portfolio w' = settled (portfolio w) d
    /\ heap w' = heap w ++ [d]
    /\ drawn w' = drawn w + num_assets (portfolio w).
Proof.
  set (n := num_assets (portfolio w)).
  unfold bind at 1. unfold get_portfolio at 1.
  unfold bind at 1. unfold random_vector at 1. fold n.
  set (w0 := mkWorld _ _ _ _).
  assert (map rnd (seq (drawn w) n) = draws_of rnd w n 0) as Hdr
    by (unfold draws_of; rewrite Nat.add_0_r; reflexivity).
  rewrite Hdr. unfold bind at 1. rewrite vec_norm_outcome_1.
  assert (length (draws_of rnd w n 0) = n) as Hlen
    by (unfold draws_of; rewrite length_map, length_seq; reflexivity).
  destruct (draws_of rnd w n 0) as [|x xs] eqn:Ed; [discriminate|].
  assert (0 < n) as Hn by (rewrite <- Hlen; simpl; lia).
  destruct (fis_zero (total_of (x :: xs))); [discriminate|].
  set (d := normalized (x :: xs)).
  assert (d <> []) as Hne by discriminate.
  unfold bind at 1. unfold alloc at 1. set (w1 := mkWorld _ _ _ _).
  unfold bind at 1. unfold deref at 1.
  assert (heap w1 !! length (heap w0) = Some d) as Hl.
  { unfold w1. cbn [heap]. rewrite lookup_app_r by lia.
    rewrite Nat.sub_diag. reflexivity. }
  match goal with
  | |- context [default [] ?o] => assert (o = Some d) as -> by exact Hl
  end.
  cbn [default from_option Datatypes.id].
  rewrite scan_tail.
  destruct (evaluate_at_outcome d w1 Hne) as (ws & _ & E).
  change (portfolio w1) with (portfolio w) in E. rewrite E.
  destruct (volatility_of (settled (portfolio w) d)) as [e|v]; [discriminate|].
  intros [= <- <-]. exists v.
  cbn [portfolio heap drawn moved w1 w0]. unfold sample_of. cbn [fst snd].
  repeat split. exact Hn.
Qed.

Lemma montecarlo_loop (rnd : nat -> number) (xs : list nat) :
  forall (result : list Sample) (w : World) (res : list Sample) (w' : World),
  for_acc xs
    (fun result _ =>
       let* p := get_portfolio in
       let* draws := random_vector rnd (num_assets p) in
       let* normed := vec_norm draws lit_1 in
       let* cdist := alloc normed in
       let* d := deref cdist in
       let* _ := set_asset_distribution d in
       let* v := get_volatility in
       let* e := get_expected_return in
       ret (result ++ [(v, e, cdist)])) result w = Ok res w' ->
  exists r,
    res = result ++ r
    /\ heap w' = heap w ++ allocations rnd w (length xs)
    /\ map snd r = seq (length (heap w)) (length xs)
    /\ readings (portfolio w) (allocations rnd w (length xs)) = inr (map fst r)
    /\ portfolio w' = fold_left settled (allocations rnd w (length xs)) (portfolio w)
    /\ drawn w' = drawn w + length xs * num_assets (portfolio w).
Proof.
  induction xs as [|x xs IH]; intros result w res w' H.
  - cbn [for_acc] in H. injection H as <- <-. exists []. rewrite !app_nil_r.
    cbn. repeat split. lia.
  - cbn [for_acc] in H. unfold bind at 1 in H.
    match type of H with
    | match ?m w with _ => _ end = _ => destruct (m w) as [r1 w1| |] eqn:E
    end; try discriminate.
    apply montecarlo_pass in E. cbv zeta in E.
    destruct E as (v & Hn & -> & Hv & Hp & Hh & Hd).
    assert (num_assets (portfolio w1) = num_assets (portfolio w)) as Hn1
      by (rewrite Hp; apply settled_num_assets).
    apply IH in H. destruct H as (r & -> & Hh' & Hm & Hr & Hp' & Hd').
    set (d := normalized (draws_of rnd w (num_assets (portfolio w)) 0)) in *.
    exists ((v, expected_return_of (settled (portfolio w) d), length (heap w)) :: r).
    cbn [length]. rewrite (allocations_next rnd w w1 (length xs) Hd Hn1). fold d.
    split; [rewrite <- app_assoc; reflexivity|].
    split; [rewrite Hh', Hh, <- app_assoc; reflexivity|].
    split.
    { cbn [map snd seq]. f_equal. rewrite Hm, Hh, length_app. cbn [length].
      rewrite Nat.add_1_r. reflexivity. }
    split.
    { cbn [readings map fst]. rewrite Hv, <- Hp, Hr. reflexivity. }
    split; [cbn [fold_left]; rewrite Hp', Hp; reflexivity|].
    rewrite Hd', Hd, Hn1. lia.
Qed.

End Montecarlo_samples.

(** ** The rule of the inner loop, on the chain as the Python list *)

Section Chain_rule.
Context {A : Arith} {D : Type}.
Implicit Types (hull points c : list (Point D)) (p : Point D).

Lemma rev_lookup {X} (l : list X) (i : nat) :
  i < length l -> rev l !! i = l !! (length l - S i).
Proof. intros H. rewrite rev_alt. apply (reverse_lookup l i H). Qed.

Lemma chain_from_rev points : chain_from [] points = rev (chain points).
Proof. unfold chain. rewrite rev_involutive. reflexivity. Qed.

(** One pass of the outer loop: the points removed from the end of the
    chain are those at which the test of the inner loop held, and the
    candidate is appended where it fails. *)
Lemma chain_snoc_rule points p :
  exists k,
    k <= length (chain points)
    /\ chain (points ++ [p])
       = take (length (chain points) - k) (chain points) ++ [p]
    /\ (forall m, m < k ->
          3 < length (chain points) - m
          /\ exists a b,
               chain points !! (length (chain points) - m - 2) = Some a
               /\ chain points !! (length (chain points) - m - 1) = Some b
               /\ cross_z a b p [<] lit_0 = true)
    /\ (length (chain points) - k <= 3
        \/ exists a b,
             chain points !! (length (chain points) - k - 2) = Some a
             /\ chain points !! (length (chain points) - k - 1) = Some b
             /\ cross_z a b p [<] lit_0 = false).
Proof.
  set (c := chain points).
  assert (chain_from [] points = rev c) as Hc by apply chain_from_rev.
  destruct (pop_while_rule (rev c) p) as (k & Hk & Hpop & Hstop).
  rewrite length_rev in Hpop, Hstop.
  assert (forall m x, rev c !! m = Some x -> m < length c /\ c !! (length c - S m) = Some x)
    as Hlook.
  { intros m x Hx.
    assert (m < length c) as Hm
      by (rewrite <- (length_rev c); eapply lookup_lt_Some; exact Hx).
    split; [exact Hm|]. rewrite <- rev_lookup by exact Hm. exact Hx. }
  assert (k <= length c) as Hle.
  { destruct k as [|k]; [lia|]. destruct (Hpop k ltac:(lia)) as (H & _). lia. }
  exists k. split; [exact Hle|]. split.
  - unfold chain at 1. rewrite chain_from_snoc, Hc, Hk. cbn [rev].
    f_equal. rewrite skipn_rev, rev_involutive. reflexivity.
  - split.
    + intros m Hm. destruct (Hpop m Hm) as (H3 & a & b & Hb & Ha & Hx).
      split; [exact H3|]. exists a, b.
      apply Hlook in Hb as (_ & Hb). apply Hlook in Ha as (_ & Ha).
      replace (length c - m - 2) with (length c - S (S m)) by lia.
      replace (length c - m - 1) with (length c - S m) by lia. auto.
    + destruct Hstop as [H|(a & b & Hb & Ha & Hx)]; [left; exact H | right].
      exists a, b.
      apply Hlook in Hb as (_ & Hb). apply Hlook in Ha as (_ & Ha).
      replace (length c - k - 2) with (length c - S (S k)) by lia.
      replace (length c - k - 1) with (length c - S k) by lia. auto.
Qed.




End Chain_rule.

(** ** What lies outside the hull, in exact arithmetic *)

Section Exact_outside.
Context {D : Type}.
Local Open Scope R_scope.
Implicit Types (a b m p q x y : Point (A:=Exact) D) (l s : list (Point (A:=Exact) D)).









End Exact_outside.


(** ** The claims *)

Lemma frange_default_step (fuel : nat) (w : World) :
  100 <= fuel ->
  exists xs, frange (A:=Float64) fuel 0%float 1%float default_step w = Ok xs w /\ length xs = 100.
Proof.
  intros Hf. unfold frange.
  replace (float_eq (A:=Float64) default_step lit_0) with false by (vm_compute; reflexivity).
  destruct (frange_loop (A:=Float64) 100 0%float 1%float default_step []) as [xs|] eqn:E;
    [|vm_compute in E; discriminate].
  assert (length xs = 100) as Hl.
  { vm_compute in E. injection E as <-. reflexivity. }
  rewrite (frange_loop_more_fuel 100 _ _ _ _ _ E fuel Hf).
  exists xs. split; [reflexivity | exact Hl].
Qed.


(** C8 (the code does not do this).  Constructing a portfolio without data
    sources does not yield the empty portfolio: the closing normalisation
    sums the empty list of asset numbers with [reduce] and no initial
    value, so [Portfolio()] and [Portfolio([])] both leave with an
    uncaught [TypeError], whatever the covariances and the world. *)
Theorem Portfolio_init_without_sources {A : Arith}
  (covariance_with : DataSource -> DataSource -> number) (w : World) :
  Portfolio_init covariance_with None w
  = Raise TypeError (mkWorld (mkPortfolio [] ∅) (warned w) (heap w) (drawn w))
  /\ Portfolio_init covariance_with (Some []) w
    = Raise TypeError (mkWorld (mkPortfolio [] ∅) (warned w) (heap w) (drawn w)).
Proof. split; reflexivity. Qed.

(** C2 (the code does not do this for one input).  On a portfolio without
    holdings the empty target has the right length, and summing it is a
    [TypeError]: no input error is reported, the exception leaves the
    method.  (For every other target the method does what the claim says:
    [set_asset_distribution_wrong_length],
    [set_asset_distribution_not_normalized],
    [set_asset_distribution_accepts].) *)
Theorem set_asset_distribution_empty_target {A : Arith}
  (c : gmap (nat * nat) number) (ws : list string) (h : list (list number))
  (n : nat) :
  set_asset_distribution [] (mkWorld (mkPortfolio [] c) ws h n)
  = Raise TypeError (mkWorld (mkPortfolio [] c) ws h n).
Proof. reflexivity. Qed.

(** C10.  With [res = 0.0] the scan of two assets warns that the step
    size is zero and returns no sample; the portfolio is the one it was
    (only the list [cdist] was allocated), for all indices, also invalid
    ones. *)
Theorem scan_two_assets_step_zero (fuel : nat) (i j : Z) (w : @World Float64) :
  scan_two_assets (A:=Float64) fuel i j 0%float w
  = Ok [] (mkWorld (portfolio w) (warned w ++ ["Step size zero."])
             (heap w ++ [repeat 0%float (num_assets (portfolio w))])
             (drawn w)).
Proof.
  apply (scan_two_assets_zero_step (A:=Float64) fuel i j 0%float w).
  vm_compute. reflexivity.
Qed.

(** C9, as the code has it.  In binary64 the stepper
    [frange(0.0, 1.0, 0.01)] yields 100 numbers (the hundredth sum is
    1.0000000000000007, above the bound).  On a portfolio of two assets
    [scan_asset_pairs()] evaluates the distributions [[x, 1.0 - x]] for
    these numbers in turn: it returns 100 samples, all referring to one
    list, when the volatility can be read at each of them, and otherwise
    leaves with the exception of the first reading that fails, a
    [ValueError] of [math.sqrt] or an [OverflowError] of [math.pow]. *)
Theorem scan_asset_pairs_default_step (fuel : nat) (w : @World Float64) :
  num_assets (portfolio w) = 2 ->
  100 <= fuel ->
  exists xs w',
    frange (A:=Float64) fuel 0%float 1%float default_step w = Ok xs w
    /\ length xs = 100
    /\ match readings (portfolio w)
               (map (fun x => [x; PrimFloat.sub 1 x]) xs) with
       | inr rs =>
           scan_asset_pairs (A:=Float64) fuel default_step w
           = Ok (map (sample_of (length (heap w))) rs) w'
           /\ length rs = 100
       | inl e =>
           scan_asset_pairs (A:=Float64) fuel default_step w = Raise e w'
           /\ (e = ValueError \/ e = OverflowError)
       end.
Proof.
  intros Hn Hf.
  destruct (frange_default_step fuel w Hf) as (xs & Hxs & Hlen).
  assert (frange_loop (A:=Float64) fuel 0%float 1%float default_step [] = Some xs)
    as Hloop.
  { revert Hxs. unfold frange.
    replace (float_eq (A:=Float64) default_step lit_0) with false
      by (vm_compute; reflexivity).
    destruct (frange_loop (A:=Float64) fuel 0%float 1%float default_step []);
      [|discriminate].
    unfold ret. intros [= ->]. reflexivity. }
  destruct (scan_two_assets_outcome (A:=Float64) fuel 0 1 default_step w 0 1 xs)
    as (w' & E & _).
  - rewrite Hn. reflexivity.
  - rewrite Hn. reflexivity.
  - vm_compute. reflexivity.
  - exact Hloop.
  - exists xs, w'. split; [exact Hxs|]. split; [exact Hlen|].
    rewrite scan_asset_pairs_two by exact Hn. rewrite E, Hn.
    change (map (scan_dist 2 0 1) xs) with (map (fun x => [x; PrimFloat.sub 1 x]) xs).
    destruct (readings (portfolio w) (map (fun x => [x; PrimFloat.sub 1 x]) xs))
      as [e|rs] eqn:Er.
    + split; [reflexivity|]. eapply readings_exception. exact Er.
    + split; [reflexivity|]. apply readings_length in Er.
      rewrite Er, length_map. exact Hlen.
Qed.

Lemma scan_asset_pairs_default_step_witness :
  (exists res w',
     scan_asset_pairs (A:=Float64) 200 default_step provider_world = Ok res w'
     /\ length res = 100)
  /\ (exists res w',
        scan_asset_pairs (A:=Float64) 200 default_step test_world = Ok res w'
        /\ length res = 100).
Proof.
  split.
  - destruct (scan_asset_pairs_default_step 200 provider_world)
      as (xs & w' & Hxs & _ & H); [reflexivity | lia |].
    assert (frange (A:=Float64) 200 0%float 1%float default_step provider_world
            = Ok (match frange (A:=Float64) 200 0%float 1%float default_step empty_world with
                  | Ok l _ => l | _ => [] end) provider_world) as Hx
      by (vm_compute; reflexivity).
    rewrite Hx in Hxs. injection Hxs as <-.
    destruct (readings _ _) as [e|rs] eqn:Er; [vm_compute in Er; discriminate Er|].
    destruct H as (H & Hl). eexists _, w'. split; [exact H|].
    rewrite length_map. exact Hl.
  - destruct (scan_asset_pairs_default_step 200 test_world)
      as (xs & w' & Hxs & _ & H); [reflexivity | lia |].
    assert (frange (A:=Float64) 200 0%float 1%float default_step test_world
            = Ok (match frange (A:=Float64) 200 0%float 1%float default_step empty_world with
                  | Ok l _ => l | _ => [] end) test_world) as Hx
      by (vm_compute; reflexivity).
    rewrite Hx in Hxs. injection Hxs as <-.
    destruct (readings _ _) as [e|rs] eqn:Er; [vm_compute in Er; discriminate Er|].
    destruct H as (H & Hl). eexists _, w'. split; [exact H|].
    rewrite length_map. exact Hl.
Defined.

(** C9, as the claim words it, fails: on two assets of volatility 0.27
    whose covariance is given as -1.0 the radicand is negative before the
    scan is through and [scan_asset_pairs()] leaves with the [ValueError]
    of [math.sqrt], returning no list. *)
Lemma scan_asset_pairs_raises :
  num_assets (portfolio opposed_world) = 2
  /\ get_asset_correlation (portfolio opposed_world)
       (asset_of 0 (scenario_source "Asset 1")) (asset_of 1 (scenario_source "Asset 2"))
     = (-1)%float
  /\ exists w',
       scan_asset_pairs (A:=Float64) 200 default_step opposed_world
       = Raise ValueError w'.
Proof.
  split; [reflexivity|]. split; [vm_compute; reflexivity|].
  eexists. vm_compute. reflexivity.
Qed.

(** C7 (the code does not do this).  [scan_two_assets] appends the one
    list object [cdist] to every tuple and keeps writing to it: after the
    scan with step 0.5 all three samples refer to list 0, which holds the
    last distribution [1.0, 0.0], although the first sample is the pair of
    the distribution [0.0, 1.0]. *)
Theorem scan_two_assets_shares_cdist :
  exists v e w' w1,
    scan_two_assets (A:=Float64) 10 0 1 0.5%float mixed_world
    = Ok [(0.125%float, 0.75%float, 0); (v, e, 0); (0.25%float, 0.5%float, 0)] w'
    /\ heap w' !! 0 = Some [1%float; 0%float]
    /\ evaluate_at (A:=Float64) [0%float; 1%float] mixed_world
       = Ok (0.125%float, 0.75%float) w1.
Proof.
  eexists _, _, _, _. split; [vm_compute; reflexivity|].
  split; vm_compute; reflexivity.
Qed.

(** C5, as the code has it.  The chain starts empty.  For every
    candidate [p] the inner loop removes the last accepted point while
    MORE than three points are accepted ([len(hull) > 3]) and [cross_z]
    of the last two accepted points with [p] is below 0.0, and [p] is
    appended where that fails: the chain of [points + [p]] is the chain
    of [points] without its last [k] points, followed by [p], where each
    of the [k] points was removed under that condition and the condition
    fails for what is left.  The hull returned is the input when it has
    fewer than two points, the unique points when there are fewer than two
    of them, and otherwise the chain of the unique points followed by the
    chain of their reversal, each without its last point, which is the
    first point of the other chain. *)
Theorem chain_pops_above_three {A : Arith} {D : Type} :
  chain (D:=D) [] = []
  /\ (forall (points : list (Point D)) (p : Point D),
        exists k,
          k <= length (chain points)
          /\ chain (points ++ [p])
             = take (length (chain points) - k) (chain points) ++ [p]
          /\ (forall m, m < k ->
                3 < length (chain points) - m
                /\ exists a b,
                     chain points !! (length (chain points) - m - 2) = Some a
                     /\ chain points !! (length (chain points) - m - 1) = Some b
                     /\ cross_z a b p [<] lit_0 = true)
          /\ (length (chain points) - k <= 3
              \/ exists a b,
                   chain points !! (length (chain points) - k - 2) = Some a
                   /\ chain points !! (length (chain points) - k - 1) = Some b
                   /\ cross_z a b p [<] lit_0 = false))
  /\ (forall (dist_set : list (Point D)) (w : World),
        asset_dist_hull dist_set w
        = if Nat.ltb (length dist_set) 2
          then Ok dist_set (add_warnings w ["Too few total data points for contour."])
          else if Nat.ltb (length (dedup (sort_by px (sort_by py dist_set)))) 2
          then Ok (dedup (sort_by px (sort_by py dist_set)))
                  (add_warnings w ["Too few unique data points for contour."])
          else Ok (removelast (chain (dedup (sort_by px (sort_by py dist_set))))
                   ++ removelast
                        (chain (rev (dedup (sort_by px (sort_by py dist_set))))))
                  w)
  /\ (forall s : list (Point D),
        last (chain s) = head (chain (rev s))
        /\ last (chain (rev s)) = head (chain s)).
Proof.
  split; [reflexivity|]. split; [apply chain_snoc_rule|]. split.
  - intros dist_set w. unfold asset_dist_hull.
    destruct (Nat.ltb (length dist_set) 2); [reflexivity|].
    destruct (Nat.ltb (length _) 2); reflexivity.
  - intros s. rewrite !chain_last, !chain_head, head_rev, last_rev. auto.
Qed.

Lemma chain_pops_above_three_witness :
  exists k a b,
    k = 1
    /\ chain (spike ++ [pt 4 0]) = take (4 - k) (chain spike) ++ [pt 4 0]
    /\ chain spike !! 2 = Some a /\ chain spike !! 3 = Some b
    /\ cross_z a b (pt 4 0) [<] 0%float = true.
Proof.
  destruct (proj1 (proj2 (chain_pops_above_three (A:=Float64) (D:=unit)))
              spike (pt 4 0))
    as (k & Hk & Heq & Hpop & Hstop).
  assert (length (chain spike) = 4) as Hlen by (vm_compute; reflexivity).
  assert (length (chain (spike ++ [pt 4 0])) = 4) as Hlen' by (vm_compute; reflexivity).
  rewrite Hlen in *.
  assert (k = 1) as Ek.
  { apply (f_equal length) in Heq. rewrite Hlen', length_app, length_take, Hlen in Heq.
    simpl in Heq. lia. }
  destruct (Hpop 0 ltac:(lia)) as (_ & a & b & Ha & Hb & Hx).
  exists k, a, b. split; [exact Ek|]. split; [exact Heq|].
  split; [exact Ha|]. split; [exact Hb | exact Hx].
Defined.

(** C5, as the claim words it, fails: with exactly three points accepted
    and a clockwise turn at the candidate, nothing is popped. *)
Lemma chain_keeps_third_point :
  pop_while [pt 2 1; pt 1 0; pt 0 0]%float (pt 3 0)%float
  = [pt 2 1; pt 1 0; pt 0 0]%float
  /\ cross_z (pt 1 0) (pt 2 1) (pt 3 0) [<] 0%float = true
  /\ pop_while_from_three [pt 2 1; pt 1 0; pt 0 0]%float (pt 3 0)%float
     = [pt 1 0; pt 0 0]%float.
Proof. repeat split; vm_compute; reflexivity. Qed.

(** C1, as the code has it.  For every arithmetic, binary64 included:
    [get_volatility] returns 0.0 for a portfolio without assets and
    otherwise adds up the squares [pow(volatility_i * f_i, 2)], then the
    terms [2.0 * coupling_ij * f_i * f_j] for [i <= j] row by row, and
    returns the root of that total; it raises [OverflowError] when a
    square overflows and [ValueError] when the total is negative, and it
    warns once for every share it reads of a portfolio that is worth
    nothing.  In exact arithmetic, when no asset is coupled with itself,
    the total is sum_i (volatility_i f_i)^2 + 2 sum_(i<j) coupling_ij f_i f_j,
    the [i = j] terms contributing nothing, and a single asset of
    non-zero value gives the absolute value of its volatility, not 0.0.
    In binary64 a single asset whose holding has a finite value other
    than zero gives [sqrt(pow(volatility, 2))] with the square rounded,
    and [OverflowError] when the square overflows. *)
Theorem get_volatility_formula :
  (forall (A : Arith) (w : @World A),
     (exists ws,
        value_warnings (portfolio w) ws
        /\ get_volatility w
           = match volatility_of (portfolio w) with
             | inr v => Ok v (add_warnings w ws)
             | inl e => Raise e (add_warnings w ws)
             end)
     /\ (num_assets (portfolio w) = 0 -> get_volatility w = Ok lit_0 w))
  /\ (forall w : @World Exact,
        no_self_coupling (portfolio w) ->
        (exists ws,
           value_warnings (portfolio w) ws
           /\ get_volatility w
              = if Rlt_dec (radicand (portfolio w)) 0
                then Raise ValueError (add_warnings w ws)
                else Ok (sqrt (radicand (portfolio w))) (add_warnings w ws))
        /\ radicand (portfolio w) = radicand_with_diagonal (portfolio w)
        /\ (forall a q,
              assets (portfolio w) = [(a, q)] ->
              get_value (portfolio w) <> 0%R ->
              radicand (portfolio w) = (volatility a ^ 2)%R
              /\ get_volatility w = Ok (Rabs (volatility a)) w))
  /\ (forall (w : @World Float64) (a : @Asset Float64) (q : float),
        assets (portfolio w) = [(a, q)] ->
        no_self_coupling (portfolio w) ->
        PrimFloat.is_finite (PrimFloat.mul (price a) q) = true ->
        PrimFloat.eqb (PrimFloat.mul (price a) q) 0 = false ->
        get_volatility w
        = match @fpow2 Float64 (volatility a) with
          | Some y => Ok (PrimFloat.sqrt y) w
          | None => Raise OverflowError w
          end).
Proof.
  split; [|split].
  - intros A w. split; [apply get_volatility_outcome | apply get_volatility_empty].
  - intros w Hself.
    assert (exists ws,
               value_warnings (portfolio w) ws
               /\ get_volatility w
                  = if Rlt_dec (radicand (portfolio w)) 0
                    then Raise ValueError (add_warnings w ws)
                    else Ok (sqrt (radicand (portfolio w))) (add_warnings w ws)) as Hmain.
    { destruct (get_volatility_outcome w) as (ws & Hws & E). exists ws.
      split; [exact Hws|]. rewrite E, volatility_of_exact by exact Hself.
      destruct (Rlt_dec _ 0); reflexivity. }
    split; [exact Hmain|].
    split; [symmetry; apply radicand_diagonal; exact Hself|].
    intros a q Ha Hv.
    pose proof (radicand_single _ a q Ha Hv) as Hr. split; [exact Hr|].
    destruct Hmain as (ws & Hws & E).
    rewrite (value_warnings_quiet _ _ Hws), add_warnings_nil in E
      by (apply fis_zero_exact; exact Hv).
    rewrite E, Hr.
    destruct (Rlt_dec (volatility a ^ 2) 0) as [Hneg|_].
    + pose proof (pow2_ge_0 (volatility a)). lra.
    + replace (volatility a ^ 2)%R with (Rsqr (volatility a)) by (unfold Rsqr; lra).
      rewrite sqrt_Rsqr_abs. reflexivity.
  - intros w a q Ha Hself Hfin Hnz.
    destruct (volatility_of_single (portfolio w) a q Ha Hself Hfin Hnz)
      as (Hval & _ & Hvol).
    destruct (get_volatility_outcome w) as (ws & Hws & E).
    rewrite (value_warnings_quiet _ _ Hws), add_warnings_nil in E
      by (rewrite Hval; exact Hnz).
    rewrite E, Hvol. destruct (@fpow2 Float64 (volatility a)); reflexivity.
Qed.

Lemma get_volatility_formula_witness :
  radicand (portfolio exact_world) = radicand_with_diagonal (portfolio exact_world)
  /\ get_volatility (lone_world 0x1p-2%float) = Ok 0x1p-2%float (lone_world 0x1p-2%float)
  /\ get_volatility (lone_world 0x1p-600%float) = Ok 0%float (lone_world 0x1p-600%float)
  /\ get_volatility (lone_world 0x1p+600%float)
     = Raise OverflowError (lone_world 0x1p+600%float).
Proof.
  destruct get_volatility_formula as (_ & Hexact & Hsingle).
  split.
  { apply (Hexact exact_world).
    intros k. unfold exact_world, set_asset_correlation. simpl.
    rewrite !lookup_insert_ne by (intros [= <- ?]; discriminate).
    apply lookup_empty. }
  split; [|split].
  - rewrite (Hsingle (lone_world 0x1p-2%float) _ _ eq_refl);
      [reflexivity | intros k; apply lookup_empty | reflexivity | reflexivity].
  - rewrite (Hsingle (lone_world 0x1p-600%float) _ _ eq_refl);
      [reflexivity | intros k; apply lookup_empty | reflexivity | reflexivity].
  - rewrite (Hsingle (lone_world 0x1p+600%float) _ _ eq_refl);
      [reflexivity | intros k; apply lookup_empty | reflexivity | reflexivity].
Defined.

(** C1, as the claim words it, fails: the volatility of a portfolio with
    one asset is that asset's volatility. *)
Lemma single_asset_volatility :
  num_assets (portfolio single_world) = 1
  /\ get_volatility single_world = Ok 0.25%float single_world
  /\ PrimFloat.eqb 0.25 0 = false.
Proof. repeat split; vm_compute; reflexivity. Qed.







(** ** Further properties *)

(** X1.  On a target that is not empty [set_asset_distribution] always
    returns [None], raising nothing: with a warning and no change when the
    length differs from the number of assets, with a warning and no change
    when the sum of the target is not within the tolerance of 1.0, and
    otherwise with every holding of non-zero price set to
    [get_value() * target[i] / price_i] (a holding of price zero is left as
    it is, with a warning). *)
Theorem set_asset_distribution_nonempty_target {A : Arith}
  (x : number) (xs : list number) (w : World) :
  set_asset_distribution (x :: xs) w
  = Ok tt
      (if negb (Nat.eqb (S (length xs)) (num_assets (portfolio w)))
       then add_warnings w ["Problem with number of assets in portfolio."]
       else if float_eq (fold_left fadd xs x) lit_1
       then with_assets w
              (reallocate (get_value (portfolio w)) (assets (portfolio w)) (x :: xs))
              (price_warnings (assets (portfolio w)))
       else add_warnings w ["Problem with input vector normalization."]).
Proof.
  destruct (Nat.eqb (S (length xs)) (num_assets (portfolio w))) eqn:Hlen; simpl.
  - apply Nat.eqb_eq in Hlen.
    destruct (float_eq (fold_left fadd xs x) lit_1) eqn:Heq.
    + apply (set_asset_distribution_accepts _ (fold_left fadd xs x));
        [exact Hlen | reflexivity | exact Heq].
    + apply (set_asset_distribution_not_normalized _ (fold_left fadd xs x));
        [exact Hlen | reflexivity | exact Heq].
  - apply Nat.eqb_neq in Hlen.
    apply set_asset_distribution_wrong_length. exact Hlen.
Qed.

(** X2.  When [scan_montecarlo] returns, the samples are the readings of
    the portfolio at the allocations drawn, in the order of the draws:
    the [k]-th allocation is the [k]-th vector of draws, normalised, and
    the volatility and the expected return of the [k]-th sample are those
    of the portfolio set to that allocation from the holdings that the
    pass before left.  Every sample refers to a list object of its own,
    allocated during the call, which holds its allocation at the end of
    the call; the list objects that existed before are as they were. *)
Theorem scan_montecarlo_fresh_lists {A : Arith} (rnd : nat -> number) (num : nat)
  (w : World) (res : list Sample) (w' : World) :
  scan_montecarlo rnd num w = Ok res w' ->
  heap w' = heap w ++ allocations rnd w num
  /\ map snd res = seq (length (heap w)) num
  /\ readings (portfolio w) (allocations rnd w num) = inr (map fst res)
  /\ portfolio w' = fold_left settled (allocations rnd w num) (portfolio w)
  /\ drawn w' = drawn w + num * num_assets (portfolio w).
Proof.
  intros H. unfold scan_montecarlo in H.
  apply montecarlo_loop in H. destruct H as (r & -> & H).
  unfold range in H. rewrite length_seq in H. exact H.
Qed.

Lemma scan_montecarlo_fresh_lists_witness :
  exists res w',
    scan_montecarlo (A:=Float64) sample_draws 2 mixed_world = Ok res w'
    /\ heap w' = [[0.5; 0.5]; [0.25; 0.75]]%float
    /\ map snd res = [0; 1]
    /\ readings (portfolio mixed_world) [[0.5; 0.5]; [0.25; 0.75]]%float
       = inr (map fst res).
Proof.
  destruct (scan_montecarlo (A:=Float64) sample_draws 2 mixed_world)
    as [res w'| |] eqn:E; [|vm_compute in E; discriminate E..].
  exists res, w'. split; [reflexivity|].
  destruct (scan_montecarlo_fresh_lists (A:=Float64) sample_draws 2 mixed_world res w' E)
    as (Hh & Hm & Hr & _).
  assert (allocations (A:=Float64) sample_draws mixed_world 2
          = [[0.5; 0.5]; [0.25; 0.75]]%float) as Ea by (vm_compute; reflexivity).
  rewrite Ea in Hh, Hr. split; [exact Hh|]. split; [exact Hm | exact Hr].
Defined.

(** X3.  However [Portfolio(data_source)] ends, by returning or by raising,
    the portfolio it leaves has no coupling of an asset with itself: the
    hypothesis of the volatility formula holds of every portfolio the
    constructor builds, and [set_asset_correlation] keeps it
    ([set_asset_correlation_no_self]). *)
Theorem Portfolio_init_no_self {A : Arith} (cov : DataSource -> DataSource -> number)
  (data_source : option (list DataSource)) (w : World) :
  match Portfolio_init cov data_source w with
  | Ok _ w' | Raise _ w' => no_self_coupling (portfolio w')
  | OutOfFuel => True
  end.
Proof.
  unfold Portfolio_init. unfold bind at 1. unfold set_portfolio at 1.
  set (w0 := mkWorld _ _ _ _).
  match goal with |- match ?m w0 with _ => _ end => enough (stays_uncoupled m w0) as H end.
  { apply H. apply no_self_coupling_empty. }
  clearbody w0. clear w.
  apply stays_uncoupled_bind.
  - destruct data_source as [sources|]; [|intros H; exact H].
    apply stays_uncoupled_bind.
    + apply stays_uncoupled_for_each. intros inv u.
      apply stays_uncoupled_get_portfolio, stays_uncoupled_set_portfolio.
      intros H. exact H.
    + intros [] w1 _. apply stays_uncoupled_get_portfolio.
      destruct (Nat.ltb 1 (num_assets (portfolio w1))); [|intros H; exact H].
      apply stays_uncoupled_for_each. intros i u.
      apply stays_uncoupled_for_each. intros j u'.
      destruct (negb (Nat.eqb i j)); [|intros H; exact H].
      apply stays_uncoupled_get_portfolio.
      destruct (get_asset (portfolio u') i) as [ai|]; [|intros H; exact H].
      destruct (get_asset (portfolio u') j) as [aj|]; [|intros H; exact H].
      simpl. unfold bind, ret.
      destruct (sources !! i), (sources !! j); try (intros H; exact H).
      apply stays_uncoupled_set_portfolio. apply set_asset_correlation_no_self.
  - intros [] w2 _. apply stays_uncoupled_get_portfolio.
    apply stays_uncoupled_bind.
    + apply stays_uncoupled_still. intros u. destruct (map _ _); reflexivity.
    + intros norm w3 _. apply stays_uncoupled_for_each. intros i u.
      apply stays_uncoupled_bind.
      * apply stays_uncoupled_still. intros u0. unfold py_div.
        destruct (fis_zero norm); reflexivity.
      * intros q u1 _. apply stays_uncoupled_get_portfolio, stays_uncoupled_set_portfolio.
        unfold set_asset_number. destruct (assets (portfolio u1) !! i) as [[a ?]|];
          intros H; exact H.
Qed.

(** X4.  Past the check of the step, the list [frange] returns is never
    empty: it starts with [a], also when [a] lies beyond [b]. *)
Theorem frange_starts_at_a {A : Arith} (fuel : nat) (a b c : number) (w : World)
  (res : list number) (w' : World) :
  float_eq c lit_0 = false ->
  frange fuel a b c w = Ok res w' ->
  exists tl, res = a :: tl /\ w' = w.
Proof.
  intros Hc. unfold frange. rewrite Hc.
  destruct (frange_loop fuel a b c []) as [r|] eqn:E; [|discriminate].
  intros [= <- <-]. apply frange_loop_extends in E. destruct E as (tl & ->).
  exists tl. split; reflexivity.
Qed.

Lemma frange_starts_at_a_witness :
  frange (A:=Float64) 3 5%float 1%float 1%float empty_world = Ok [5%float] empty_world
  /\ exists tl, [5%float] = 5%float :: tl
                /\ empty_world (A:=Float64) = empty_world.
Proof.
  split; [vm_compute; reflexivity|].
  apply (frange_starts_at_a (A:=Float64) 3 5%float 1%float 1%float empty_world).
  - vm_compute. reflexivity.
  - vm_compute. reflexivity.
Defined.

(** X5.  A step that is neither below nor above zero and that the check of
    the step lets through (a NaN) never ends the loop: [frange] does not
    return, whatever the bounds. *)
Theorem frange_unordered_step {A : Arith} (a b c : number) (w : World) :
  float_eq c lit_0 = false ->
  lit_0 [<] c = false -> c [<] lit_0 = false ->
  forall fuel, frange fuel a b c w = OutOfFuel.
Proof.
  intros Hc H1 H2 fuel. unfold frange. rewrite Hc.
  rewrite frange_loop_no_exit by assumption. reflexivity.
Qed.

Lemma frange_unordered_step_witness :
  float_eq (A:=Float64) nan 0%float = false
  /\ forall fuel,
       frange (A:=Float64) fuel 0%float 1%float nan empty_world = OutOfFuel.
Proof.
  split; [vm_compute; reflexivity|].
  apply (frange_unordered_step (A:=Float64)); vm_compute; reflexivity.
Defined.

(** X6.  A step that the addition absorbs ([a + c] is [a] again) before
    the bound is passed never ends the loop either. *)
Theorem frange_absorbed_step {A : Arith} (a b c : number) (w : World) :
  float_eq c lit_0 = false ->
  a [+] c = a ->
  (lit_0 [<] c) && (b [<] a) = false ->
  (c [<] lit_0) && (a [<] b) = false ->
  forall fuel, frange fuel a b c w = OutOfFuel.
Proof.
  intros Hc Ha H1 H2 fuel. unfold frange. rewrite Hc.
  rewrite frange_loop_absorbed by assumption. reflexivity.
Qed.

Lemma frange_absorbed_step_witness :
  (0x1p+53 + 1 =? 0x1p+53)%float = true
  /\ forall fuel,
       frange (A:=Float64) fuel 0x1p+53%float 0x1p+54%float 1%float empty_world
       = OutOfFuel.
Proof.
  split; [vm_compute; reflexivity|].
  apply (frange_absorbed_step (A:=Float64)); vm_compute; reflexivity.
Defined.

Section Claim_frange_exact.
Local Open Scope R_scope.

(** X7.  In exact arithmetic [frange(a, b, c)] with a step of at least
    1/9999000 (the smallest positive step the check lets through) always
    returns, given fuel for its passes: the result is
    [a, a + c, ..., a + n c], where [n] is 0 when [a + c] exceeds [b] and
    otherwise the largest number of steps that stays within [b]. *)
Theorem frange_exact (a b c : R) (w : @World Exact) :
  1 / 9999000 <= c ->
  exists n : nat,
    (n = 0%nat \/ a + INR n * c <= b)
    /\ b < a + INR (S n) * c
    /\ forall fuel, (n < fuel)%nat ->
       frange (A:=Exact) fuel a b c w
       = Ok (map (fun k => a + INR k * c) (seq 0 (S n))) w.
Proof.
  intros Hc. assert (0 < c) as Hpos by lra.
  destruct (steps_to_reach a b c Hpos) as (n & Hn & Hb).
  exists n. split; [exact Hn|]. split; [exact Hb|]. intros fuel Hf.
  unfold frange.
  replace (float_eq (A:=Exact) c lit_0) with false.
  2:{ symmetry. destruct (float_eq (A:=Exact) c lit_0) eqn:E; [|reflexivity].
      apply float_eq_exact in E. cbn [lit_0 Exact] in E.
      rewrite Rabs_left in E by lra. lra. }
  pose proof (frange_loop_exact a b c n Hpos Hn Hb n 0%nat fuel [] eq_refl Hf) as H.
  simpl INR in H. replace (a + 0 * c) with a in H by lra.
  match goal with
  | |- match ?m with Some _ => _ | None => _ end _ = _ =>
      assert (m = Some (map (fun k => a + INR k * c) (seq 0 (S n)))) as ->
        by exact H
  end.
  reflexivity.
Qed.

Lemma frange_exact_witness :
  frange (A:=Exact) 101 0 1 (1 / 100) (empty_world (A:=Exact))
  = Ok (map (fun k => 0 + INR k * (1 / 100)) (seq 0 101)) empty_world.
Proof.
  destruct (frange_exact 0 1 (1 / 100) empty_world) as (n & Hn & Hb & H); [lra|].
  assert (n = 100%nat) as ->.
  { assert (INR n <= INR 100) as Hle.
    { destruct Hn as [->|Hn]; [apply le_INR; lia|].
      replace (INR 100) with 100 by (rewrite INR_IZR_INZ; reflexivity). lra. }
    assert (INR 99 < INR n) as Hlt.
    { rewrite S_INR in Hb.
      replace (INR 99) with 99 by (rewrite INR_IZR_INZ; reflexivity). lra. }
    apply INR_le in Hle. apply INR_lt in Hlt. lia. }
  apply H. lia.
Defined.

End Claim_frange_exact.

(** X8.  [vec_norm]: [TypeError] for the empty vector, [ZeroDivisionError]
    when the elements add up to zero, and otherwise every element divided
    by the sum and multiplied by [n]. *)
Theorem vec_norm_outcome {A : Arith} (vec : list number) (n : number) (w : World) :
  vec_norm vec n w
  = match vec with
    | [] => Raise TypeError w
    | x :: xs =>
        if fis_zero (fold_left fadd xs x) then Raise ZeroDivisionError w
        else Ok (map (fun v => fdiv v (fold_left fadd xs x) [*] n) vec) w
    end.
Proof. destruct vec as [|x xs]; [reflexivity | apply vec_norm_cons]. Qed.

Section Claim_norm_exact.
Local Open Scope R_scope.

(** X9.  In exact arithmetic the vector [vec_norm(vec, n)] returns has the
    length of [vec] and its elements add up to [n]; for [n = 1.0] a
    portfolio with as many assets accepts it as a distribution, with no
    warning about the normalisation. *)
Theorem vec_norm_sums_to_n (vec : list R) (n : R) (w : @World Exact)
  (d : list R) (w' : @World Exact) :
  vec_norm (A:=Exact) vec n w = Ok d w' ->
  length d = length vec
  /\ vec_sum (A:=Exact) d w' = Ok n w'
  /\ (n = 1 -> length vec = num_assets (portfolio w) ->
      set_asset_distribution (A:=Exact) d w'
      = Ok tt (with_assets w
                 (reallocate (get_value (portfolio w)) (assets (portfolio w)) d)
                 (price_warnings (assets (portfolio w))))).
Proof.
  destruct vec as [|x xs]; [discriminate|].
  intros H.
  pose proof (eq_trans (eq_sym (vec_norm_cons (A:=Exact) x xs n w)) H) as H'.
  clear H. revert H'.
  cbn [fis_zero fadd fdiv fmul Exact]. unfold Reqb.
  destruct (Req_dec_T _ 0) as [|Hs]; [discriminate|].
  intros [= <- <-].
  assert (vec_sum (A:=Exact)
            (map (fun v => v / fold_left Rplus xs x * n) (x :: xs)) w = Ok n w) as Hsum.
  { rewrite vec_sum_exact by discriminate. f_equal.
    rewrite fold_left_Rplus in *.
    change (x + Rsum xs) with (Rsum (x :: xs)) in *.
    set (s := Rsum (x :: xs)) in *.
    rewrite (Rsum_ext _ (fun v => (n / s) * v))
      by (intros v _; field; exact Hs).
    rewrite (Rsum_scal (n / s) (fun v => v)), map_id.
    fold s. field. exact Hs. }
  split; [apply (length_map _ (x :: xs))|]. split; [exact Hsum|].
  intros -> Hl.
  apply (set_asset_distribution_accepts (A:=Exact) _ 1).
  - rewrite <- Hl. apply (length_map _ (x :: xs)).
  - exact Hsum.
  - apply float_eq_exact. cbn [lit_1 Exact].
    rewrite Rminus_diag, Rabs_R0. lra.
Qed.

End Claim_norm_exact.

Lemma vec_norm_sums_to_n_witness :
  exists d,
    vec_norm (A:=Exact) [1; 3]%R 1%R empty_world = Ok d empty_world
    /\ length d = 2
    /\ vec_sum (A:=Exact) d empty_world = Ok 1%R empty_world.
Proof.
  pose proof (vec_norm_cons (A:=Exact) 1%R [3%R] 1%R empty_world) as E.
  cbn [fis_zero fadd fold_left Exact] in E. unfold Reqb in E.
  destruct (Req_dec_T (1 + 3) 0) as [H|_]; [exfalso; lra|].
  eexists. split; [exact E|].
  destruct (vec_norm_sums_to_n [1; 3]%R 1%R empty_world _ empty_world E)
    as (Hl & Hs & _).
  split; [exact Hl | exact Hs].
Defined.

Section Claim_tolerance.
Local Open Scope R_scope.

(** X10.  [float_eq] is not reflexive: in exact arithmetic [float_eq(x, x)]
    holds exactly for [x] above -0.0005, since the tolerance
    [atol + rtol * (a + b)] is not positive from there down. *)
Theorem float_eq_same (x : R) :
  float_eq (A:=Exact) x x = true <-> - (1 / 2000) < x.
Proof.
  rewrite float_eq_exact. rewrite Rminus_diag, Rabs_R0. split; intros; lra.
Qed.

(** X11.  The removal of near-duplicates in [asset_dist_hull] removes
    nothing from a list of points whose expected returns are all at most
    -0.0005, not even exact copies (exact arithmetic). *)
Theorem dedup_keeps_negative_returns {D : Type} (l : list (Point (A:=Exact) D)) :
  Forall (fun q : Point (A:=Exact) D => py q <= - (1 / 2000)) l ->
  dedup l = l.
Proof.
  destruct l as [|p l]; [reflexivity|]. apply dedup_from_negative.
Qed.

Lemma dedup_keeps_negative_returns_witness :
  dedup (A:=Exact) [(1, -1, tt); (1, -1, tt)] = [(1, -1, tt); (1, -1, tt)]
  /\ dedup (A:=Exact) [(1, 1, tt); (1, 1, tt)] = [(1, 1, tt)].
Proof.
  split.
  - apply (dedup_keeps_negative_returns (D:=unit)).
    repeat constructor; unfold py; simpl; lra.
  - assert (float_eq (A:=Exact) 1 1 = true) as E.
    { apply float_eq_exact. rewrite Rminus_diag, Rabs_R0. lra. }
    cbn [dedup dedup_from]. unfold near, px, py. cbn [fst snd].
    rewrite E. reflexivity.
Defined.

End Claim_tolerance.

(** X12.  [set_asset_number] and [get_asset_number]: the number written at
    an index in range is the number read back there, every other holding
    and every asset stay as they are, and an index out of range is
    ignored (no error, nothing changed). *)
Theorem set_asset_number_get {A : Arith} (q : number) (i j : nat) (p : Portfolio) :
  get_asset_number (set_asset_number q i p) j
  = (if Nat.eqb i j && Nat.ltb i (num_assets p) then Some q
     else get_asset_number p j)
  /\ get_asset (set_asset_number q i p) j = get_asset p j
  /\ num_assets (set_asset_number q i p) = num_assets p
  /\ correlations (set_asset_number q i p) = correlations p.
Proof.
  unfold set_asset_number, get_asset_number, get_asset, num_assets.
  destruct (assets p !! i) as [[a q0]|] eqn:E; simpl.
  - assert (i < length (assets p)) as Hi by (eapply lookup_lt_Some; eauto).
    replace (Nat.ltb i (length (assets p))) with true
      by (symmetry; apply Nat.ltb_lt; exact Hi).
    rewrite andb_true_r.
    destruct (Nat.eqb_spec i j) as [<-|Hne].
    + rewrite list_lookup_insert_eq by exact Hi. simpl. rewrite E.
      repeat split. apply length_insert.
    + rewrite list_lookup_insert_ne by exact Hne.
      repeat split. apply length_insert.
  - apply lookup_ge_None_1 in E.
    replace (Nat.ltb i (length (assets p))) with false
      by (symmetry; apply Nat.ltb_ge; exact E).
    rewrite andb_false_r. repeat split.
Qed.

(** X13.  [replace_asset] at an index in range puts the new asset and its
    number there and leaves the other holdings as they were, and the
    correlations dict too, which keeps the entries of the asset that
    was replaced; at an index beyond the last holding it raises
    [IndexError] and changes nothing (where [set_asset_number] would do
    nothing in silence). *)
Theorem replace_asset_get {A : Arith} (a : Asset) (q : number) (i : nat) (w : World) :
  match replace_asset a q (Z.of_nat i) w with
  | Ok _ w' =>
      i < num_assets (portfolio w)
      /\ assets (portfolio w') !! i = Some (a, q)
      /\ (forall j, j <> i -> assets (portfolio w') !! j = assets (portfolio w) !! j)
      /\ num_assets (portfolio w') = num_assets (portfolio w)
      /\ correlations (portfolio w') = correlations (portfolio w)
      /\ warned w' = warned w
  | Raise e w' => num_assets (portfolio w) <= i /\ e = IndexError /\ w' = w
  | OutOfFuel => False
  end.
Proof.
  unfold replace_asset, bind, get_portfolio. rewrite py_index_of_nat.
  destruct (Nat.ltb_spec i (num_assets (portfolio w))) as [H|H]; simpl.
  - split; [exact H|]. split; [apply list_lookup_insert_eq; exact H|].
    split; [intros j Hj; apply list_lookup_insert_ne; congruence|].
    split; [apply length_insert|]. split; reflexivity.
  - repeat split. exact H.
Qed.

(** X14.  [del_asset] removes the first holding of the asset and no other:
    for an asset that is not held it does nothing and raises nothing, and
    it undoes [add_asset] of such an asset. *)
Theorem del_asset_first {A : Arith} (a : Asset) (p : Portfolio) :
  (forall l1 h l2,
     assets p = l1 ++ h :: l2 -> ident (fst h) = ident a ->
     (forall h', In h' l1 -> ident (fst h') <> ident a) ->
     assets (del_asset a p) = l1 ++ l2)
  /\ (~ held a p ->
      del_asset a p = p /\ forall q, del_asset a (add_asset a q p) = p).
Proof.
  split.
  - intros l1 h l2 E Hh H1. unfold del_asset. simpl. rewrite E.
    apply del_first_middle; assumption.
  - intros Hn.
    assert (forall h, In h (assets p) -> ident (fst h) <> ident a) as Habs.
    { intros h Hin E. apply Hn. exists h. split; assumption. }
    split.
    + unfold del_asset. rewrite del_first_absent by exact Habs.
      destruct p; reflexivity.
    + intros q. unfold del_asset, add_asset. simpl.
      rewrite (del_first_middle a (assets p) [] (a, q)) by (auto; reflexivity).
      rewrite app_nil_r. destruct p; reflexivity.
Qed.

Lemma del_asset_first_witness :
  assets (del_asset asset_A (portfolio mixed_world)) = [(asset_B, 0.5%float)]
  /\ del_asset (mkAsset (A:=Float64) 2 1%float "C" 0%float 0%float)
       (portfolio mixed_world)
     = portfolio mixed_world.
Proof.
  destruct (del_asset_first (A:=Float64) asset_A (portfolio mixed_world)) as [H1 _].
  destruct (del_asset_first (A:=Float64)
              (mkAsset (A:=Float64) 2 1%float "C" 0%float 0%float)
              (portfolio mixed_world)) as [_ H2].
  split.
  - apply (H1 [] (asset_A, 0.5%float) [(asset_B, 0.5%float)]);
      [reflexivity | reflexivity | intros h' []].
  - apply H2. intros (h & [<-|[<-|[]]] & E); discriminate E.
Defined.

(** X15.  [set_asset_correlation] and [get_asset_correlation]: for two
    different assets the correlation written is the one read back, in
    either order of the two, and the correlation of every other pair is
    as before; for one and the same asset nothing is stored. *)
Theorem set_asset_correlation_get {A : Arith} (a b : Asset) (c : number)
  (p : Portfolio) :
  (ident a <> ident b ->
   get_asset_correlation (set_asset_correlation a b c p) a b = c
   /\ get_asset_correlation (set_asset_correlation a b c p) b a = c
   /\ forall x y,
        (ident x, ident y) <> (ident a, ident b) ->
        (ident x, ident y) <> (ident b, ident a) ->
        get_asset_correlation (set_asset_correlation a b c p) x y
        = get_asset_correlation p x y)
  /\ (ident a = ident b -> set_asset_correlation a b c p = p).
Proof.
  unfold set_asset_correlation, get_asset_correlation. split.
  - intros Hne. apply Nat.eqb_neq in Hne as Hb. rewrite Hb. simpl.
    split; [|split].
    + rewrite lookup_insert_ne by (intros [= ? ?]; congruence).
      rewrite lookup_insert_eq. reflexivity.
    + rewrite lookup_insert_eq. reflexivity.
    + intros x y H1 H2.
      rewrite !lookup_insert_ne
        by (intros [= ? ?]; first [apply H1; congruence | apply H2; congruence]).
      reflexivity.
  - intros E. apply Nat.eqb_eq in E. rewrite E. reflexivity.
Qed.

Lemma set_asset_correlation_get_witness :
  get_asset_correlation
    (set_asset_correlation asset_A asset_B 0.5%float (portfolio mixed_world))
    asset_A asset_B = 0.5%float
  /\ get_asset_correlation
       (set_asset_correlation asset_A asset_B 0.5%float (portfolio mixed_world))
       asset_B asset_A = 0.5%float.
Proof.
  destruct (set_asset_correlation_get (A:=Float64) asset_A asset_B 0.5%float
              (portfolio mixed_world)) as [H _].
  destruct H as (H1 & H2 & _); [discriminate|].
  split; [exact H1 | exact H2].
Defined.

(** X16.  [set_asset_number_with_value] never raises: an index out of range
    is ignored, a holding whose price is zero is left as it is with the
    warning "Asset price value problem.", and any other holding gets the
    number [new_value / price]. *)
Theorem set_asset_number_with_value_outcome {A : Arith} (v : number) (i : nat)
  (w : World) :
  set_asset_number_with_value v i w
  = Ok tt
      match assets (portfolio w) !! i with
      | None => w
      | Some h =>
          if fis_zero (price (fst h))
          then add_warnings w ["Asset price value problem."]
          else with_assets w (<[i := (fst h, fdiv v (price (fst h)))]>
                                (assets (portfolio w))) []
      end.
Proof.
  destruct (assets (portfolio w) !! i) as [h|] eqn:E.
  - apply set_asset_number_with_value_spec. exact E.
  - apply lookup_ge_None_1 in E.
    unfold set_asset_number_with_value, try_except, bind, get_portfolio.
    replace (Nat.ltb i (num_assets (portfolio w))) with false
      by (symmetry; apply Nat.ltb_ge; exact E).
    reflexivity.
Qed.

(** X17.  The value and the share of a holding that does not exist: where
    [get_asset] and [get_asset_number] return [None],
    [get_asset_value] and [get_asset_fractional_value] raise
    [AttributeError], which the handler for [ZeroDivisionError] does not
    catch. *)
Theorem get_asset_value_out_of_range {A : Arith} (i : nat) (w : World) :
  num_assets (portfolio w) <= i ->
  get_asset (portfolio w) i = None
  /\ get_asset_number (portfolio w) i = None
  /\ get_asset_value i w = Raise AttributeError w
  /\ get_asset_fractional_value i w = Raise AttributeError w.
Proof.
  intros H. apply lookup_ge_None_2 in H.
  unfold get_asset_fractional_value, try_except, get_asset_value, bind,
    get_portfolio, get_asset, get_asset_number.
  rewrite H. simpl. repeat split.
Qed.

Lemma get_asset_value_out_of_range_witness :
  get_asset (portfolio mixed_world) 2 = None
  /\ get_asset_number (portfolio mixed_world) 2 = None
  /\ get_asset_value 2 mixed_world = Raise AttributeError mixed_world
  /\ get_asset_fractional_value 2 mixed_world = Raise AttributeError mixed_world.
Proof.
  apply (get_asset_value_out_of_range (A:=Float64) 2 mixed_world).
  exact (Nat.le_refl 2).
Defined.

(** X18.  A portfolio that is worth nothing has no shares to report: every
    entry of [get_asset_distribution()] is 0.0, and each one comes with
    the warning "Portfolio value problem.", the [ZeroDivisionError] of
    the division by the value being caught. *)
Theorem get_asset_distribution_worthless {A : Arith} (w : World) :
  fis_zero (get_value (portfolio w)) = true ->
  get_asset_distribution w
  = Ok (repeat lit_0 (num_assets (portfolio w)))
       (add_warnings w
          (repeat "Portfolio value problem." (num_assets (portfolio w)))).
Proof.
  intros Hz. unfold get_asset_distribution. unfold bind at 1. unfold get_portfolio.
  rewrite distribution_worthless_loop.
  - unfold range. rewrite length_seq. reflexivity.
  - intros i Hi. apply in_range in Hi. exact Hi.
  - exact Hz.
Qed.

Lemma get_asset_distribution_worthless_witness :
  get_asset_distribution
    (mkWorld (mkPortfolio (A:=Float64) [(asset_A, 0%float); (asset_B, 0%float)] ∅)
       [] [] 0)
  = Ok [0%float; 0%float]
      (mkWorld (mkPortfolio (A:=Float64) [(asset_A, 0%float); (asset_B, 0%float)] ∅)
         ["Portfolio value problem."; "Portfolio value problem."] [] 0).
Proof.
  apply (get_asset_distribution_worthless (A:=Float64)
           (mkWorld (mkPortfolio (A:=Float64)
                       [(asset_A, 0%float); (asset_B, 0%float)] ∅) [] [] 0)).
  vm_compute. reflexivity.
Defined.

Section Claims_exact_shares.
Local Open Scope R_scope.

Implicit Types (p : @Portfolio Exact) (w : @World Exact) (d : list R).

(** X19.  In exact arithmetic the shares of a portfolio of non-zero value
    add up to one: [get_asset_distribution] returns one share for every
    holding, warns of nothing, and the shares sum to 1. *)
Theorem get_asset_distribution_sums_to_one w :
  get_value (portfolio w) <> 0 ->
  exists d,
    get_asset_distribution (A:=Exact) w = Ok d w
    /\ length d = num_assets (portfolio w)
    /\ Rsum d = 1.
Proof.
  intros Hv.
  destruct (reads_get_asset_distribution (A:=Exact) true (portfolio w)) with (w := w)
    as (ws & Hq & E); [| reflexivity |].
  - intros _. apply fis_zero_exact. exact Hv.
  - rewrite (Hq eq_refl), add_warnings_nil in E.
    eexists. split; [exact E|]. split.
    + rewrite length_map. unfold range. apply length_seq.
    + apply fractions_sum. exact Hv.
Qed.

Lemma get_asset_distribution_sums_to_one_witness :
  exists d,
    get_asset_distribution (A:=Exact) exact_world = Ok d exact_world
    /\ length d = num_assets (portfolio exact_world)
    /\ Rsum d = 1.
Proof.
  apply (get_asset_distribution_sums_to_one exact_world).
  unfold get_value. simpl. lra.
Defined.

(** X20.  In exact arithmetic the expected return of a portfolio of
    positive value in which no holding has a negative value lies between
    the smallest and the largest expected return of its assets:
    whenever every asset's expected return is within [lo, hi], so is
    [get_expected_return()], which warns of nothing. *)
Theorem get_expected_return_within_range w (lo hi : R) :
  0 < get_value (portfolio w) ->
  Forall (fun h => 0 <= holding_value h /\ lo <= expected_return (fst h) <= hi)
         (assets (portfolio w)) ->
  exists e, get_expected_return (A:=Exact) w = Ok e w /\ lo <= e <= hi.
Proof.
  intros Hv Hall. set (p := portfolio w).
  destruct (reads_get_expected_return (A:=Exact) true p) with (w := w)
    as (ws & Hq & E); [| reflexivity |].
  - intros _. apply fis_zero_exact. fold p in Hv. lra.
  - rewrite (Hq eq_refl), add_warnings_nil in E.
    eexists. split; [exact E|].
    unfold return_step. cbn [fadd fmul lit_0 Exact].
    rewrite (fold_left_Rsum (fun i => return_at p i * fraction p i)).
    assert (forall i, In i (range (num_assets p)) ->
              lo * fraction p i <= return_at p i * fraction p i <= hi * fraction p i)
      as Hb.
    { intros i Hi%in_range.
      destruct (lookup_lt_is_Some_2 (assets p) i Hi) as [h Hh].
      rewrite (fraction_exact p i h Hh) by (fold p in Hv; lra).
      unfold return_at, get_asset. rewrite Hh. simpl.
      rewrite Forall_forall in Hall.
      destruct (Hall h) as [H0 Hr]; [eapply list_elem_of_lookup_2; exact Hh|].
      assert (0 <= holding_value h / get_value p) as Hf.
      { apply Rmult_le_pos; [exact H0|].
        apply Rlt_le, Rinv_0_lt_compat. exact Hv. }
      split; apply Rmult_le_compat_r; lra. }
    pose proof (fractions_sum p ltac:(fold p in Hv; lra)) as H1.
    pose proof (Rsum_le_compat (fun i => lo * fraction p i)
                  (fun i => return_at p i * fraction p i) (range (num_assets p))
                  (fun i Hi => proj1 (Hb i Hi))) as Hlo.
    pose proof (Rsum_le_compat (fun i => return_at p i * fraction p i)
                  (fun i => hi * fraction p i) (range (num_assets p))
                  (fun i Hi => proj2 (Hb i Hi))) as Hhi.
    assert (forall c, Rsum (map (fun i => c * fraction p i) (range (num_assets p))) = c)
      as Hc.
    { intros c. rewrite (Rsum_scal c (fraction p)).
      transitivity (c * 1); [f_equal; exact H1 | lra]. }
    rewrite Hc in Hlo, Hhi. lra.
Qed.

Lemma get_expected_return_within_range_witness :
  exists e,
    get_expected_return (A:=Exact) exact_world = Ok e exact_world
    /\ 1 / 20 <= e <= 1 / 10.
Proof.
  apply (get_expected_return_within_range exact_world (1 / 20) (1 / 10)).
  - unfold get_value. simpl. lra.
  - repeat constructor; unfold holding_value; simpl; lra.
Defined.

End Claims_exact_shares.

Section Claim_evaluation.
Local Open Scope R_scope.

Implicit Types (p : @Portfolio Exact) (w : @World Exact) (d : list R).

(** X21.  What a scan records for a distribution, in exact arithmetic: on
    a portfolio of non-zero value with non-zero prices and no asset
    coupled with itself, setting a distribution [d] of the right length
    that sums to 1 and reading the portfolio gives the volatility
    sqrt(sum_i (volatility_i d_i)^2 + 2 sum_(i<j) coupling_ij d_i d_j)
    and the expected return sum_i return_i d_i, with no warning, and
    leaves holding [i] at [value * d_i / price_i]. *)
Theorem evaluate_at_markowitz w d :
  priced (assets (portfolio w)) ->
  get_value (portfolio w) <> 0 ->
  length d = num_assets (portfolio w) ->
  Rsum d = 1 ->
  no_self_coupling (portfolio w) ->
  0 <= markowitz_variance (portfolio w) d ->
  evaluate_at (A:=Exact) d w
  = Ok (sqrt (markowitz_variance (portfolio w) d), markowitz_return (portfolio w) d)
       (mkWorld (reallocated (portfolio w) d) (warned w) (heap w) (drawn w)).
Proof.
  intros Hp Hv Hl Hs Hself Hrad. set (p := portfolio w) in *.
  assert (d <> []) as Hd by (intros ->; unfold Rsum in Hs; simpl in Hs; lra).
  assert (num_assets p <> 0%nat) as Hn.
  { rewrite <- Hl. destruct d; [congruence | discriminate]. }
  set (w' := mkWorld (reallocated p d) (warned w) (heap w) (drawn w)).
  assert (set_asset_distribution (A:=Exact) d w = Ok tt w') as Hset.
  { rewrite (set_asset_distribution_accepts (A:=Exact) d (Rsum d) w Hl
               (vec_sum_exact d w Hd)).
    - fold p. rewrite price_warnings_priced by exact Hp.
      unfold with_assets, w', reallocated. rewrite app_nil_r. reflexivity.
    - apply float_eq_exact. cbn [lit_1 Exact]. rewrite Hs, Rminus_diag, Rabs_R0. lra. }
  assert (@fis_zero Exact (get_value (reallocated p d)) = false) as Hz.
  { apply fis_zero_exact. rewrite reallocated_value by assumption. exact Hv. }
  assert (get_volatility (A:=Exact) w' = Ok (sqrt (markowitz_variance p d)) w') as Hvol.
  { destruct (reads_get_volatility (A:=Exact) true (fun x => x * x)
                (sqrt (markowitz_variance p d)) (reallocated p d))
      with (w := w') as (ws & Hq & E).
    - intros _. exact Hz.
    - reflexivity.
    - rewrite reallocated_num_assets by exact Hl. exact Hn.
    - rewrite accumulated_exact, radicand_diagonal by exact Hself.
      rewrite reallocated_radicand by assumption.
      cbn [fsqrt Exact]. destruct (Rlt_dec _ 0); [lra | reflexivity].
    - reflexivity.
    - rewrite (Hq eq_refl), add_warnings_nil in E. exact E. }
  assert (get_expected_return (A:=Exact) w' = Ok (markowitz_return p d) w') as Hret.
  { destruct (reads_get_expected_return (A:=Exact) true (reallocated p d))
      with (w := w') as (ws & Hq & E).
    - intros _. exact Hz.
    - reflexivity.
    - rewrite (Hq eq_refl), add_warnings_nil in E. rewrite E. f_equal.
      unfold return_step. cbn [fadd fmul lit_0 Exact].
      rewrite (fold_left_Rsum
                 (fun i => return_at (reallocated p d) i * fraction (reallocated p d) i)).
      rewrite reallocated_num_assets by exact Hl.
      unfold markowitz_return. rewrite Rplus_0_l. apply Rsum_ext. intros i _.
      unfold return_at. rewrite reallocated_asset, reallocated_fraction by assumption.
      reflexivity. }
  unfold evaluate_at, bind. rewrite Hset, Hvol, Hret. reflexivity.
Qed.

Lemma evaluate_at_markowitz_witness :
  evaluate_at (A:=Exact) [1 / 4; 3 / 4] exact_world
  = Ok (sqrt (markowitz_variance (portfolio exact_world) [1 / 4; 3 / 4]),
        markowitz_return (portfolio exact_world) [1 / 4; 3 / 4])
       (mkWorld (reallocated (portfolio exact_world) [1 / 4; 3 / 4]) [] [] 0).
Proof.
  apply (evaluate_at_markowitz exact_world [1 / 4; 3 / 4]).
  - repeat constructor; simpl; lra.
  - unfold get_value. simpl. lra.
  - reflexivity.
  - simpl. lra.
  - intros k. unfold exact_world, set_asset_correlation. simpl.
    rewrite !lookup_insert_ne by (intros [= <- ?]; discriminate).
    apply lookup_empty.
  - unfold markowitz_variance, vol_at, coupling, get_asset_correlation, share.
    simpl. rewrite lookup_insert_ne by (intros [= ? ?]; discriminate).
    rewrite lookup_insert_eq. lra.
Defined.

End Claim_evaluation.

(** X22.  [Portfolio(data_source)] for a list of one or more data sources:
    the k-th holding is a new asset with price 1.0 and the name,
    volatility and expected return of the k-th source, every holding has
    the same number [1.0 / n] ([n] being 1.0 added up once per source),
    and for every two sources the dict holds, under both orders of the
    two assets, the covariance that the later source reports with the
    earlier one as its argument: of the two calls of [covariance_with]
    per pair, the second overwrites the first. *)
Theorem Portfolio_init_with_sources {A : Arith}
  (covariance_with : DataSource -> DataSource -> number)
  (sources : list DataSource) (w : World) :
  sources <> [] ->
  fis_zero (unit_sum (length sources)) = false ->
  exists cs,
    Portfolio_init covariance_with (Some sources) w
    = Ok tt (mkWorld
               (mkPortfolio
                  (imap (fun k d =>
                           (asset_of k d, fdiv lit_1 (unit_sum (length sources))))
                        sources)
                  cs)
               (warned w) (heap w) (drawn w))
    /\ forall (a b : nat) (da db : DataSource),
         a < b -> sources !! a = Some da -> sources !! b = Some db ->
         cs !! (a, b) = Some (covariance_with db da)
         /\ cs !! (b, a) = Some (covariance_with db da).
Proof.
  intros Hne Hz. set (n := length sources) in *.
  assert (1 <= n) as Hn by (unfold n; destruct sources; [congruence | simpl; lia]).
  set (hs := imap (fun k d => (asset_of k d, lit_1)) sources).
  assert (length hs = n) as Hlen by (unfold hs; apply length_imap).
  exists (if Nat.ltb 1 n then coupled covariance_with sources n else ∅).
  split.
  - unfold Portfolio_init. unfold bind at 1. unfold set_portfolio at 1.
    set (w0 := mkWorld _ _ _ _).
    unfold bind at 1. unfold bind at 1.
    rewrite add_loop. unfold bind at 1. unfold get_portfolio at 1.
    set (w1 := with_holdings _ _).
    assert (assets (portfolio w1) = hs) as Hassets.
    { unfold w1, w0, with_holdings, hs. cbn [portfolio assets num_assets length app].
      apply imap_ext. intros k d _. reflexivity. }
    assert (num_assets (portfolio w1) = n) as Hnum.
    { unfold num_assets. rewrite Hassets. exact Hlen. }
    rewrite Hnum.
    assert ((if Nat.ltb 1 n then
               for_each (range n)
                 (fun i =>
                    for_each (range n)
                      (fun j =>
                         if negb (Nat.eqb i j) then
                           let* p := get_portfolio in
                           let* ai := not_none (get_asset p i) in
                           let* aj := not_none (get_asset p j) in
                           match sources !! i, sources !! j with
                           | Some di, Some dj =>
                               set_portfolio
                                 (set_asset_correlation ai aj (covariance_with di dj) p)
                           | _, _ => raise IndexError
                           end
                         else ret tt))
             else ret tt) w1
            = Ok tt (with_couplings w1
                       (if Nat.ltb 1 n then coupled covariance_with sources n else ∅)))
      as Hloops.
    { destruct (Nat.ltb 1 n).
      - rewrite (couple_rows covariance_with sources (range n) (range n) w1 Hassets).
        + reflexivity.
        + intros i Hi%in_range. exact Hi.
        + intros j Hj%in_range. exact Hj.
      - unfold ret, with_couplings, w1, w0, with_holdings. reflexivity. }
    rewrite Hloops. set (w2 := with_couplings w1 _).
    unfold bind at 1. unfold get_portfolio at 1. unfold bind at 1.
    assert (assets (portfolio w2) = hs) as Hassets2 by exact Hassets.
    assert (map snd hs = repeat lit_1 n) as Hsnd.
    { unfold hs, n. apply units_imap. }
    rewrite Hassets2, Hsnd.
    assert (unit_sum n = fold_left fadd (repeat lit_1 (n - 1)) lit_1) as Hunit
      by reflexivity.
    assert (repeat lit_1 n = lit_1 :: repeat lit_1 (n - 1)) as ->.
    { destruct n as [|n']; [lia|]. cbn [repeat]. rewrite Nat.sub_succ, Nat.sub_0_r.
      reflexivity. }
    cbn [vec_sum]. unfold ret at 1. rewrite <- Hunit.
    unfold num_assets. rewrite Hassets2, Hlen.
    pose proof (normalise_loop (unit_sum n) hs Hz [] w2 Hassets2) as Hnorm.
    cbn [length app] in Hnorm. rewrite Hlen in Hnorm. unfold range.
    rewrite Hnorm. f_equal.
    unfold with_holdings, w2, with_couplings, w1, w0.
    cbn [portfolio correlations warned heap drawn]. do 2 f_equal.
    unfold hs. apply list_eq. intros i.
    rewrite list_lookup_fmap, !list_lookup_imap.
    destruct (sources !! i); reflexivity.
  - intros a b da db Hab Ha Hb.
    assert (b < n) as Hbn by (eapply lookup_lt_Some; eauto).
    replace (Nat.ltb 1 n) with true by (symmetry; apply Nat.ltb_lt; lia).
    destruct (coupled_lookup covariance_with sources n (Nat.le_refl _) a b da db Hab Ha Hb)
      as [H1 H2].
    cbn zeta in H1, H2.
    replace (Nat.ltb b n) with true in H1, H2 by (symmetry; apply Nat.ltb_lt; lia).
    split; assumption.
Qed.

Lemma Portfolio_init_with_sources_witness :
  exists cs,
    Portfolio_init scenario_cov
      (Some [scenario_source "Asset 1"; scenario_source "Asset 2"]) empty_world
    = Ok tt (mkWorld
               (mkPortfolio
                  [(asset_of 0 (scenario_source "Asset 1"), 0.5%float);
                   (asset_of 1 (scenario_source "Asset 2"), 0.5%float)]
                  cs)
               [] [] 0)
    /\ cs !! (0, 1) = Some 0x1.2cd92c56a01fcp-4%float
    /\ cs !! (1, 0) = Some 0x1.2cd92c56a01fcp-4%float.
Proof.
  destruct (Portfolio_init_with_sources (A:=Float64) scenario_cov
              [scenario_source "Asset 1"; scenario_source "Asset 2"] empty_world)
    as (cs & E & Hcs).
  - discriminate.
  - vm_compute. reflexivity.
  - exists cs. split; [exact E|].
    apply (Hcs 0 1 (scenario_source "Asset 1") (scenario_source "Asset 2"));
      [lia | reflexivity | reflexivity].
Defined.

(** X23.  [scan_asset_pairs] runs one scan of two assets for every pair
    [i < j] of the [n] assets, in the order (0, 1), (0, 2), ...,
    (n - 2, n - 1), and returns the samples of these scans one after the
    other.  The scan of a pair reads the portfolio at the distributions
    with [x] at [i], [1.0 - x] at [j] and 0.0 elsewhere, for the values
    [x] of the stepper [frange(0.0, 1.0, res)]; it starts from the
    holdings that the scan before left, and all its samples refer to the
    one list it allocates.  The list returned has [n (n - 1) / 2] times as
    many samples as the stepper has values (none for fewer than two
    assets); the scan raises where a reading raises. *)
Theorem scan_asset_pairs_count {A : Arith} (fuel : nat) (res : number)
  (w : World) (xs : list number) (u u' : World) :
  frange fuel lit_0 lit_1 res u = Ok xs u' ->
  (exists w',
     scan_asset_pairs fuel res w
     = match pair_readings (num_assets (portfolio w)) xs (portfolio w)
               (length (heap w)) (pairs (num_assets (portfolio w))) with
       | inr r => Ok r w'
       | inl e => Raise e w'
       end)
  /\ (forall r,
        pair_readings (num_assets (portfolio w)) xs (portfolio w)
          (length (heap w)) (pairs (num_assets (portfolio w))) = inr r ->
        2 * length r
        = num_assets (portfolio w) * (num_assets (portfolio w) - 1) * length xs)
  /\ (forall i j, In (i, j) (pairs (num_assets (portfolio w)))
                  <-> i < j < num_assets (portfolio w)).
Proof.
  intros Hxs. set (n := num_assets (portfolio w)). split; [|split].
  - unfold scan_asset_pairs. unfold bind at 1. unfold get_portfolio at 1. fold n.
    destruct (scan_rows fuel res xs u u' n Hxs (range (n - 1)) [] w eq_refl)
      as (w' & E).
    { intros i Hi%in_range. lia. }
    exists w'. rewrite E. reflexivity.
  - intros r Hr. apply pair_readings_length in Hr. rewrite Hr.
    pose proof (pairs_length n). nia.
  - intros i j. apply pairs_spec.
Qed.

Lemma scan_asset_pairs_count_witness :
  exists r w' xs,
    frange (A:=Float64) 200 0%float 1%float default_step empty_world = Ok xs empty_world
    /\ length xs = 100
    /\ scan_asset_pairs (A:=Float64) 200 default_step mixed_world = Ok r w'
    /\ pair_readings 2 xs (portfolio mixed_world) 0 [(0, 1)] = inr r
    /\ 2 * length r = 2 * (2 - 1) * length xs.
Proof.
  destruct (frange_default_step 200 empty_world ltac:(lia)) as (xs & Hxs & Hl).
  destruct (scan_asset_pairs_count (A:=Float64) 200 default_step mixed_world xs
              empty_world empty_world Hxs) as ((w' & E) & Hc & _).
  change (num_assets (portfolio mixed_world)) with 2 in *.
  change (pairs 2) with [(0, 1)] in *.
  change (length (heap mixed_world)) with 0 in *.
  destruct (pair_readings 2 xs (portfolio mixed_world) 0 [(0, 1)]) as [e|r] eqn:Er.
  - exfalso.
    assert (frange (A:=Float64) 200 0%float 1%float default_step empty_world
            = Ok (match frange (A:=Float64) 200 0%float 1%float default_step empty_world with
                  | Ok l _ => l | _ => [] end) empty_world) as Hx
      by (vm_compute; reflexivity).
    rewrite Hx in Hxs. injection Hxs as <-.
    vm_compute in Er. discriminate Er.
  - exists r, w', xs. split; [exact Hxs|]. split; [exact Hl|].
    split; [exact E|]. split; [exact Er|]. apply Hc. reflexivity.
Defined.

(** X24.  On a portfolio without assets the readers answer with zeros:
    the value, the volatility and the expected return are 0.0, the
    distribution is the empty list, and [scan_asset_pairs] returns the empty
    list; the two Monte-Carlo methods raise [TypeError], from [reduce] on
    the empty vector of draws. *)
Theorem empty_portfolio {A : Arith} (rnd : nat -> number) (num fuel : nat)
  (res : number) (w : World) :
  num_assets (portfolio w) = 0 ->
  get_value (portfolio w) = lit_0
  /\ get_volatility w = Ok lit_0 w
  /\ get_expected_return w = Ok lit_0 w
  /\ get_asset_distribution w = Ok [] w
  /\ scan_asset_pairs fuel res w = Ok [] w
  /\ scan_montecarlo rnd (S num) w = Raise TypeError w
  /\ minimum_variance_montecarlo rnd num w = Raise TypeError w.
Proof.
  intros H.
  assert (assets (portfolio w) = []) as Ha.
  { unfold num_assets in H. destruct (assets (portfolio w)); [reflexivity | discriminate]. }
  assert (mkWorld (portfolio w) (warned w) (heap w) (drawn w + 0) = w) as Hw.
  { rewrite Nat.add_0_r. destruct w. reflexivity. }
  split; [unfold get_value; rewrite Ha; reflexivity|].
  split; [apply get_volatility_empty; exact H|].
  split; [unfold get_expected_return, bind, get_portfolio; rewrite H; reflexivity|].
  split; [unfold get_asset_distribution, bind, get_portfolio; rewrite H; reflexivity|].
  split; [unfold scan_asset_pairs, bind, get_portfolio; rewrite H; reflexivity|].
  split.
  - unfold scan_montecarlo, range. cbn [seq for_acc].
    unfold bind, get_portfolio, random_vector. rewrite H. cbn. rewrite Hw. reflexivity.
  - unfold minimum_variance_montecarlo, bind, get_portfolio, random_vector.
    rewrite H. cbn. rewrite Hw. reflexivity.
Qed.

Lemma empty_portfolio_witness :
  get_volatility (A:=Float64) empty_world = Ok 0%float empty_world
  /\ scan_montecarlo (A:=Float64) sample_draws 1 empty_world
     = Raise TypeError empty_world.
Proof.
  destruct (empty_portfolio (A:=Float64) sample_draws 0 0 0%float empty_world eq_refl)
    as (_ & Hv & _ & _ & _ & Hs & _).
  split; [exact Hv | exact Hs].
Defined.

(** X25.  [scan_two_assets] with an index that is no subscript of the list
    of holdings raises [IndexError] in its first pass, before the
    portfolio is touched: the portfolio and the warnings are as before. *)
Theorem scan_two_assets_bad_index {A : Arith} (fuel : nat) (i j : Z) (res : number)
  (w : World) (xs : list number) (u u' : World) :
  float_eq res lit_0 = false ->
  frange fuel lit_0 lit_1 res u = Ok xs u' ->
  py_index (num_assets (portfolio w)) i = None
  \/ py_index (num_assets (portfolio w)) j = None ->
  exists w',
    scan_two_assets fuel i j res w = Raise IndexError w'
    /\ portfolio w' = portfolio w /\ warned w' = warned w.
Proof.
  intros Hres Hxs Hbad. unfold frange in Hxs. rewrite Hres in Hxs.
  destruct (frange_loop fuel lit_0 lit_1 res []) as [ys|] eqn:E; [|discriminate].
  clear Hxs xs. pose proof (frange_loop_extends _ _ _ _ _ _ E) as (tl & ->).
  cbn [app] in E.
  unfold scan_two_assets. unfold bind at 1. unfold get_portfolio at 1.
  unfold bind at 1. unfold alloc at 1. set (w1 := mkWorld _ _ _ _).
  unfold bind at 1. unfold frange. rewrite Hres, E. unfold ret at 1.
  cbn [for_acc]. unfold bind at 1. unfold bind at 1.
  set (n := num_assets (portfolio w)) in *.
  assert (heap w1 !! length (heap w) = Some (repeat lit_0 n)) as Hl.
  { unfold w1. cbn [heap]. rewrite lookup_app_r by lia.
    rewrite Nat.sub_diag. reflexivity. }
  unfold setitem at 1.
  match goal with
  | |- context [default [] ?x] =>
      assert (x = Some (repeat lit_0 n)) as Hq by exact Hl
  end.
  rewrite !Hq. cbn [default from_option Datatypes.id]. rewrite repeat_length.
  destruct (py_index n i) as [k|] eqn:Hi.
  - destruct Hbad as [Hbad|Hbad]; [discriminate|].
    unfold bind at 1. unfold setitem at 1. cbn [heap portfolio warned drawn].
    rewrite list_lookup_insert_eq
      by (unfold w1; cbn [heap]; rewrite length_app; simpl; lia).
    cbn [default from_option Datatypes.id]. rewrite length_insert, repeat_length, Hbad.
    eexists. split; [reflexivity|]. split; reflexivity.
  - eexists. split; [reflexivity|]. split; reflexivity.
Qed.

Lemma scan_two_assets_bad_index_witness :
  exists w',
    scan_two_assets (A:=Float64) 200 0 2 default_step mixed_world
    = Raise IndexError w'
    /\ portfolio w' = portfolio mixed_world /\ warned w' = warned mixed_world.
Proof.
  destruct (frange_default_step 200 empty_world ltac:(lia)) as (xs & Hxs & _).
  apply (scan_two_assets_bad_index (A:=Float64) 200 0 2 default_step mixed_world
           xs empty_world empty_world).
  - vm_compute. reflexivity.
  - exact Hxs.
  - right. vm_compute. reflexivity.
Defined.

(** X26.  With two, three or four points left after the removal of
    near-duplicates no point is ever dropped: the result is those points
    in sorted order without the last one, followed by the same points in
    reverse order without the first one, wherever the points lie. *)
Theorem asset_dist_hull_up_to_four {A : Arith} {D : Type}
  (dist_set : list (Point D)) (w : World) :
  2 <= length (dedup (sort_by px (sort_by py dist_set))) <= 4 ->
  asset_dist_hull dist_set w
  = Ok (removelast (dedup (sort_by px (sort_by py dist_set)))
        ++ removelast (rev (dedup (sort_by px (sort_by py dist_set))))) w.
Proof.
  intros [H2 H4]. unfold asset_dist_hull.
  pose proof (dedup_length (sort_by px (sort_by py dist_set))) as Hd.
  rewrite !sort_by_length in Hd.
  replace (Nat.ltb (length dist_set) 2) with false
    by (symmetry; apply Nat.ltb_ge; lia).
  replace (Nat.ltb (length (dedup (sort_by px (sort_by py dist_set)))) 2) with false
    by (symmetry; apply Nat.ltb_ge; lia).
  rewrite !chain_short by (rewrite ?length_rev; exact H4).
  reflexivity.
Qed.

Lemma asset_dist_hull_up_to_four_witness :
  asset_dist_hull (A:=Float64) [pt 0 0; pt 2 1; pt 2 4; pt 4 0]%float empty_world
  = Ok [pt 0 0; pt 2 1; pt 2 4; pt 4 0; pt 2 4; pt 2 1]%float empty_world.
Proof.
  rewrite (asset_dist_hull_up_to_four (A:=Float64)).
  - vm_compute. reflexivity.
  - vm_compute. split; repeat constructor.
Defined.

(** X27.  [TimeSeries.relative_returns]: the list of
    [(history[i + 1] - history[i]) / history[i]], one entry less than the
    history (none for fewer than two data points), unless one of the
    data points before the last is zero, which is a
    [ZeroDivisionError]; a zero in the last place does no harm. *)
Theorem relative_returns_outcome {A : Arith} {N : Numeric A}
  (history : list number) (w : World) :
  TimeSeries.relative_returns history w
  = (if forallb (fun x => negb (fis_zero x)) (removelast history)
     then Ok (zip_with (fun cur next => fdiv (next [-] cur) cur)
                       history (tail history)) w
     else Raise ZeroDivisionError w)
  /\ Datatypes.length
       (zip_with (fun cur next => fdiv (next [-] cur) cur) history (tail history))
     = Datatypes.length history - 1.
Proof.
  split; [apply relative_returns_spec | apply returns_of_length].
Qed.

(** X28.  Series too short for a statistic: with fewer than two data
    points [expected_return()] is NaN, with fewer than three
    [volatility()] is NaN (two points have an expected return but no
    volatility), and [correlation_with] answers 0.0, not NaN, for series
    of different lengths or with fewer than two points, without looking
    at the data. *)
Theorem short_series {A : Arith} {N : Numeric A} (history : list number) (w : World) :
  (length history <= 1 -> TimeSeries.expected_return history w = Ok fnan w)
  /\ (length history <= 2 -> divisible history = true ->
      TimeSeries.volatility history w = Ok fnan w)
  /\ (forall other,
        length history <> length other \/ length history <= 1 ->
        TimeSeries.correlation_with history other w = Ok lit_0 w).
Proof.
  split; [|split].
  - intros H. rewrite expected_return_spec.
    destruct history as [|x [|y l]]; [reflexivity | reflexivity | simpl in H; lia].
  - intros H Hd. unfold TimeSeries.volatility, bind.
    rewrite relative_returns_spec, Hd.
    replace (Nat.ltb 1 (length (returns_of history))) with false; [reflexivity|].
    symmetry. apply Nat.ltb_ge. rewrite returns_of_length. lia.
  - intros other H. apply correlation_with_guard. exact H.
Qed.

Lemma short_series_witness :
  TimeSeries.expected_return (A:=Float64) (N:=Float64_numeric) [1; 2]%float empty_world
  = Ok 1%float empty_world
  /\ TimeSeries.volatility (A:=Float64) (N:=Float64_numeric) [1; 2]%float empty_world
     = Ok PrimFloat.nan empty_world.
Proof.
  split; [vm_compute; reflexivity|].
  apply (short_series (A:=Float64) (N:=Float64_numeric) [1; 2]%float empty_world).
  - simpl. lia.
  - vm_compute. reflexivity.
Defined.

(** X29.  [correlation_with] is symmetric in the two series, errors
    included, in every arithmetic whose multiplication is commutative. *)
Theorem correlation_with_symmetric {A : Arith} {N : Numeric A}
  (history other : list number) (w : World) :
  (forall x y : number, x [*] y = y [*] x) ->
  TimeSeries.correlation_with history other w
  = TimeSeries.correlation_with other history w.
Proof.
  intros Hc.
  destruct (Nat.eq_dec (length history) (length other)) as [Hl|Hl].
  2:{ rewrite !correlation_with_guard by (left; congruence). reflexivity. }
  destruct (Nat.le_gt_cases (length history) 1) as [H1|H1].
  { rewrite !correlation_with_guard by (right; lia). reflexivity. }
  rewrite (correlation_with_spec history other) by (auto; lia).
  rewrite (correlation_with_spec other history) by (auto; lia).
  rewrite (andb_comm (divisible other)), <- Hl.
  destruct (divisible history && divisible other); [|reflexivity].
  unfold bind. rewrite (products_symmetric (returns_of other)) by exact Hc.
  destruct (py_div _ _ w) as [q w1| |] eqn:Eq; try reflexivity.
  assert (w1 = w) as ->.
  { unfold py_div in Eq. destruct (fis_zero _); [discriminate|].
    injection Eq as _ <-. reflexivity. }
  destruct (expected_return_cases history w) as [[e1 E1]|E1];
    destruct (expected_return_cases other w) as [[e2 E2]|E2];
    rewrite ?E1, ?E2, ?E1, ?E2; try reflexivity.
  unfold ret. rewrite (Hc e1 e2). reflexivity.
Qed.

Lemma correlation_with_symmetric_witness :
  TimeSeries.correlation_with (A:=Float64) (N:=Float64_numeric) series_1 series_2
    empty_world
  = TimeSeries.correlation_with (A:=Float64) (N:=Float64_numeric) series_2 series_1
      empty_world.
Proof.
  apply (correlation_with_symmetric (A:=Float64) (N:=Float64_numeric)).
  exact float_mul_comm.
Defined.

Section Claim_series.
Local Open Scope R_scope.

(** X30.  In exact arithmetic the correlation of a series with itself is
    the square of its volatility: for a history of three or more data
    points, none but the last being zero, [volatility()] returns a number
    [v >= 0] and [correlation_with(self)] returns [v * v]. *)
Theorem self_correlation_is_variance (undefined : R) (history : list R)
  (w : @World Exact) :
  (3 <= length history)%nat ->
  divisible (A:=Exact) history = true ->
  exists v,
    TimeSeries.volatility (A:=Exact) (N:=Exact_numeric undefined) history w = Ok v w
    /\ 0 <= v
    /\ TimeSeries.correlation_with (A:=Exact) (N:=Exact_numeric undefined)
         history history w
       = Ok (v * v) w.
Proof.
  intros Hl Hd.
  set (r := returns_of (A:=Exact) history).
  pose proof (returns_of_length (A:=Exact) history) as Hn. fold r in Hn.
  set (n := INR (length r)).
  assert ((2 <= length r)%nat) as Hr2 by (change (@number Exact) with R in *; lia).
  assert (n <> 0) as Hn0 by (apply not_0_INR; change (@number Exact) with R in *; lia).
  assert (0 < n) as Hnpos by (apply lt_0_INR; change (@number Exact) with R in *; lia).
  set (m := Rsum r / n).
  set (q := Rsum (map (fun x => (x - m) * (x - m)) r) / n).
  assert (0 <= q) as Hq.
  { unfold q. apply Rmult_le_pos; [apply Rsum_squares_nonneg|].
    apply Rlt_le, Rinv_0_lt_compat. exact Hnpos. }
  exists (sqrt q). split; [|split].
  - unfold TimeSeries.volatility. unfold bind at 1.
    rewrite relative_returns_spec, Hd. fold r.
    replace (Nat.ltb 1 (length r)) with true by (symmetry; apply Nat.ltb_lt; exact Hr2).
    unfold bind at 1.
    rewrite (expected_return_exact undefined history w Hd) by lia. fold r n m.
    unfold bind at 1.
    rewrite (squares_loop (A:=Exact) (fun x => x * x) m r) by reflexivity.
    cbn [fadd fsub lit_0 Exact].
    rewrite (fold_left_Rsum (fun x => (x - m) * (x - m))), Rplus_0_l.
    unfold bind at 1. cbn [of_int Exact_numeric]. fold n.
    rewrite py_div_exact by exact Hn0. fold q.
    unfold py_sqrt. cbn [fsqrt Exact].
    destruct (Rlt_dec q 0); [lra | reflexivity].
  - apply sqrt_pos.
  - rewrite correlation_with_spec by (auto; lia). rewrite Hd. cbn [andb].
    fold r. rewrite <- Hn. unfold bind at 1.
    cbn [of_int Exact_numeric fadd fmul lit_0 Exact]. fold n.
    rewrite py_div_exact by exact Hn0.
    unfold bind at 1. rewrite (expected_return_exact undefined history w Hd) by lia.
    fold r n m. unfold bind at 1.
    rewrite (expected_return_exact undefined history w Hd) by lia.
    fold r n m. unfold ret. f_equal. cbn [fsub fmul Exact].
    rewrite sqrt_sqrt by exact Hq.
    rewrite (fold_left_Rsum (fun i => nth i r 0 * nth i r 0)), Rplus_0_l.
    rewrite (map_range_lookup _ (fun x => x * x) r)
      by (intros i x Hx; rewrite (nth_lookup_Some _ _ _ _ Hx); reflexivity).
    unfold q. rewrite sum_of_deviations. fold n.
    assert (Rsum r = m * n) as -> by (unfold m; field; exact Hn0).
    assert (forall s2 a b : R, b <> 0 ->
              s2 / b - a * a = (s2 - 2 * a * (a * b) + b * (a * a)) / b) as Halg
      by (intros; field; assumption).
    apply Halg. exact Hn0.
Qed.

Lemma self_correlation_is_variance_witness :
  exists v,
    TimeSeries.volatility (A:=Exact) (N:=Exact_numeric 0) [1; 2; 3]%R empty_world
    = Ok v empty_world
    /\ 0 <= v
    /\ TimeSeries.correlation_with (A:=Exact) (N:=Exact_numeric 0)
         [1; 2; 3]%R [1; 2; 3]%R empty_world
       = Ok (v * v) empty_world.
Proof.
  apply (self_correlation_is_variance 0 [1; 2; 3]%R empty_world).
  - simpl. lia.
  - unfold divisible. cbn [removelast forallb fis_zero Exact]. unfold Reqb.
    destruct (Req_dec_T 1 0); [lra|]. destruct (Req_dec_T 2 0); [lra|]. reflexivity.
Defined.

End Claim_series.
